(** * mongodump-parser: the archive walker and the legacy extended-JSON
      special-key decoder, embedded in Rocq.

    The development follows the Go sources:
    - [main.go]: [checkMagicBytes], [readBSON], [getCollectionMetadata],
      [getReport];
    - [common/bsonutil/bsonutil.go]: [ParseSpecialKeys],
      [GetExtendedBsonD], [parseNumberLongField].

    Go values of type [interface{}] are a closed inductive type [value];
    a Go result pair [(x, err)] is a Rocq pair whose second component is
    an [option error] ([None] is Go's [nil] error).  Maps
    ([map[string]interface{}]) are stdpp [gmap]s, ordered documents
    ([bson.D]) are association lists. *)

From Stdlib Require Import ZArith Lia Ascii String Strings.Byte.
From Stdlib Require Import Floats.SpecFloat.
From stdpp Require Import gmap strings list fin_maps.

#[local] Open Scope string_scope.
#[local] Open Scope Z_scope.
#[local] Set Warnings "-register-all".

(** ** Go basics: bytes, strings, errors *)

(** A Go string is a sequence of bytes; [code c] is the numeric value of
    the byte [c]. *)
Definition code (c : ascii) : Z := Z.of_N (N_of_ascii c).

(** Equality of bytes is decidable. *)
#[export] Instance byte_eq_decision : EqDecision byte := Byte.byte_eq_dec.

(** Unsigned and signed wrap-around of the fixed-width integer types. *)
Definition wrap_uint64 (x : Z) : Z := x mod 2 ^ 64.
Definition wrap_int64 (x : Z) : Z := (x + 2 ^ 63) mod 2 ^ 64 - 2 ^ 63.
Definition wrap_int32 (x : Z) : Z := (x + 2 ^ 31) mod 2 ^ 32 - 2 ^ 31.

(** ** Package [strconv] of the Go standard library: [ParseInt] *)

Module strconv.

(** The sentinel errors wrapped by [*NumError]. *)
Inductive Err := ErrRange | ErrSyntax | ErrBase (base : Z) | ErrBitSize (bitSize : Z).

(** [&NumError{Func, Num, Err}]. *)
Record NumError := mkNumError { Func : string; Num : string; NErr : Err }.

Definition syntaxError (fn str : string) : NumError := mkNumError fn str ErrSyntax.
Definition rangeError (fn str : string) : NumError := mkNumError fn str ErrRange.
Definition baseError (fn str : string) (base : Z) : NumError := mkNumError fn str (ErrBase base).
Definition bitSizeError (fn str : string) (bitSize : Z) : NumError :=
  mkNumError fn str (ErrBitSize bitSize).

Definition IntSize : Z := 64.
Definition maxUint64 : Z := 2 ^ 64 - 1.

(** [lower(c)]: [c | ('x' - 'X')]. *)
Definition lower (c : Z) : Z := Z.lor c 32.

(** Base-prefix detection of [ParseUint] for [base == 0]: the base and
    the remaining digits. *)
Definition detect_base (s : string) : Z * string :=
  match s with
  | String "0" rest =>
      match rest with
      | String c rest' =>
          if (3 <=? Z.of_nat (String.length s)) && (lower (code c) =? code "b") then (2, rest')
          else if (3 <=? Z.of_nat (String.length s)) && (lower (code c) =? code "o") then (8, rest')
          else if (3 <=? Z.of_nat (String.length s)) && (lower (code c) =? code "x") then (16, rest')
          else (8, rest)
      | EmptyString => (8, rest)
      end
  | _ => (10, s)
  end.

(** The value of the byte [c] as a digit, in the [switch] of the digit
    loop. *)
Definition digit_of (c : Z) : option Z :=
  if (code "0" <=? c) && (c <=? code "9") then Some (c - code "0")
  else if (code "a" <=? lower c) && (lower c <=? code "z")
       then Some (lower c - code "a" + 10)
  else None.

(** The digit loop of [ParseUint]: [inl r] is an early [return r],
    [inr (n, underscores)] the state when the loop ends. *)
Fixpoint digits (fn s0 : string) (base : Z) (base0 : bool) (cutoff maxVal : Z)
    (s : string) (n : Z) (underscores : bool) : (Z * NumError) + (Z * bool) :=
  match s with
  | EmptyString => inr (n, underscores)
  | String ch s' =>
      let c := code ch in
      if (c =? code "_") && base0 then
        digits fn s0 base base0 cutoff maxVal s' n true
      else
        match digit_of c with
        | None => inl (0, syntaxError fn s0)
        | Some d =>
            if base <=? d then inl (0, syntaxError fn s0)
            else if cutoff <=? n then inl (maxVal, rangeError fn s0)
            else
              let n := wrap_uint64 (n * base) in
              let n1 := wrap_uint64 (n + d) in
              if (n1 <? n) || (maxVal <? n1) then inl (maxVal, rangeError fn s0)
              else digits fn s0 base base0 cutoff maxVal s' n1 underscores
        end
  end.

(** [underscoreOK]: underscores only between digits or between a base
    prefix and a digit.  [saw] is the last character class seen. *)
Inductive saw_t := SawStart | SawDigit | SawUnderscore | SawOther.

Fixpoint underscoreOK_loop (hex : bool) (s : string) (saw : saw_t) : bool :=
  match s with
  | EmptyString => negb (match saw with SawUnderscore => true | _ => false end)
  | String ch s' =>
      let c := code ch in
      if ((code "0" <=? c) && (c <=? code "9"))
         || (hex && (code "a" <=? lower c) && (lower c <=? code "f")) then
        underscoreOK_loop hex s' SawDigit
      else if c =? code "_" then
        match saw with
        | SawDigit => underscoreOK_loop hex s' SawUnderscore
        | _ => false
        end
      else
        match saw with
        | SawUnderscore => false
        | _ => underscoreOK_loop hex s' SawOther
        end
  end.

Definition underscoreOK (s : string) : bool :=
  let s :=
    match s with
    | String c rest => if (code c =? code "-") || (code c =? code "+") then rest else s
    | EmptyString => s
    end in
  match s with
  | String "0" (String c rest) =>
      if (lower (code c) =? code "b") || (lower (code c) =? code "o")
         || (lower (code c) =? code "x")
      then underscoreOK_loop (lower (code c) =? code "x") rest SawDigit
      else underscoreOK_loop false s SawStart
  | _ => underscoreOK_loop false s SawStart
  end.

Definition fnParseUint : string := "ParseUint".
Definition fnParseInt : string := "ParseInt".

(** [func ParseUint(s string, base int, bitSize int) (uint64, error)]. *)
Definition ParseUint (s : string) (base bitSize : Z) : Z * option NumError :=
  match s with
  | EmptyString => (0, Some (syntaxError fnParseUint s))
  | _ =>
      let base0 := base =? 0 in
      let s0 := s in
      let prefix :=
        if (2 <=? base) && (base <=? 36) then Some (base, s)
        else if base =? 0 then Some (detect_base s)
        else None in
      match prefix with
      | None => (0, Some (baseError fnParseUint s0 base))
      | Some (base', s') =>
          if (bitSize <? 0) || (64 <? bitSize) then
            (0, Some (bitSizeError fnParseUint s0 bitSize))
          else
            let bitSize := if bitSize =? 0 then IntSize else bitSize in
            let cutoff := maxUint64 / base' + 1 in
            let maxVal := 2 ^ bitSize - 1 in
            match digits fnParseUint s0 base' base0 cutoff maxVal s' 0 false with
            | inl (n, e) => (n, Some e)
            | inr (n, underscores) =>
                if underscores && negb (underscoreOK s0) then
                  (0, Some (syntaxError fnParseUint s0))
                else (n, None)
            end
      end
  end.

Definition is_ErrRange (e : Err) : bool :=
  match e with ErrRange => true | _ => false end.

(** The part of [ParseInt] after the call of [ParseUint] and its
    [err != nil && err.Err != ErrRange] test. *)
Definition after_ParseUint (s0 : string) (neg : bool) (un bitSize : Z)
    : Z * option NumError :=
  let bitSize := if bitSize =? 0 then IntSize else bitSize in
  let cutoff := 2 ^ (bitSize - 1) in
  if negb neg && (cutoff <=? un) then
    (wrap_int64 (cutoff - 1), Some (rangeError fnParseInt s0))
  else if neg && (cutoff <? un) then
    (wrap_int64 (- wrap_int64 cutoff), Some (rangeError fnParseInt s0))
  else
    let n := wrap_int64 un in
    (if neg then wrap_int64 (- n) else n, None).

(** [func ParseInt(s string, base int, bitSize int) (i int64, err error)]. *)
Definition ParseInt (s : string) (base bitSize : Z) : Z * option NumError :=
  match s with
  | EmptyString => (0, Some (syntaxError fnParseInt s))
  | String c rest =>
      let s0 := s in
      let '(neg, s) :=
        if code c =? code "+" then (false, rest)
        else if code c =? code "-" then (true, rest)
        else (false, s) in
      let '(un, err) := ParseUint s base bitSize in
      match err with
      | Some (mkNumError _ _ e) =>
          if negb (is_ErrRange e) then (0, Some (mkNumError fnParseInt s0 e))
          else after_ParseUint s0 neg un bitSize
      | None => after_ParseUint s0 neg un bitSize
      end
  end.

End strconv.

(** ** Package [encoding/hex] of the Go standard library: [DecodeString] *)

Module hex.

Inductive Err := InvalidByteError (b : ascii) | ErrLength.

(** [reverseHexTable]: the value of a hexadecimal digit, [0xff] for every
    other byte. *)
Definition reverseHexTable (ch : ascii) : Z :=
  let c := code ch in
  if (code "0" <=? c) && (c <=? code "9") then c - code "0"
  else if (code "a" <=? c) && (c <=? code "f") then c - code "a" + 10
  else if (code "A" <=? c) && (c <=? code "F") then c - code "A" + 10
  else 255.

Definition byte_of_Z (z : Z) : byte :=
  default x00 (Byte.of_N (Z.to_N z)).

(** [Decode]: two characters per byte; [dst] collects the bytes written
    so far, which [DecodeString] returns also next to an error. *)
Fixpoint Decode (src : string) (dst : list byte) : list byte * option Err :=
  match src with
  | EmptyString => (dst, None)
  | String p EmptyString =>
      if 15 <? reverseHexTable p then (dst, Some (InvalidByteError p))
      else (dst, Some ErrLength)
  | String p (String q rest) =>
      let a := reverseHexTable p in
      let b := reverseHexTable q in
      if 15 <? a then (dst, Some (InvalidByteError p))
      else if 15 <? b then (dst, Some (InvalidByteError q))
      else Decode rest (dst ++ [byte_of_Z (Z.lor (Z.shiftl a 4) b)])
  end.

Definition DecodeString (s : string) : list byte * option Err := Decode s [].

End hex.

(** ** Ranging over a string: [for i := range s] visits the first byte of
       every UTF-8 sequence and every byte that starts no valid one *)

Module utf8.

(** For a leading byte of a multi-byte sequence: its length and the
    range accepted for the second byte. *)
Definition first (b : Z) : option (nat * Z * Z) :=
  if (194 <=? b) && (b <=? 223) then Some (2%nat, 128, 191)
  else if b =? 224 then Some (3%nat, 160, 191)
  else if (225 <=? b) && (b <=? 236) then Some (3%nat, 128, 191)
  else if b =? 237 then Some (3%nat, 128, 159)
  else if (238 <=? b) && (b <=? 239) then Some (3%nat, 128, 191)
  else if b =? 240 then Some (4%nat, 144, 191)
  else if (241 <=? b) && (b <=? 243) then Some (4%nat, 128, 191)
  else if b =? 244 then Some (4%nat, 128, 143)
  else None.

Definition continuation (c : ascii) : bool :=
  (128 <=? code c) && (code c <=? 191).

(** The number of bytes the range advances by at the head of [s]. *)
Definition width (s : string) : nat :=
  match s with
  | EmptyString => 0%nat
  | String c0 rest =>
      if code c0 <? 128 then 1%nat
      else
        match first (code c0), rest with
        | Some (size, lo, hi), String c1 rest1 =>
            if (code c1 <? lo) || (hi <? code c1) then 1%nat
            else if (size =? 2)%nat then 2%nat
            else
              match rest1 with
              | String c2 rest2 =>
                  if negb (continuation c2) then 1%nat
                  else if (size =? 3)%nat then 3%nat
                  else
                    match rest2 with
                    | String c3 _ => if negb (continuation c3) then 1%nat else 4%nat
                    | EmptyString => 1%nat
                    end
              | EmptyString => 1%nat
              end
        | _, _ => 1%nat
        end
  end.

End utf8.

(** ** Values *)

(** A [time.Time] without a monotonic reading, as package [time] of the
    Go standard library builds it from a Unix time: [sec] is what
    [t.Unix()] returns, the seconds since the epoch, and [nsec] what
    [t.Nanosecond()] returns, the nanoseconds within that second,
    [0 <= nsec < 1e9]. *)
Record Time := mkTime { sec : Z; nsec : Z }.

(** [func Unix(sec int64, nsec int64) Time]: nanoseconds outside
    [[0, 999999999]] are carried into the seconds. *)
Definition Unix (sec nsec : Z) : Time :=
  if (nsec <? 0) || (1000000000 <=? nsec) then
    let n := Z.quot nsec 1000000000 in
    let sec := wrap_int64 (sec + n) in
    let nsec := wrap_int64 (nsec - wrap_int64 (n * 1000000000)) in
    if nsec <? 0 then mkTime (wrap_int64 (sec - 1)) (wrap_int64 (nsec + 1000000000))
    else mkTime sec nsec
  else mkTime sec nsec.


(** The dynamic types an [interface{}] holds in this program.  A slice
    is the list of its elements: a [nil] and an empty [bson.D] are both
    the empty list, and no statement below depends on telling them
    apart. *)
Inductive value : Type :=
| VNil                                             (* nil *)
| VBool (b : bool)                                 (* bool *)
| VString (s : string)                             (* string *)
| VInt32 (n : Z)                                   (* int32 *)
| VInt64 (n : Z)                                   (* int64 *)
| VFloat64 (f : spec_float)                        (* float64 *)
| VNumber (s : string)                             (* json.Number *)
| VISODate (s : string)                            (* json.ISODate *)
| VTime (t : Time)                                 (* time.Time *)
| VJavaScript (code : string)                      (* primitive.JavaScript *)
| VObjectID (oid : list byte)                      (* primitive.ObjectID *)
| VTimestamp (T I : Z)                             (* primitive.Timestamp *)
| VDecimal128 (h l : Z)                            (* primitive.Decimal128 *)
| VUndefined                                       (* primitive.Undefined *)
| VMaxKey                                          (* primitive.MaxKey *)
| VMinKey                                          (* primitive.MinKey *)
| VCodeWithScope (code : string) (scope : value)   (* primitive.CodeWithScope *)
| VRegex (pattern options : string)                (* primitive.Regex *)
| VBinary (subtype : byte) (data : list byte)      (* primitive.Binary *)
| VD (d : list (string * value))                   (* bson.D *)
| VM (m : gmap string value)                       (* map[string]interface{} *)
| VA (a : list value).                             (* []interface{} *)

(** [bson.E] and [bson.D]. *)
Abbreviation bson_E := (string * value)%type.
Abbreviation bson_D := (list (string * value)).
Abbreviation bson_M := (gmap string value).

Definition Key (e : bson_E) : string := e.1.
Definition Value (e : bson_E) : value := e.2.

(** [func (d D) Map() M]: later elements overwrite earlier ones. *)
Definition Map (d : bson_D) : bson_M :=
  foldl (fun m e => <[Key e := Value e]> m) ∅ d.

(** ** Errors *)

Inductive fmt_arg :=
| ArgValue (v : value)
| ArgByte (b : ascii)
| ArgBytes (bs : list byte)
| ArgUint32 (n : Z)
| ArgString (s : string).

Inductive error :=
| errors_New (text : string)                              (* errors.New *)
| fmt_Errorf (format : string) (args : list fmt_arg)      (* fmt.Errorf *)
| NumError (e : strconv.NumError)                         (* *strconv.NumError *)
| HexError (e : hex.Err)                                  (* encoding/hex *)
| io_EOF
| io_ErrUnexpectedEOF
| LibError (pkg text : string)                            (* of a library *)
| Wrapped (cause : error) (format : string) (args : list fmt_arg).

(** [errors.Wrap] and [errors.Wrapf] of [github.com/pkg/errors]: a [nil]
    error stays [nil]. *)
Definition errors_Wrapf (err : option error) (format : string) (args : list fmt_arg)
    : option error :=
  match err with
  | None => None
  | Some e => Some (Wrapped e format args)
  end.

Definition errors_Wrap (err : option error) (message : string) : option error :=
  errors_Wrapf err message [].

(** A result of [strconv] as a Go result with an [error]. *)
Definition lift_err {A B} (f : A -> B) (r : A * option strconv.NumError)
    : B * option error :=
  (f r.1, NumError <$> r.2).

(** ** Package [bsonutil] *)

Module bsonutil.

(** What [bsonutil.go] calls in other packages. *)
Class Libs := {
  (** [util.FormatDate] *)
  FormatDate : string -> value * option error;
  (** [util.ToUInt32] *)
  ToUInt32 : value -> Z * option error;
  (** [primitive.ObjectIDFromHex] *)
  ObjectIDFromHex : string -> list byte * option error;
  (** [primitive.ParseDecimal128] *)
  ParseDecimal128 : string -> (Z * Z) * option error;
  (** [base64.StdEncoding.DecodeString] *)
  base64_DecodeString : string -> list byte * option error;
  (** [json.Number.Int64] *)
  Number_Int64 : string -> Z * option error;
  (** the conversion [int64(v)] of a [float64] *)
  int64_of_float64 : spec_float -> Z;
  (** [ConvertLegacyExtJSONValueToBSON], of the same package but another
      file *)
  ConvertLegacyExtJSONValueToBSON : value -> value * option error;
}.

(** A Go result [(interface{}, error)]. *)
Abbreviation result := (value * option error)%type.

(** An [if] block of the special-key switch either returns or is passed
    over. *)
Inductive matched (A : Type) : Type :=
| Returns (r : A)
| NoMatch.
Arguments Returns {A} r.
Arguments NoMatch {A}.

(** [time.Unix(n/1e3, n%1e3*1e6)]; Go's [/] and [%] truncate. *)
Definition date_of_millis (n : Z) : Time :=
  Unix (wrap_int64 (Z.quot n 1000)) (wrap_int64 (Z.rem n 1000 * 1000000)).

Section WithLibs.
Context `{!Libs}.

(** [func parseNumberLongField(jsonValue interface{}) (int64, error)] *)
Definition parseNumberLongField (jsonValue : value) : Z * option error :=
  match jsonValue with
  | VString v =>
      (* all of decimal, hex, and octal are supported here *)
      lift_err id (strconv.ParseInt v 0 64)
  | _ => (0, Some (errors_New "expected $numberLong field to have string value"))
  end.

(** The inner [$numberLong] test of a [$date] document. *)
Definition date_numberLong (asMap : bson_M) : result :=
  match asMap !! "$numberLong" with
  | Some jsonValue =>
      let '(n, err) := parseNumberLongField jsonValue in
      match err with
      | Some err => (VNil, Some err)
      | None => (VTime (date_of_millis n), err)
      end
  | None => (VNil, Some (errors_New "expected $numberLong field in $date"))
  end.

(** [if jsonValue, ok := doc["$date"]; ok { switch v := jsonValue.(type) ... }] *)
Definition date_field (jsonValue : value) : result :=
  match jsonValue with
  | VString v => FormatDate v
  | VD v => date_numberLong (Map v)
  | VM v => date_numberLong v
  | VNumber v =>
      let '(n, err) := Number_Int64 v in
      (VTime (date_of_millis n), err)
  | VFloat64 v =>
      let n := int64_of_float64 v in
      (VTime (date_of_millis n), None)
  | VInt32 v =>
      let n := v in
      (VTime (date_of_millis n), None)
  | VInt64 v => (VTime (date_of_millis v), None)
  | VISODate _ => (jsonValue, None)
  | _ => (VNil, Some (errors_New "invalid type for $date field"))
  end.

(** [if jsonValue, ok := doc["$code"]; ok { ... }] of the single-field
    case, and likewise the blocks of [$oid], [$numberLong], [$numberInt],
    [$timestamp] and [$numberDecimal] below. *)
Definition code_field (jsonValue : value) : result :=
  match jsonValue with
  | VString v => (VJavaScript v, None)
  | _ => (VNil, Some (errors_New "expected $code field to have string value"))
  end.

Definition oid_field (jsonValue : value) : result :=
  match jsonValue with
  | VString v => let '(oid, err) := ObjectIDFromHex v in (VObjectID oid, err)
  | _ => (VNil, Some (errors_New "expected $oid field to have string value"))
  end.

Definition numberLong_field (jsonValue : value) : result :=
  let '(n, err) := parseNumberLongField jsonValue in (VInt64 n, err).

Definition numberInt_field (jsonValue : value) : result :=
  match jsonValue with
  | VString v =>
      (* all of decimal, hex, and octal are supported here *)
      let '(n, err) := strconv.ParseInt v 0 32 in
      (VInt32 (wrap_int32 n), NumError <$> err)
  | _ => (VNil, Some (errors_New "expected $numberInt field to have string value"))
  end.

Definition timestamp_field (jsonValue : value) : result :=
  let tsDoc :=
    match jsonValue with
    | VM internalDoc => Some internalDoc
    | VD internalDoc => Some (Map internalDoc)
    | _ => None
    end in
  match tsDoc with
  | None => (VNil, Some (errors_New "expected $timestamp key to have internal document"))
  | Some tsDoc =>
      match tsDoc !! "t" with
      | None => (VNil, Some (errors_New "expected $timestamp to have 't' field"))
      | Some seconds =>
          match ToUInt32 seconds with
          | (_, Some _) =>
              (VNil, Some (errors_New "expected $timestamp 't' field to be a numeric type"))
          | (Seconds, None) =>
              match tsDoc !! "i" with
              | None => (VNil, Some (errors_New "expected $timestamp to have 'i' field"))
              | Some inc =>
                  match ToUInt32 inc with
                  | (_, Some _) =>
                      (VNil, Some (errors_New
                         "expected $timestamp 'i' field to be  a numeric type"))
                  | (Increment, None) => (VTimestamp Seconds Increment, None)
                  end
              end
          end
      end
  end.

Definition numberDecimal_field (jsonValue : value) : result :=
  match jsonValue with
  | VString v => let '(d, err) := ParseDecimal128 v in (VDecimal128 d.1 d.2, err)
  | _ => (VNil, Some (errors_New "expected $numberDecimal field to have string value"))
  end.

(** [case 1: // document has a single field] *)
Definition single_field (doc : bson_M) : matched result :=
  match doc !! "$date" with Some jsonValue => Returns (date_field jsonValue) | None =>
  match doc !! "$code" with Some jsonValue => Returns (code_field jsonValue) | None =>
  match doc !! "$oid" with Some jsonValue => Returns (oid_field jsonValue) | None =>
  match doc !! "$numberLong" with Some jsonValue => Returns (numberLong_field jsonValue) | None =>
  match doc !! "$numberInt" with Some jsonValue => Returns (numberInt_field jsonValue) | None =>
  match doc !! "$timestamp" with Some jsonValue => Returns (timestamp_field jsonValue) | None =>
  match doc !! "$numberDecimal" with Some jsonValue => Returns (numberDecimal_field jsonValue) | None =>
  match doc !! "$undefined" with Some _ => Returns (VUndefined, None) | None =>
  match doc !! "$maxKey" with Some _ => Returns (VMaxKey, None) | None =>
  match doc !! "$minKey" with Some _ => Returns (VMinKey, None) | None =>
  NoMatch
  end end end end end end end end end end.

(** [for i := range regex.Options { switch o := regex.Options[i]; o ... }]:
    [skip] counts the bytes left of the sequence the range is inside. *)
Fixpoint validate_options (skip : nat) (options : string) : option error :=
  match options with
  | EmptyString => None
  | String o rest =>
      match skip with
      | S skip' => validate_options skip' rest
      | O =>
          if (code o =? code "g") || (code o =? code "i")
             || (code o =? code "m") || (code o =? code "s")
          then validate_options (utf8.width options - 1) rest
          else Some (fmt_Errorf "invalid regular expression option '%v'" [ArgByte o])
      end
  end.

(** [if jsonValue, ok := doc["$code"]; ok { ... }] of the two-field case;
    [ParseSpecialKeys] is the recursive call on the scope. *)
Definition code_scope_fields (ParseSpecialKeys : value -> option result)
    (doc : bson_M) (jsonValue : value) : option result :=
  match jsonValue with
  | VString v =>
      match doc !! "$scope" with
      | Some jsonValue =>
          match jsonValue with
          | VM _ | VD _ =>
              match ParseSpecialKeys jsonValue with
              | None => None
              | Some (_, Some err) => Some (VNil, Some err)
              | Some (x, None) => Some (VCodeWithScope v x, None)
              end
          | _ => Some (VNil, Some (errors_New "expected $scope field to contain map"))
          end
      | None => Some (VNil, Some (errors_New "expected $scope field with $code field"))
      end
  | _ => Some (VNil, Some (errors_New "expected $code field to have string value"))
  end.

(** [if jsonValue, ok := doc["$regex"]; ok { ... }] *)
Definition regex_fields (doc : bson_M) (jsonValue : value) : result :=
  match jsonValue with
  | VString pattern =>
      match doc !! "$options" with
      | None => (VNil, Some (errors_New "expected $options field with $regex field"))
      | Some jsonValue =>
          match jsonValue with
          | VString options =>
              (* Validate regular expression options *)
              match validate_options 0 options with
              | Some err => (VNil, Some err)
              | None => (VRegex pattern options, None)
              end
          | _ => (VNil, Some (errors_New "expected $options field to have string value"))
          end
      end
  | _ => (VNil, Some (errors_New "expected $regex field to have string value"))
  end.

(** [if jsonValue, ok := doc["$binary"]; ok { ... }] *)
Definition binary_fields (doc : bson_M) (jsonValue : value) : result :=
  match jsonValue with
  | VString data =>
      match base64_DecodeString data with
      | (_, Some err) => (VNil, Some err)
      | (bytes, None) =>
          match doc !! "$type" with
          | None => (VNil, Some (errors_New "expected $type field with $binary field"))
          | Some jsonValue =>
              match jsonValue with
              | VString typ =>
                  match hex.DecodeString typ with
                  | (_, Some err) => (VNil, Some (HexError err))
                  | (kind, None) =>
                      match kind with
                      | [k] => (VBinary k bytes, None)
                      | _ =>
                          (VNil, Some (errors_New
                             "expected single byte (as hexadecimal string) for $type field"))
                      end
                  end
              | _ => (VNil, Some (errors_New "expected $type field to have string value"))
              end
          end
      end
  | _ => (VNil, Some (errors_New "expected $binary field to have string value"))
  end.

(** [case 2: // document has two fields] *)
Definition double_field (ParseSpecialKeys : value -> option result)
    (doc : bson_M) : matched (option result) :=
  match doc !! "$code" with
  | Some jsonValue => Returns (code_scope_fields ParseSpecialKeys doc jsonValue)
  | None =>
  match doc !! "$regex" with
  | Some jsonValue => Returns (Some (regex_fields doc jsonValue))
  | None =>
  match doc !! "$binary" with
  | Some jsonValue => Returns (Some (binary_fields doc jsonValue))
  | None => NoMatch
  end end end.

(** The loop of [GetExtendedBsonD]; [bsonDoc] is the document built so
    far. *)
Fixpoint GetExtendedBsonD_loop (ParseSpecialKeys : value -> option result)
    (doc : bson_D) (bsonDoc : bson_D) : option (bson_D * option error) :=
  match doc with
  | [] => Some (bsonDoc, None)
  | docElem :: doc' =>
      let r :=
        match Value docElem with
        | VM _ | VD _ => (* subdocument *) ParseSpecialKeys (Value docElem)
        | v => Some (ConvertLegacyExtJSONValueToBSON v)
        end in
      match r with
      | None => None
      | Some (_, Some err) => Some ([], Some err)
      | Some (bsonValue, None) =>
          GetExtendedBsonD_loop ParseSpecialKeys doc' (bsonDoc ++ [(Key docElem, bsonValue)])
      end
  end.

(** The [default] of the two switches on the type of [special]. *)
Definition not_valid_input (special : value) : result :=
  (VNil, Some (fmt_Errorf "%v (type %T) is not valid input to ParseSpecialKeys"
                 [ArgValue special; ArgValue special])).

(** The first [switch] of [ParseSpecialKeys]: the document as a map,
    [None] for a value that is no document. *)
Definition as_document (special : value) : option bson_M :=
  match special with
  | VD v => Some (Map v)
  | VM v => Some v
  | _ => None
  end.

(** The last [switch] of [ParseSpecialKeys]: nothing matched, so we
    recurse deeper. *)
Definition recurse_deeper (ParseSpecialKeys : value -> option result)
    (special : value) : option result :=
  match special with
  | VD v =>
      match GetExtendedBsonD_loop ParseSpecialKeys v [] with
      | Some (d, err) => Some (VD d, err)
      | None => None
      end
  | VM v => Some (ConvertLegacyExtJSONValueToBSON special)
  | _ => Some (not_valid_input special)
  end.

(** [func ParseSpecialKeys(special interface{}) (interface{}, error)].
    The recursion of the Go function (into [$scope] and, through
    [GetExtendedBsonD], into sub-documents) is bounded by [fuel];
    [None] means the bound was reached. *)
Fixpoint ParseSpecialKeys (fuel : nat) (special : value) : option result :=
  match fuel with
  | O => None
  | S fuel =>
      (* first ensure we are using a correct document type *)
      match as_document special with
      | None => Some (not_valid_input special)
      | Some doc =>
          (* check document to see if it is special *)
          let special_form :=
            match size doc with
            | 1%nat => (* document has a single field *)
                match single_field doc with
                | Returns r => Returns (Some r)
                | NoMatch => NoMatch
                end
            | 2%nat => (* document has two fields *)
                double_field (ParseSpecialKeys fuel) doc
            | _ => NoMatch
            end in
          match special_form with
          | Returns r => r
          | NoMatch => recurse_deeper (ParseSpecialKeys fuel) special
          end
      end
  end.

(** [func GetExtendedBsonD(doc bson.D) (bson.D, error)] *)
Definition GetExtendedBsonD (fuel : nat) (doc : bson_D) : option (bson_D * option error) :=
  GetExtendedBsonD_loop (ParseSpecialKeys fuel) doc [].

(** [func ParseLegacyExtJSONValue(jsonValue interface{}) (interface{}, error)] *)
Definition ParseLegacyExtJSONValue (fuel : nat) (jsonValue : value) : option result :=
  match jsonValue with
  | VM _ | VD _ => (* subdocument *) ParseSpecialKeys fuel jsonValue
  | v => Some (ConvertLegacyExtJSONValueToBSON v)
  end.

(** The loop of [ConvertLegacyExtJSONDocumentToBSON]:
    [for key, jsonValue := range doc { ... doc[key] = bsonValue }].
    [entries] are the entries of the map in the order the range produces
    them, which Go does not fix; [doc] is the map as assigned so far, and
    is returned next to the error since the caller's map has been
    changed. *)
Fixpoint ConvertLegacyExtJSONDocumentToBSON_loop (fuel : nat) (entries : list (string * value))
    (doc : bson_M) : option (bson_M * option error) :=
  match entries with
  | [] => Some (doc, None)
  | (key, jsonValue) :: entries' =>
      let r :=
        match jsonValue with
        | VM _ | VD _ => (* subdocument *) ParseSpecialKeys fuel jsonValue
        | v => Some (ConvertLegacyExtJSONValueToBSON v)
        end in
      match r with
      | None => None
      | Some (_, Some err) => Some (doc, Some err)
      | Some (bsonValue, None) =>
          ConvertLegacyExtJSONDocumentToBSON_loop fuel entries' (<[key := bsonValue]> doc)
      end
  end.

(** [func ConvertLegacyExtJSONDocumentToBSON(doc map[string]interface{}) error]
    for the iteration order [entries] of [doc]. *)
Definition ConvertLegacyExtJSONDocumentToBSON (fuel : nat) (entries : list (string * value))
    (doc : bson_M) : option (bson_M * option error) :=
  ConvertLegacyExtJSONDocumentToBSON_loop fuel entries doc.

End WithLibs.

(** [var ErrNoSuchField = errors.New("no such field")] *)
Definition ErrNoSuchField : error := errors_New "no such field".

(** [func FindValueByKey(keyName string, document *bson.D) (interface{}, error)] *)
Fixpoint FindValueByKey (keyName : string) (document : bson_D) : value * option error :=
  match document with
  | [] => (VNil, Some ErrNoSuchField)
  | key :: document' =>
      if String.eqb (Key key) keyName then (Value key, None)
      else FindValueByKey keyName document'
  end.

(** [func FindStringValueByKey(keyName string, document *bson.D) (string, error)] *)
Definition FindStringValueByKey (keyName : string) (document : bson_D)
    : string * option error :=
  let '(value, err) := FindValueByKey keyName document in
  match err with
  | Some _ => (EmptyString, err)
  | None =>
      match value with
      | VString str => (str, None)
      | _ =>
          (EmptyString,
           Some (fmt_Errorf "field present, but is not a string: %v" [ArgValue value]))
      end
  end.

(** [func FindSubdocumentByKey(keyName string, document *bson.D) (bson.D, error)] *)
Definition FindSubdocumentByKey (keyName : string) (document : bson_D)
    : bson_D * option error :=
  let '(value, err) := FindValueByKey keyName document in
  match err with
  | Some _ => ([], err)
  | None =>
      match value with
      | VD doc => (doc, None)
      | _ => ([], Some (fmt_Errorf "field '%s' is not a document" [ArgString keyName]))
      end
  end.

(** The loop of [RemoveKey] over the elements from index [i] on; the
    document afterwards is [append(doc[:i], doc[i+1:]...)]. *)
Fixpoint RemoveKey_range (key : string) (doc : bson_D) (i : nat) (elems : bson_D)
    : (value * bool) * bson_D :=
  match elems with
  | [] => ((VNil, false), doc)
  | elem :: elems' =>
      if String.eqb (Key elem) key then
        (* Remove this key. *)
        ((Value elem, true), (take i doc ++ drop (S i) doc)%list)
      else RemoveKey_range key doc (S i) elems'
  end.

(** [func RemoveKey(key string, document *bson.D) (interface{}, bool)];
    [None] is the [nil] pointer, and the document the pointer refers to
    after the call is returned too. *)
Definition RemoveKey (key : string) (document : option bson_D)
    : (value * bool) * option bson_D :=
  match document with
  | None => ((VNil, false), None)
  | Some doc =>
      let '(r, doc') := RemoveKey_range key doc 0 doc in
      (r, Some doc')
  end.

(** [func MtoD(m bson.M) bson.D]: [for key, value := range m { doc =
    append(doc, bson.E{key, value}) }], for the entries of [m] in the
    order the range produces them. *)
Definition MtoD (entries : list (string * value)) : bson_D :=
  foldl (fun doc kv => (doc ++ [(kv.1, kv.2)])%list) [] entries.

End bsonutil.

(** ** Package [main]: the archive walker *)

Module main.

(** What [main.go] takes from the [archive] and [bson] packages.  A
    reader is the list of the bytes it has yet to deliver. *)
Class Driver := {
  (** [archive.MagicNumber], a [uint32] constant *)
  MagicNumber : Z;
  (** [bson.ReadDocument]: the raw document, the error and the reader
      after the call *)
  ReadDocument : list byte -> (list byte * option error) * list byte;
  (** [bson.Unmarshal] into a [*bson.D] *)
  Unmarshal : list byte -> bson_D * option error;
  (** [bson.UnmarshalExtJSON(data, false, &parsedMetadata)] *)
  UnmarshalExtJSON : string -> bson_D * option error;
}.

(** [var terminatorBytes = bytes.Repeat([]byte{0xff}, 4)] *)
Definition terminatorBytes : list byte := repeat xff 4.

(** [type Report struct]; a [nil] slice of documents is [None]. *)
Record Report := mkReport {
  Header : bson_D;
  CollectionMetadata : option (list bson_D);
}.

(** [Report{}] *)
Definition zeroReport : Report := mkReport [] None.

(** What is written to [errOut]: [fmt.Fprintf(errOut, format, err)]. *)
Inductive output := Fprintf (format : string) (err : error).

Definition byte_val (b : byte) : Z := Z.of_N (Byte.to_N b).

(** [io.ReadFull(r, buf)] for a buffer of [n] bytes: the bytes read, the
    error, and the reader after the call. *)
Definition io_ReadFull (r : list byte) (n : nat) : (list byte * option error) * list byte :=
  if (length r <? n)%nat then
    ((r, Some (match r with [] => io_EOF | _ => io_ErrUnexpectedEOF end)), [])
  else ((take n r, None), drop n r).

(** [Peek(n)] of a [bufio.Reader]: the next [n] bytes, the reader does not
    advance. *)
Definition Peek (b : list byte) (n : nat) : list byte * option error :=
  if (length b <? n)%nat then (b, Some io_EOF) else (take n b, None).

(** [binary.LittleEndian.Uint32] *)
Definition LittleEndian_Uint32 (b : list byte) : Z :=
  match b with
  | b0 :: b1 :: b2 :: b3 :: _ =>
      Z.lor (Z.lor (Z.lor (byte_val b0) (Z.shiftl (byte_val b1) 8))
               (Z.shiftl (byte_val b2) 16))
        (Z.shiftl (byte_val b3) 24)
  | _ => 0
  end.

(** [bytes.Equal] *)
Definition bytes_Equal (a b : list byte) : bool := bool_decide (a = b).

(** How a loop body ends: with the next iteration or with a [return]. *)
Inductive flow (A R : Type) : Type :=
| Next (a : A)
| Return (r : R).
Arguments Next {A R} a.
Arguments Return {A R} r.

Section WithDriver.
Context `{!Driver}.

(** [func checkMagicBytes(input io.Reader) error] *)
Definition checkMagicBytes (input : list byte) : option error * list byte :=
  let '((magicBytes, err), input) := io_ReadFull input 4 in
  match err with
  | Some _ => (errors_Wrap err "failed to read archive magic bytes", input)
  | None =>
      let magicNum := LittleEndian_Uint32 magicBytes in
      if negb (magicNum =? MagicNumber) then
        (Some (fmt_Errorf "unexpected magic number header (%v, %d); should be %d"
                 [ArgBytes magicBytes; ArgUint32 magicNum; ArgUint32 MagicNumber]),
         input)
      else (None, input)
  end.

(** [func readBSON[T any](rdr io.Reader, target *T) error] at
    [T = bson.D]: the target after the call, the error, the reader. *)
Definition readBSON (rdr : list byte) (target : bson_D)
    : (bson_D * option error) * list byte :=
  let '((raw, err), rdr) := ReadDocument rdr in
  match err with
  | Some _ => ((target, errors_Wrap err "failed to read BSON document"), rdr)
  | None =>
      let '(docPtr, err) := Unmarshal raw in
      match err with
      | Some _ =>
          ((target, errors_Wrapf err "failed to decode BSON document to %T"
                      [ArgValue (VD docPtr)]), rdr)
      | None => ((docPtr, None), rdr)
      end
  end.

(** [for i := range mdDoc { ... }] of [getCollectionMetadata], with
    [n] iterations left from index [i].  [err] is the variable [err] of
    the enclosing loop body, which the [!ok] branch wraps. *)
Fixpoint range_mdDoc (n i : nat) (err : option error) (mdDoc : bson_D)
    (errOut : list output)
    : flow (bson_D * list output)
           ((option (list bson_D) * option error) * list output) :=
  match n with
  | O => Next (mdDoc, errOut)
  | S n' =>
      match mdDoc !! i with
      | None => Next (mdDoc, errOut)
      | Some e =>
          if negb (String.eqb (Key e) "metadata") then
            range_mdDoc n' (S i) err mdDoc errOut
          else
            match Value e with
            | VString mdStr =>
                let '(parsedMetadata, perr) := UnmarshalExtJSON mdStr in
                match perr with
                | Some perr =>
                    range_mdDoc n' (S i) err mdDoc
                      (errOut ++
                         [Fprintf "failed to parse collection metadata string: %v" perr])
                | None =>
                    range_mdDoc n' (S i) err
                      (<[i := (Key e, VD parsedMetadata)]> mdDoc) errOut
                end
            | v =>
                Return
                  ((None,
                    errors_Wrapf err
                      "expected collection metadata to be %T, not %T (%v)"
                      [ArgString EmptyString; ArgValue v; ArgValue (VD mdDoc)]),
                   errOut)
            end
      end
  end.

(** One iteration of the [for] loop of [getCollectionMetadata]. *)
Definition metadata_step (bufInput : list byte) (errOut : list output)
    (mdDocs : list bson_D)
    : flow (list byte * list output * list bson_D)
           ((option (list bson_D) * option error) * (list byte * list output)) :=
  let '(next4, err) := Peek bufInput 4 in
  match err with
  | Some _ =>
      Return ((None, errors_Wrap err "failed to check for end of collection metadata"),
              (bufInput, errOut))
  | None =>
      if bytes_Equal next4 terminatorBytes then
        (* break; return mdDocs, nil *)
        Return ((Some mdDocs, None), (bufInput, errOut))
      else
        let '((mdDoc, err), bufInput) := readBSON bufInput [] in
        match err with
        | Some _ =>
            Return ((None, errors_Wrap err "failed to read collection metadata document"),
                    (bufInput, errOut))
        | None =>
            match range_mdDoc (length mdDoc) 0 err mdDoc errOut with
            | Return (r, errOut) => Return (r, (bufInput, errOut))
            | Next (mdDoc, errOut) => Next (bufInput, errOut, (mdDocs ++ [mdDoc])%list)
            end
        end
  end.

(** The [for] loop; [fuel] bounds the number of iterations and [None]
    means the bound was reached. *)
Fixpoint metadata_loop (fuel : nat) (bufInput : list byte) (errOut : list output)
    (mdDocs : list bson_D)
    : option ((option (list bson_D) * option error) * (list byte * list output)) :=
  match fuel with
  | O => None
  | S fuel =>
      match metadata_step bufInput errOut mdDocs with
      | Return r => Some r
      | Next (bufInput, errOut, mdDocs) => metadata_loop fuel bufInput errOut mdDocs
      end
  end.

(** [func getCollectionMetadata(bufInput *bufio.Reader, errOut io.Writer)
    ([]bson.D, error)] *)
Definition getCollectionMetadata (fuel : nat) (bufInput : list byte)
    (errOut : list output) :=
  metadata_loop fuel bufInput errOut [].

(** [func getReport(input io.Reader, errOut io.Writer) (Report, error)],
    with the reader and the diagnostics after the call.  On the metadata
    path the reader is [bufio.NewReader(input)], given as the bytes it has
    yet to deliver: the reader after the call is the position of this
    buffered reader, and how far it has read ahead in [input] is not
    modelled. *)
Definition getReport (fuel : nat) (input : list byte) (errOut : list output)
    : option ((Report * option error) * (list byte * list output)) :=
  let '(err, input) := checkMagicBytes input in
  match err with
  | Some _ =>
      Some ((zeroReport, errors_Wrap err "this does not appear to be a mongodump archive"),
            (input, errOut))
  | None =>
      let '((header, err), input) := readBSON input [] in
      match err with
      | Some _ =>
          Some ((zeroReport, errors_Wrap err "failed to read archive header"),
                (input, errOut))
      | None =>
          let bufInput := input in
          match getCollectionMetadata fuel bufInput errOut with
          | None => None
          | Some ((mdDocs, err), st) =>
              match err with
              | Some _ =>
                  Some ((zeroReport,
                         errors_Wrap err "failed to read collection metadata"), st)
              | None => Some ((mkReport header mdDocs, None), st)
              end
          end
      end
  end.

End WithDriver.

End main.

(** ** Nesting depth of a value, the measure of the decoder's recursion *)

Fixpoint depth (v : value) : nat :=
  match v with
  | VD d => S (foldr (fun e acc => Nat.max (depth e.2) acc) 0%nat d)
  | VM m => S (map_fold (fun _ x acc => Nat.max (depth x) acc) 0%nat m)
  | _ => 0%nat
  end.

(** ** Reference definitions: how the specification words the decoder *)

Module spec.

(** *** Integer literals: plain decimal, [0x] hexadecimal, leading-zero
        octal *)

Definition dec_digit (c : ascii) : option Z :=
  if (code "0" <=? code c) && (code c <=? code "9") then Some (code c - code "0")
  else None.

Definition oct_digit (c : ascii) : option Z :=
  if (code "0" <=? code c) && (code c <=? code "7") then Some (code c - code "0")
  else None.

Definition hex_digit (c : ascii) : option Z :=
  if (code "0" <=? code c) && (code c <=? code "9") then Some (code c - code "0")
  else if (code "a" <=? code c) && (code c <=? code "f") then Some (code c - code "a" + 10)
  else if (code "A" <=? code c) && (code c <=? code "F") then Some (code c - code "A" + 10)
  else None.

(** The number a digit string denotes in a base, most significant digit
    first, continuing from [acc]. *)
Fixpoint number (digit : ascii -> option Z) (base : Z) (s : string) (acc : Z) : option Z :=
  match s with
  | EmptyString => Some acc
  | String c s' =>
      match digit c with
      | Some d => number digit base s' (acc * base + d)
      | None => None
      end
  end.

(** The value of an unsigned literal; [None] for a string that is none
    of the three notations. *)
Definition magnitude (s : string) : option Z :=
  match s with
  | EmptyString => None
  | String "0" EmptyString => Some 0
  | String "0" (String x rest) =>
      if (code x =? code "x") || (code x =? code "X") then
        match rest with
        | EmptyString => None
        | _ => number hex_digit 16 rest 0
        end
      else number oct_digit 8 (String x rest) 0
  | _ => number dec_digit 10 s 0
  end.

(** The value of a literal with an optional sign. *)
Definition literal_value (s : string) : option Z :=
  match s with
  | String "-" rest => Z.opp <$> magnitude rest
  | String "+" rest => magnitude rest
  | _ => magnitude s
  end.

(** A digit notation agrees with the digit switch of [ParseUint] below a
    base. *)
Definition digits_below (digit : ascii -> option Z) (base : Z) : Prop :=
  forall c d, digit c = Some d ->
    strconv.digit_of (code c) = Some d /\ 0 <= d < base /\ (code c =? code "_") = false.

(** Whether [v] fits a signed integer of [w] bits, and the bound of
    the width on the side of [v]. *)
Definition in_range (w v : Z) : bool :=
  (- 2 ^ (w - 1) <=? v) && (v <? 2 ^ (w - 1)).

Definition saturate (w v : Z) : Z :=
  if v <? 0 then - 2 ^ (w - 1) else 2 ^ (w - 1) - 1.

(** *** Regular-expression options *)

Definition allowed_option (c : ascii) : bool :=
  bool_decide (c ∈ ["g"; "i"; "m"; "s"]%char).

(** The first character of the options that is not allowed. *)
Definition offending_option (options : string) : option ascii :=
  List.find (fun c => negb (allowed_option c)) (list_ascii_of_string options).

(** *** The subtype of a binary value: exactly two hexadecimal
        characters *)

(** The number that the two hexadecimal characters of [typ] write, and
    the number that a byte is. *)
Definition subtype_value (typ : string) : option Z :=
  match typ with
  | String p (String q EmptyString) =>
      match hex_digit p, hex_digit q with
      | Some a, Some b => Some (16 * a + b)
      | _, _ => None
      end
  | _ => None
  end.

Definition byte_value (k : byte) : Z := Z.of_N (Byte.to_N k).

(** *** Special forms as an ordered table of keys and handlers *)

(** The first entry of the table whose key the document has, with the
    value of the key. *)
Fixpoint first_match {H : Type} (table : list (string * H)) (doc : bson_M)
    : option (string * H * value) :=
  match table with
  | [] => None
  | (k, h) :: table' =>
      match doc !! k with
      | Some v => Some (k, h, v)
      | None => first_match table' doc
      end
  end.

Section WithLibs.
Context `{!bsonutil.Libs}.

Definition single_field_table : list (string * (value -> bsonutil.result)) :=
  [ ("$date", bsonutil.date_field);
    ("$code", bsonutil.code_field);
    ("$oid", bsonutil.oid_field);
    ("$numberLong", bsonutil.numberLong_field);
    ("$numberInt", bsonutil.numberInt_field);
    ("$timestamp", bsonutil.timestamp_field);
    ("$numberDecimal", bsonutil.numberDecimal_field);
    ("$undefined", fun _ => (VUndefined, None));
    ("$maxKey", fun _ => (VMaxKey, None));
    ("$minKey", fun _ => (VMinKey, None)) ].

Definition double_field_table (decode : value -> option bsonutil.result)
    : list (string * (bson_M -> value -> option bsonutil.result)) :=
  [ ("$code", bsonutil.code_scope_fields decode);
    ("$regex", fun doc v => Some (bsonutil.regex_fields doc v));
    ("$binary", fun doc v => Some (bsonutil.binary_fields doc v)) ].

(** A special form is named by the number of fields and the key that
    selects it. *)
Inductive form := SingleField (key : string) | DoubleField (key : string).

(** Which form a document is, decided on the map of its keys. *)
Definition recognize (doc : bson_M) : option form :=
  match size doc with
  | 1%nat => (fun x => SingleField x.1.1) <$> first_match single_field_table doc
  | 2%nat =>
      (fun x => DoubleField x.1.1) <$> first_match (double_field_table (fun _ => None)) doc
  | _ => None
  end.

(** The handler of a form, applied to the document. *)
Definition decode_form (decode : value -> option bsonutil.result) (doc : bson_M)
    (f : form) : option bsonutil.result :=
  match f with
  | SingleField k =>
      match first_match (filter (fun e => e.1 = k) single_field_table) doc with
      | Some (_, h, v) => Some (h v)
      | None => None
      end
  | DoubleField k =>
      match first_match (filter (fun e => e.1 = k) (double_field_table decode)) doc with
      | Some (_, h, v) => h doc v
      | None => None
      end
  end.


End WithLibs.

(** *** Metadata documents *)

Section WithDriver.
Context `{!main.Driver}.

(** What the walker does with one field of a metadata document whose
    [metadata] fields are strings: the field afterwards and the
    diagnostics written. *)
Definition reparse (e : bson_E) : bson_E * list main.output :=
  if String.eqb (Key e) "metadata" then
    match Value e with
    | VString mdStr =>
        match main.UnmarshalExtJSON mdStr with
        | (parsed, None) => ((Key e, VD parsed), [])
        | (_, Some perr) =>
            (e, [main.Fprintf "failed to parse collection metadata string: %v" perr])
        end
    | _ => (e, [])
    end
  else (e, []).

(** A [metadata] field whose value is not a string. *)
Definition bad_metadata (e : bson_E) : bool :=
  String.eqb (Key e) "metadata"
  && match Value e with VString _ => false | _ => true end.

End WithDriver.

End spec.

(** ** Streams of metadata documents *)

Module stream.

Section WithDriver.
Context `{!main.Driver}.

(** The reader [bufInput] holds the documents [docs]: each is read by one
    [readBSON] from a position that has four bytes which are not the
    terminator, and the reader is [bufInput'] after the last. *)
Fixpoint delivers (bufInput : list byte) (docs : list bson_D) (bufInput' : list byte)
    : Prop :=
  match docs with
  | [] => bufInput' = bufInput
  | mdDoc :: docs =>
      (4 <= length bufInput)%nat
      /\ take 4 bufInput <> main.terminatorBytes
      /\ exists next,
           main.readBSON bufInput [] = ((mdDoc, None), next)
           /\ delivers next docs bufInput'
  end.

(** A document none of whose [metadata] fields holds anything but a
    string. *)
Definition well_typed (mdDoc : bson_D) : Prop :=
  Forall (fun e => spec.bad_metadata e = false) mdDoc.

(** Such a document after the walker's pass over its fields, and the
    diagnostics of the pass. *)
Definition walked (mdDoc : bson_D) : bson_D :=
  (fun e => (spec.reparse e).1) <$> mdDoc.

Definition diagnostics (mdDoc : bson_D) : list main.output :=
  concat ((fun e => (spec.reparse e).2) <$> mdDoc).

End WithDriver.

End stream.

(** ** A concrete environment, to evaluate the functions on concrete inputs *)

Module demo.

(** [int64(v)] for a [float64]: truncation toward zero; values outside
    the range of [int64] give the smallest [int64]. *)
Definition int64_of_float64 (f : spec_float) : Z :=
  match f with
  | S754_zero _ => 0
  | S754_finite s m e =>
      let mag := if 0 <=? e then Z.pos m * 2 ^ e else Z.pos m / 2 ^ (- e) in
      let n := if s then - mag else mag in
      if (- 2 ^ 63 <=? n) && (n <? 2 ^ 63) then n else - 2 ^ 63
  | _ => - 2 ^ 63
  end.

Definition ToUInt32 (v : value) : Z * option error :=
  match v with
  | VInt32 n | VInt64 n =>
      if (0 <=? n) && (n <? 2 ^ 32) then (n, None)
      else (0, Some (LibError "util" "value out of range for uint32"))
  | _ => (0, Some (LibError "util" "not a number"))
  end.

Definition ObjectIDFromHex (s : string) : list byte * option error :=
  match hex.DecodeString s with
  | (b, None) =>
      if (length b =? 12)%nat then (b, None)
      else (repeat x00 12, Some (LibError "primitive" "the provided hex string is not a valid ObjectID"))
  | (_, Some e) => (repeat x00 12, Some (HexError e))
  end.

(** A base64 decoder for the empty string and for [AA==] only. *)
Definition base64_DecodeString (s : string) : list byte * option error :=
  if String.eqb s EmptyString then ([], None)
  else if String.eqb s "AA==" then ([x00], None)
  else ([], Some (LibError "base64" "illegal base64 data")).

Definition ConvertLegacyExtJSONValueToBSON (v : value) : value * option error :=
  match v with
  | VNil | VBool _ | VString _ | VFloat64 _ | VInt32 _ | VInt64 _ => (v, None)
  | _ =>
      (VNil, Some (fmt_Errorf "conversion of JSON value '%v' of type '%T' not supported"
                     [ArgValue v; ArgValue v]))
  end.

#[export] Instance libs : bsonutil.Libs := {|
  bsonutil.FormatDate s := (VNil, Some (LibError "util" "unrecognised date format"));
  bsonutil.ToUInt32 := ToUInt32;
  bsonutil.ObjectIDFromHex := ObjectIDFromHex;
  bsonutil.ParseDecimal128 s := ((0, 0), Some (LibError "primitive" "cannot parse decimal"));
  bsonutil.base64_DecodeString := base64_DecodeString;
  bsonutil.Number_Int64 s := lift_err id (strconv.ParseInt s 10 64);
  bsonutil.int64_of_float64 := int64_of_float64;
  bsonutil.ConvertLegacyExtJSONValueToBSON := ConvertLegacyExtJSONValueToBSON;
|}.

(** A reader of length-prefixed documents and a decoder of documents
    whose elements are strings ([0x02]) and 32-bit integers ([0x10]). *)
Definition ReadDocument (r : list byte) : (list byte * option error) * list byte :=
  let '((lengthBytes, err), r) := main.io_ReadFull r 4 in
  match err with
  | Some _ => (([], err), r)
  | None =>
      let n := Z.to_nat (main.LittleEndian_Uint32 lengthBytes) in
      if (n <? 5)%nat then (([], Some (LibError "bson" "invalid document length")), r)
      else
        let '((body, err), r) := main.io_ReadFull r (n - 4) in
        match err with
        | Some _ => (([], err), r)
        | None => ((lengthBytes ++ body, None)%list, r)
        end
  end.

Fixpoint cstring (b : list byte) : option (string * list byte) :=
  match b with
  | [] => None
  | c :: b' =>
      if Byte.eqb c x00 then Some (EmptyString, b')
      else
        match cstring b' with
        | Some (s, rest) => Some (String (ascii_of_byte c) s, rest)
        | None => None
        end
  end.

Fixpoint elements (fuel : nat) (b : list byte) : option bson_D :=
  match fuel with
  | O => None
  | S fuel =>
      match b with
      | [] => None
      | [t] => if Byte.eqb t x00 then Some [] else None
      | t :: b' =>
          match cstring b' with
          | None => None
          | Some (k, payload) =>
              if Byte.eqb t x02 then
                let n := Z.to_nat (main.LittleEndian_Uint32 (take 4 payload)) in
                let str := string_of_list_byte (take (n - 1) (drop 4 payload)) in
                match elements fuel (drop (4 + n) payload) with
                | Some d => Some ((k, VString str) :: d)
                | None => None
                end
              else if Byte.eqb t x10 then
                let x := wrap_int32 (main.LittleEndian_Uint32 (take 4 payload)) in
                match elements fuel (drop 4 payload) with
                | Some d => Some ((k, VInt32 x) :: d)
                | None => None
                end
              else None
          end
      end
  end.

Definition Unmarshal (raw : list byte) : bson_D * option error :=
  match elements (length raw) (drop 4 raw) with
  | Some d => (d, None)
  | None => ([], Some (LibError "bson" "cannot decode document"))
  end.

(** The JSON text of the document with the one field [type], a string. *)
Definition json_type (v : string) : string :=
  let q := String (ascii_of_nat 34) EmptyString in
  "{" ++ q ++ "type" ++ q ++ ":" ++ q ++ v ++ q ++ "}".

(** An extended-JSON parser for two documents only. *)
Definition UnmarshalExtJSON (s : string) : bson_D * option error :=
  if String.eqb s "{}" then ([], None)
  else if String.eqb s (json_type "collection") then ([("type", VString "collection")], None)
  else ([], Some (LibError "bson" "invalid JSON input")).

#[export] Instance driver : main.Driver := {|
  main.MagicNumber := 2174345837;
  main.ReadDocument := ReadDocument;
  main.Unmarshal := Unmarshal;
  main.UnmarshalExtJSON := UnmarshalExtJSON;
|}.

(** Wire forms: a string element, a 32-bit integer element, a document. *)
Definition le32 (n : Z) : list byte :=
  map (fun i => hex.byte_of_Z (Z.land (Z.shiftr n (8 * i)) 255)) [0; 1; 2; 3].

Definition string_elem (k v : string) : list byte :=
  ([x02] ++ list_byte_of_string k ++ [x00]
     ++ le32 (Z.of_nat (String.length v) + 1) ++ list_byte_of_string v ++ [x00])%list.

Definition int32_elem (k : string) (v : Z) : list byte :=
  ([x10] ++ list_byte_of_string k ++ [x00] ++ le32 v)%list.

Definition document (elems : list (list byte)) : list byte :=
  let body := concat elems in
  (le32 (Z.of_nat (length body) + 5) ++ body ++ [x00])%list.

Definition magic : list byte := [x6d; xe2; x99; x81].

(** The archive of the end-to-end example: a header, one metadata
    document, the terminator. *)
Definition archive (metadata : list byte) : list byte :=
  (magic ++ document [string_elem "version" "0.1"]
     ++ document [string_elem "db" "d"; string_elem "collection" "c"; metadata]
     ++ main.terminatorBytes)%list.

End demo.

(** * Properties *)

(** ** Bytes and fixed-width integers *)

Lemma code_range c : 0 <= code c < 256.
Proof.
  unfold code. pose proof (N_ascii_bounded c) as Hb. lia.
Qed.

Lemma code_inj c1 c2 : code c1 = code c2 -> c1 = c2.
Proof.
  unfold code. intros Heq. apply N2Z.inj in Heq.
  rewrite <- (ascii_N_embedding c1), <- (ascii_N_embedding c2). now rewrite Heq.
Qed.

Lemma wrap_uint64_small x : 0 <= x < 2 ^ 64 -> wrap_uint64 x = x.
Proof. intros Hx. unfold wrap_uint64. now apply Z.mod_small. Qed.

Lemma wrap_int64_small x : - 2 ^ 63 <= x < 2 ^ 63 -> wrap_int64 x = x.
Proof. intros Hx. unfold wrap_int64. rewrite Z.mod_small; lia. Qed.

Lemma wrap_int32_small x : - 2 ^ 31 <= x < 2 ^ 31 -> wrap_int32 x = x.
Proof. intros Hx. unfold wrap_int32. rewrite Z.mod_small; lia. Qed.

(** ** The shape of one call of [ParseSpecialKeys] *)

Section Dispatch.
Context `{!bsonutil.Libs}.
Import bsonutil.

Lemma ParseSpecialKeys_not_document fuel special :
  as_document special = None ->
  ParseSpecialKeys (S fuel) special = Some (not_valid_input special).
Proof. intros Hdoc. simpl. now rewrite Hdoc. Qed.

(** A document of one key that a single-field block returns for. *)
Lemma ParseSpecialKeys_single fuel special doc r :
  as_document special = Some doc ->
  size doc = 1%nat ->
  single_field doc = Returns r ->
  ParseSpecialKeys (S fuel) special = Some r.
Proof.
  intros Hdoc Hsize Hr. cbn [ParseSpecialKeys]. rewrite Hdoc, Hsize, Hr. reflexivity.
Qed.

Lemma ParseSpecialKeys_single_none fuel special doc :
  as_document special = Some doc ->
  size doc = 1%nat ->
  single_field doc = NoMatch ->
  ParseSpecialKeys (S fuel) special = recurse_deeper (ParseSpecialKeys fuel) special.
Proof.
  intros Hdoc Hsize Hr. cbn [ParseSpecialKeys]. rewrite Hdoc, Hsize, Hr. reflexivity.
Qed.

(** A document of two keys. *)
Lemma ParseSpecialKeys_double fuel special doc :
  as_document special = Some doc ->
  size doc = 2%nat ->
  ParseSpecialKeys (S fuel) special =
  match double_field (ParseSpecialKeys fuel) doc with
  | Returns r => r
  | NoMatch => recurse_deeper (ParseSpecialKeys fuel) special
  end.
Proof.
  intros Hdoc Hsize. cbn [ParseSpecialKeys]. rewrite Hdoc, Hsize. reflexivity.
Qed.

(** Any other number of keys. *)
Lemma ParseSpecialKeys_other fuel special doc :
  as_document special = Some doc ->
  size doc <> 1%nat -> size doc <> 2%nat ->
  ParseSpecialKeys (S fuel) special = recurse_deeper (ParseSpecialKeys fuel) special.
Proof.
  intros Hdoc H1 H2. cbn [ParseSpecialKeys]. rewrite Hdoc.
  destruct (size doc) as [|[|[|n]]]; try reflexivity; congruence.
Qed.

Lemma size_two (k1 k2 : string) (v1 v2 : value) :
  k1 <> k2 -> size (<[k1 := v1]> ({[k2 := v2]} : bson_M)) = 2%nat.
Proof.
  intros Hne. rewrite map_size_insert_None.
  - now rewrite map_size_singleton.
  - now apply lookup_singleton_ne.
Qed.

End Dispatch.

(** ** [$date]: epoch milliseconds *)

Section Date.
Context `{!bsonutil.Libs}.
Import bsonutil.





End Date.



(** ** [strconv.ParseInt] on decimal, hexadecimal and octal literals *)

Section ParseIntLiterals.
Import strconv.

Ltac by_cases_on_byte c :=
  destruct c as [[] [] [] [] [] [] [] []]; cbv; intros Hd; try discriminate Hd;
  injection Hd as <-; repeat split; solve [reflexivity | discriminate].

Lemma dec_digit_below : spec.digits_below spec.dec_digit 10.
Proof. intros c d. by_cases_on_byte c. Qed.

Lemma oct_digit_below : spec.digits_below spec.oct_digit 8.
Proof. intros c d. by_cases_on_byte c. Qed.

Lemma hex_digit_below : spec.digits_below spec.hex_digit 16.
Proof. intros c d. by_cases_on_byte c. Qed.

Lemma number_ge digit base s : forall acc v,
  1 <= base -> (forall c d, digit c = Some d -> 0 <= d) -> 0 <= acc ->
  spec.number digit base s acc = Some v -> acc <= v.
Proof.
  induction s as [|c s IH]; intros acc v Hbase Hdig Hacc Hnum; simpl in Hnum.
  - injection Hnum as <-. lia.
  - destruct (digit c) as [d|] eqn:Hd; [|discriminate].
    pose proof (Hdig c d Hd).
    apply IH in Hnum; try assumption; nia.
Qed.

(** The digit loop computes the number the digits denote, or reports a
    range error when that number exceeds [maxVal]. *)
Lemma digits_number digit base fn s0 base0 maxVal u :
  2 <= base <= 36 -> spec.digits_below digit base -> 0 <= maxVal <= maxUint64 ->
  forall s n v, 0 <= n <= maxVal ->
    spec.number digit base s n = Some v ->
    digits fn s0 base base0 (maxUint64 / base + 1) maxVal s n u
    = if v <=? maxVal then inr (v, u) else inl (maxVal, rangeError fn s0).
Proof.
  intros Hbase Hdig Hmax. unfold maxUint64 in *.
  induction s as [|c s IH]; intros n v Hn Hnum; simpl in Hnum.
  - injection Hnum as <-. simpl.
    destruct (Z.leb_spec n maxVal); [reflexivity | lia].
  - destruct (digit c) as [d|] eqn:Hd; [|discriminate].
    destruct (Hdig c d Hd) as (Hof & Hd_range & Hunder).
    assert (Hge : n * base + d <= v).
    { eapply number_ge; [| |  |exact Hnum]; try lia.
      intros c' d' Hd'. apply Hdig in Hd'. lia. }
    cbn [digits]. rewrite Hunder. cbn [andb]. rewrite Hof.
    destruct (Z.leb_spec base d) as [|_]; [lia|].
    pose proof (Z.mul_succ_div_gt (2 ^ 64 - 1) base ltac:(lia)) as Hgt.
    pose proof (Z.mul_div_le (2 ^ 64 - 1) base ltac:(lia)) as Hle.
    destruct (Z.leb_spec ((2 ^ 64 - 1) / base + 1) n) as [Hcut|Hcut].
    + destruct (Z.leb_spec v maxVal); [nia | reflexivity].
    + assert (Hmul : 0 <= n * base < 2 ^ 64) by nia.
      rewrite (wrap_uint64_small (n * base)) by exact Hmul.
      destruct (Z.lt_ge_cases (n * base + d) (2 ^ 64)) as [Hfit|Hover].
      * rewrite (wrap_uint64_small (n * base + d)) by lia.
        destruct (Z.ltb_spec (n * base + d) (n * base)) as [|_]; [lia|].
        destruct (Z.ltb_spec maxVal (n * base + d)) as [Hbig|Hsmall]; cbn [orb].
        -- destruct (Z.leb_spec v maxVal); [lia | reflexivity].
        -- apply IH; [lia | exact Hnum].
      * assert (Hwrap : wrap_uint64 (n * base + d) = n * base + d - 2 ^ 64).
        { unfold wrap_uint64.
          rewrite <- (Z.mod_add _ (-1)) by lia. rewrite Z.mod_small; lia. }
        rewrite Hwrap.
        destruct (Z.ltb_spec (n * base + d - 2 ^ 64) (n * base)) as [_|]; [|lia].
        cbn [orb]. destruct (Z.leb_spec v maxVal); [lia | reflexivity].
Qed.

Lemma detect_base_decimal c rest :
  c <> "0"%char -> detect_base (String c rest) = (10, String c rest).
Proof.
  intros Hc. destruct c as [[] [] [] [] [] [] [] []]; try reflexivity. congruence.
Qed.

Lemma magnitude_decimal c rest :
  c <> "0"%char ->
  spec.magnitude (String c rest) = spec.number spec.dec_digit 10 (String c rest) 0.
Proof.
  intros Hc. destruct c as [[] [] [] [] [] [] [] []]; try reflexivity. congruence.
Qed.

Lemma oct_digit_no_prefix x d :
  spec.oct_digit x = Some d ->
  (lower (code x) =? code "b") = false /\ (lower (code x) =? code "o") = false
  /\ (lower (code x) =? code "x") = false.
Proof.
  destruct x as [[] [] [] [] [] [] [] []]; cbv; intros Hd; try discriminate Hd;
    repeat split.
Qed.

Lemma hex_prefix x :
  (code x =? code "x") || (code x =? code "X") = true ->
  (lower (code x) =? code "b") = false /\ (lower (code x) =? code "o") = false
  /\ (lower (code x) =? code "x") = true.
Proof.
  destruct x as [[] [] [] [] [] [] [] []]; cbv; intros Hd; try discriminate Hd;
    repeat split.
Qed.

(** [ParseUint] with base 0 on an unsigned literal. *)
Lemma ParseUint_magnitude s v w :
  (w = 32 \/ w = 64) ->
  spec.magnitude s = Some v ->
  0 <= v /\
  ParseUint s 0 w
  = if v <=? 2 ^ w - 1 then (v, None)
    else (2 ^ w - 1, Some (rangeError fnParseUint s)).
Proof.
  intros Hw Hmag.
  assert (Hmax : 0 <= 2 ^ w - 1 <= maxUint64)
    by (unfold maxUint64; destruct Hw as [-> | ->]; lia).
  assert (Hbits : (w <? 0) || (64 <? w) = false) by (destruct Hw as [-> | ->]; reflexivity).
  assert (Hw0 : (if w =? 0 then IntSize else w) = w) by (destruct Hw as [-> | ->]; reflexivity).
  destruct s as [|c rest]; [discriminate|].
  destruct (ascii_dec c "0") as [-> | Hc].
  - (* a leading zero *)
    destruct rest as [|x rest].
    + injection Hmag as <-. split; [lia|].
      unfold ParseUint. cbn [Z.eqb Z.leb Z.compare andb detect_base]. rewrite Hbits, Hw0.
      cbn [digits]. cbn [andb negb].
      destruct (Z.leb_spec 0 (2 ^ w - 1)); [reflexivity | lia].
    + cbn [spec.magnitude] in Hmag.
      destruct ((code x =? code "x") || (code x =? code "X")) eqn:Hx.
      * (* hexadecimal *)
        destruct (hex_prefix x Hx) as (Hb & Ho & Hx').
        destruct rest as [|y rest]; [discriminate|].
        split. { eapply (number_ge spec.hex_digit 16) in Hmag; try lia.
                 intros c' d' Hd'. apply hex_digit_below in Hd'. lia. }
        unfold ParseUint. cbn [Z.eqb Z.leb Z.compare andb].
        unfold detect_base. cbn [String.length]. rewrite Hb, Ho, Hx'.
        replace (3 <=? Z.of_nat (S (S (S (String.length rest))))) with true
          by (symmetry; apply Z.leb_le; lia).
        cbn [andb]. rewrite Hbits, Hw0.
        rewrite (digits_number spec.hex_digit 16 _ _ _ _ _ ltac:(lia) hex_digit_below Hmax
                   _ 0 v ltac:(lia) Hmag).
        destruct (v <=? 2 ^ w - 1); reflexivity.
      * (* octal *)
        assert (Hd : exists d, spec.oct_digit x = Some d).
        { cbn [spec.number] in Hmag. destruct (spec.oct_digit x) as [d|]; [eauto | discriminate]. }
        destruct Hd as [d Hd]. destruct (oct_digit_no_prefix x d Hd) as (Hb & Ho & Hx').
        split. { eapply (number_ge spec.oct_digit 8) in Hmag; try lia.
                 intros c' d' Hd'. apply oct_digit_below in Hd'. lia. }
        unfold ParseUint. cbn [Z.eqb Z.leb Z.compare andb].
        unfold detect_base. rewrite Hb, Ho, Hx'. rewrite !andb_false_r.
        rewrite Hbits, Hw0.
        rewrite (digits_number spec.oct_digit 8 _ _ _ _ _ ltac:(lia) oct_digit_below Hmax
                   _ 0 v ltac:(lia) Hmag).
        destruct (v <=? 2 ^ w - 1); reflexivity.
  - (* decimal *)
    rewrite (magnitude_decimal c rest Hc) in Hmag.
    split. { eapply (number_ge spec.dec_digit 10) in Hmag; try lia.
             intros c' d' Hd'. apply dec_digit_below in Hd'. lia. }
    unfold ParseUint. cbn [Z.eqb Z.leb Z.compare andb].
    rewrite (detect_base_decimal c rest Hc). rewrite Hbits, Hw0.
    rewrite (digits_number spec.dec_digit 10 _ _ _ _ _ ltac:(lia) dec_digit_below Hmax
               _ 0 v ltac:(lia) Hmag).
    destruct (v <=? 2 ^ w - 1); reflexivity.
Qed.

End ParseIntLiterals.

(** ** [strconv.ParseInt]: the sign and the width *)

Section ParseIntSigned.
Import strconv.

Lemma literal_value_unsigned c rest :
  c <> "-"%char -> c <> "+"%char ->
  spec.literal_value (String c rest) = spec.magnitude (String c rest).
Proof.
  intros Hm Hp. destruct c as [[] [] [] [] [] [] [] []]; try reflexivity; congruence.
Qed.

Lemma code_eqb_false c1 c2 : c1 <> c2 -> (code c1 =? code c2) = false.
Proof.
  intros Hne. apply Z.eqb_neq. intros Heq. apply Hne. now apply code_inj.
Qed.

Ltac split_tests :=
  repeat match goal with
    | |- context [?a <=? ?b] => destruct (Z.leb_spec a b); try lia
    | |- context [?a <? ?b] => destruct (Z.ltb_spec a b); try lia
    end; cbn [andb negb orb].

(** What [ParseInt] makes of the magnitude [ParseUint] found. *)
Lemma after_ParseUint_spec s0 (neg : bool) m w :
  (w = 32 \/ w = 64) -> 0 <= m ->
  let v := if neg then - m else m in
  let un := if m <=? 2 ^ w - 1 then m else 2 ^ w - 1 in
  after_ParseUint s0 neg un w
  = if spec.in_range w v then (v, None)
    else (spec.saturate w v, Some (rangeError fnParseInt s0)).
Proof.
  intros Hw Hm v un. subst v un. unfold after_ParseUint, spec.in_range, spec.saturate, IntSize.
  destruct Hw as [-> | ->].
  - change (32 =? 0) with false. cbv iota.
    change (2 ^ (32 - 1)) with 2147483648. change (2 ^ 32 - 1) with 4294967295.
    destruct (Z.leb_spec m 4294967295);
      destruct neg; cbn [negb andb]; split_tests;
      try (rewrite (wrap_int64_small m) by lia); rewrite ?wrap_int64_small by lia;
      try reflexivity.
  - change (64 =? 0) with false. cbv iota.
    change (2 ^ (64 - 1)) with 9223372036854775808.
    change (2 ^ 64 - 1) with 18446744073709551615.
    destruct (Z.leb_spec m 18446744073709551615);
      destruct neg; cbn [negb andb]; split_tests;
      try (destruct (Z.eq_dec m 9223372036854775808) as [-> | Hne]; [reflexivity|]);
      try (rewrite (wrap_int64_small m) by lia); rewrite ?wrap_int64_small by lia;
      try reflexivity.
Qed.

(** [ParseInt] with base 0 on a decimal, hexadecimal or octal literal
    gives the literal's value when it fits the width, and a range error
    with the nearest bound otherwise. *)
Lemma ParseInt_literal s v w :
  (w = 32 \/ w = 64) ->
  spec.literal_value s = Some v ->
  ParseInt s 0 w
  = if spec.in_range w v then (v, None)
    else (spec.saturate w v, Some (rangeError fnParseInt s)).
Proof.
  intros Hw Hlit. destruct s as [|c rest]; [discriminate|].
  assert (Hgen : forall (neg : bool) u m,
             spec.magnitude u = Some m ->
             (let '(un, err) := ParseUint u 0 w in
              match err with
              | Some (mkNumError _ _ e) =>
                  if negb (is_ErrRange e) then (0, Some (mkNumError fnParseInt (String c rest) e))
                  else after_ParseUint (String c rest) neg un w
              | None => after_ParseUint (String c rest) neg un w
              end)
             = if spec.in_range w (if neg then - m else m) then (if neg then - m else m, None)
               else (spec.saturate w (if neg then - m else m),
                     Some (rangeError fnParseInt (String c rest)))).
  { intros neg u m Hmag.
    destruct (ParseUint_magnitude u m w Hw Hmag) as [Hm0 ->].
    rewrite <- (after_ParseUint_spec (String c rest) neg m w Hw Hm0).
    destruct (m <=? 2 ^ w - 1); reflexivity. }
  destruct (ascii_dec c "-") as [-> | Hminus].
  - cbn [spec.literal_value] in Hlit.
    destruct (spec.magnitude rest) as [m|] eqn:Hmag; [|discriminate].
    injection Hlit as <-. exact (Hgen true rest m Hmag).
  - destruct (ascii_dec c "+") as [-> | Hplus].
    + cbn [spec.literal_value] in Hlit. exact (Hgen false rest v Hlit).
    + rewrite (literal_value_unsigned c rest Hminus Hplus) in Hlit.
      unfold ParseInt. rewrite (code_eqb_false c "+" Hplus), (code_eqb_false c "-" Hminus).
      exact (Hgen false (String c rest) v Hlit).
Qed.

End ParseIntSigned.

(** ** [$numberLong] and [$numberInt] *)

Section NumberFields.
Context `{!bsonutil.Libs}.
Import bsonutil.

Lemma single_numberLong payload :
  single_field {[ "$numberLong" := payload ]} = Returns (numberLong_field payload).
Proof. reflexivity. Qed.

Lemma single_numberInt payload :
  single_field {[ "$numberInt" := payload ]} = Returns (numberInt_field payload).
Proof. reflexivity. Qed.

Lemma saturate_in_range w v :
  (w = 32 \/ w = 64) -> - 2 ^ (w - 1) <= spec.saturate w v < 2 ^ (w - 1).
Proof.
  intros [-> | ->]; unfold spec.saturate; destruct (v <? 0); lia.
Qed.

(** C6: a [$numberLong] (respectively [$numberInt]) document needs a
    string payload, which is parsed by [strconv.ParseInt] with base 0,
    the base taken from the literal's prefix, at 64 (respectively 32)
    bits: a decimal, [0x] hexadecimal or leading-zero octal literal
    decodes to its value when the value fits the width; a payload that is
    no string, and a literal whose value does not fit, each end the decode
    with an error. *)
Theorem number_fields_parse_prefixed_literals (fuel : nat) (special payload : value) :
  (as_document special = Some {[ "$numberLong" := payload ]} ->
     ((forall s, payload <> VString s) ->
        ParseSpecialKeys (S fuel) special
        = Some (VInt64 0, Some (errors_New "expected $numberLong field to have string value")))
     /\ (forall s, payload = VString s ->
           ParseSpecialKeys (S fuel) special
           = Some (VInt64 (strconv.ParseInt s 0 64).1, NumError <$> (strconv.ParseInt s 0 64).2))
     /\ (forall s v, payload = VString s -> spec.literal_value s = Some v ->
           ParseSpecialKeys (S fuel) special
           = if spec.in_range 64 v then Some (VInt64 v, None)
             else Some (VInt64 (spec.saturate 64 v),
                        Some (NumError (strconv.rangeError "ParseInt" s)))))
  /\
  (as_document special = Some {[ "$numberInt" := payload ]} ->
     ((forall s, payload <> VString s) ->
        ParseSpecialKeys (S fuel) special
        = Some (VNil, Some (errors_New "expected $numberInt field to have string value")))
     /\ (forall s, payload = VString s ->
           ParseSpecialKeys (S fuel) special
           = Some (VInt32 (wrap_int32 (strconv.ParseInt s 0 32).1),
                   NumError <$> (strconv.ParseInt s 0 32).2))
     /\ (forall s v, payload = VString s -> spec.literal_value s = Some v ->
           ParseSpecialKeys (S fuel) special
           = if spec.in_range 32 v then Some (VInt32 v, None)
             else Some (VInt32 (spec.saturate 32 v),
                        Some (NumError (strconv.rangeError "ParseInt" s))))).
Proof.
  split; intros Hdoc.
  - rewrite (ParseSpecialKeys_single fuel special _ _ Hdoc (map_size_singleton _ _)
               (single_numberLong payload)).
    unfold numberLong_field, parseNumberLongField, lift_err.
    split; [|split].
    + intros Hns. destruct payload; try reflexivity. now destruct (Hns s).
    + intros s ->. cbn. now destruct (strconv.ParseInt s 0 64).
    + intros s v -> Hlit. rewrite (ParseInt_literal s v 64 (or_intror eq_refl) Hlit).
      destruct (spec.in_range 64 v); reflexivity.
  - rewrite (ParseSpecialKeys_single fuel special _ _ Hdoc (map_size_singleton _ _)
               (single_numberInt payload)).
    unfold numberInt_field.
    split; [|split].
    + intros Hns. destruct payload; try reflexivity. now destruct (Hns s).
    + intros s ->. now destruct (strconv.ParseInt s 0 32).
    + intros s v -> Hlit. rewrite (ParseInt_literal s v 32 (or_introl eq_refl) Hlit).
      destruct (spec.in_range 32 v) eqn:Hin; cbn.
      * unfold spec.in_range in Hin. apply andb_true_iff in Hin as [Hlo Hhi].
        apply Z.leb_le in Hlo. apply Z.ltb_lt in Hhi.
        now rewrite wrap_int32_small by (change (2 ^ 31) with (2 ^ (32 - 1)); lia).
      * pose proof (saturate_in_range 32 v (or_introl eq_refl)) as Hsat.
        now rewrite wrap_int32_small by (change (2 ^ 31) with (2 ^ (32 - 1)); lia).
Qed.

End NumberFields.

Lemma number_fields_parse_prefixed_literals_witness :
  @bsonutil.ParseSpecialKeys demo.libs 1 (VD [("$numberLong", VString "-0x7fffffffffffffff")])
  = Some (VInt64 (-9223372036854775807), None)
  /\ @bsonutil.ParseSpecialKeys demo.libs 1 (VD [("$numberInt", VString "020000000000")])
     = Some (VInt32 2147483647,
             Some (NumError (strconv.rangeError "ParseInt" "020000000000"))).
Proof.
  split.
  - refine (proj2 (proj2 (proj1 (@number_fields_parse_prefixed_literals demo.libs 0
              (VD [("$numberLong", VString "-0x7fffffffffffffff")])
              (VString "-0x7fffffffffffffff")) _))
              "-0x7fffffffffffffff" (-9223372036854775807) _ _); reflexivity.
  - refine (proj2 (proj2 (proj2 (@number_fields_parse_prefixed_literals demo.libs 0
              (VD [("$numberInt", VString "020000000000")])
              (VString "020000000000")) _))
              "020000000000" 2147483648 _ _); reflexivity.
Defined.

(** ** [$regex] with [$options] *)

Section Regex.
Context `{!bsonutil.Libs}.
Import bsonutil.

Lemma allowed_option_test o :
  (code o =? code "g") || (code o =? code "i") || (code o =? code "m") || (code o =? code "s")
  = spec.allowed_option o.
Proof. destruct o as [[] [] [] [] [] [] [] []]; vm_compute; reflexivity. Qed.

Lemma allowed_option_ascii o : spec.allowed_option o = true -> code o < 128.
Proof.
  destruct o as [[] [] [] [] [] [] [] []]; vm_compute; intros Ha;
    solve [reflexivity | discriminate Ha].
Qed.

Lemma utf8_width_ascii c rest : code c < 128 -> utf8.width (String c rest) = 1%nat.
Proof.
  intros Hc. unfold utf8.width. apply Z.ltb_lt in Hc. now rewrite Hc.
Qed.

Lemma allowed_option_elem o :
  spec.allowed_option o = true <-> o ∈ ["g"; "i"; "m"; "s"]%char.
Proof. unfold spec.allowed_option. apply bool_decide_eq_true. Qed.

(** The range over the options stops at the first byte that is not an
    allowed option: the allowed ones are one-byte characters, so the range
    visits every byte up to there. *)
Lemma validate_options_offending options :
  validate_options 0 options
  = match spec.offending_option options with
    | Some c => Some (fmt_Errorf "invalid regular expression option '%v'" [ArgByte c])
    | None => None
    end.
Proof.
  unfold spec.offending_option.
  induction options as [|o rest IH]; [reflexivity|].
  cbn [validate_options list_ascii_of_string List.find].
  rewrite allowed_option_test.
  destruct (spec.allowed_option o) eqn:Hallowed; cbn [negb]; [|reflexivity].
  rewrite (utf8_width_ascii o rest (allowed_option_ascii o Hallowed)). exact IH.
Qed.

Lemma offending_option_none options :
  spec.offending_option options = None
  <-> Forall (fun c => c ∈ ["g"; "i"; "m"; "s"]%char) (list_ascii_of_string options).
Proof.
  unfold spec.offending_option. split.
  - intros Hnone. apply Forall_forall. intros c Hc.
    apply allowed_option_elem. apply list_elem_of_In in Hc.
    pose proof (List.find_none _ _ Hnone c Hc) as Hneg.
    now apply negb_false_iff in Hneg.
  - intros Hall. destruct (List.find _ _) as [c|] eqn:Hfind; [|reflexivity].
    apply List.find_some in Hfind as [Hin Hbad].
    rewrite Forall_forall in Hall. apply list_elem_of_In in Hin.
    apply Hall, allowed_option_elem in Hin. rewrite Hin in Hbad. discriminate.
Qed.

Lemma offending_option_some options c :
  spec.offending_option options = Some c ->
  c ∈ list_ascii_of_string options /\ c ∉ ["g"; "i"; "m"; "s"]%char.
Proof.
  unfold spec.offending_option. intros Hfind.
  apply List.find_some in Hfind as [Hin Hbad]. split.
  - now apply list_elem_of_In.
  - intros Hel. apply allowed_option_elem in Hel. rewrite Hel in Hbad. discriminate.
Qed.

Lemma ParseSpecialKeys_regex fuel special r o :
  as_document special = Some (<["$regex" := r]> {[ "$options" := o ]}) ->
  ParseSpecialKeys (S fuel) special
  = Some (regex_fields (<["$regex" := r]> {[ "$options" := o ]}) r).
Proof.
  intros Hdoc.
  rewrite (ParseSpecialKeys_double fuel special _ Hdoc (size_two "$regex" "$options" r o ltac:(discriminate))).
  reflexivity.
Qed.

(** C7: in a document of the two fields [$regex] and [$options] both
    must be strings, and the decode succeeds exactly when every character
    of the options is one of g, i, m, s (so for the empty options and for
    "gim"); any other character, such as x, ends it with the invalid-option
    error that carries the first such character. *)
Theorem regex_options_must_be_gims (fuel : nat) (special r o : value) :
  as_document special = Some (<["$regex" := r]> {[ "$options" := o ]}) ->
  ((forall s, r <> VString s) ->
     ParseSpecialKeys (S fuel) special
     = Some (VNil, Some (errors_New "expected $regex field to have string value")))
  /\ (forall pattern, r = VString pattern -> (forall s, o <> VString s) ->
        ParseSpecialKeys (S fuel) special
        = Some (VNil, Some (errors_New "expected $options field to have string value")))
  /\ (forall pattern options, r = VString pattern -> o = VString options ->
        (Forall (fun c => c ∈ ["g"; "i"; "m"; "s"]%char) (list_ascii_of_string options) ->
           ParseSpecialKeys (S fuel) special = Some (VRegex pattern options, None))
        /\ (~ Forall (fun c => c ∈ ["g"; "i"; "m"; "s"]%char) (list_ascii_of_string options) ->
              exists c, spec.offending_option options = Some c
                /\ c ∈ list_ascii_of_string options
                /\ (c ∉ ["g"; "i"; "m"; "s"]%char)
                /\ ParseSpecialKeys (S fuel) special
                   = Some (VNil, Some (fmt_Errorf "invalid regular expression option '%v'"
                                         [ArgByte c]))))
  /\ (forall pattern, r = VString pattern -> o = VString "gim" ->
        ParseSpecialKeys (S fuel) special = Some (VRegex pattern "gim", None))
  /\ (forall pattern, r = VString pattern -> o = VString EmptyString ->
        ParseSpecialKeys (S fuel) special = Some (VRegex pattern EmptyString, None))
  /\ (forall pattern, r = VString pattern -> o = VString "x" ->
        ParseSpecialKeys (S fuel) special
        = Some (VNil, Some (fmt_Errorf "invalid regular expression option '%v'"
                              [ArgByte "x"]))).
Proof.
  intros Hdoc. rewrite (ParseSpecialKeys_regex fuel special r o Hdoc).
  split; [|split; [|split; [|split; [|split]]]].
  4-6: intros pattern -> ->; unfold regex_fields;
       rewrite lookup_insert_ne by discriminate; rewrite lookup_singleton_eq;
       rewrite validate_options_offending; reflexivity.
  - intros Hns. destruct r; try reflexivity. now destruct (Hns s).
  - intros pattern -> Hns. unfold regex_fields.
    rewrite lookup_insert_ne by discriminate. rewrite lookup_singleton_eq.
    destruct o; try reflexivity. now destruct (Hns s).
  - intros pattern options -> ->. unfold regex_fields.
    rewrite lookup_insert_ne by discriminate. rewrite lookup_singleton_eq.
    rewrite validate_options_offending. split.
    + intros Hall. apply offending_option_none in Hall. now rewrite Hall.
    + intros Hnot. destruct (spec.offending_option options) as [c|] eqn:Hoff.
      * exists c. destruct (offending_option_some options c Hoff) as [Hin Hbad].
        repeat split; assumption.
      * destruct Hnot. now apply offending_option_none.
Qed.

End Regex.

Lemma regex_options_must_be_gims_witness :
  @bsonutil.ParseSpecialKeys demo.libs 1 (VD [("$options", VString "gim"); ("$regex", VString "^a")])
  = Some (VRegex "^a" "gim", None).
Proof.
  refine (proj1 (proj1 (proj2 (proj2 (@regex_options_must_be_gims demo.libs 0
            (VD [("$options", VString "gim"); ("$regex", VString "^a")])
            (VString "^a") (VString "gim") _))) "^a" "gim" eq_refl eq_refl) _).
  - reflexivity.
  - repeat constructor.
Defined.

(** ** [$binary] with [$type] *)

Section Binary.
Context `{!bsonutil.Libs}.
Import bsonutil.

Lemma reverseHexTable_hex_digit c :
  hex.reverseHexTable c = default 255 (spec.hex_digit c).
Proof. destruct c as [[] [] [] [] [] [] [] []]; reflexivity. Qed.

Lemma hex_digit_range c a : spec.hex_digit c = Some a -> 0 <= a < 16.
Proof. intros Ha. apply hex_digit_below in Ha. lia. Qed.

Lemma lor_nibbles a b :
  0 <= a < 16 -> 0 <= b < 16 -> Z.lor (Z.shiftl a 4) b = 16 * a + b.
Proof.
  intros Ha Hb.
  assert (Hcases : forall x, 0 <= x < 16 ->
            x = 0 \/ x = 1 \/ x = 2 \/ x = 3 \/ x = 4 \/ x = 5 \/ x = 6 \/ x = 7 \/ x = 8
            \/ x = 9 \/ x = 10 \/ x = 11 \/ x = 12 \/ x = 13 \/ x = 14 \/ x = 15)
    by (intros x Hx; lia).
  destruct (Hcases a Ha) as [->|[->|[->|[->|[->|[->|[->|[->|[->|[->|[->|[->|[->|[->|[->| ->]]]]]]]]]]]]]]];
    destruct (Hcases b Hb) as [->|[->|[->|[->|[->|[->|[->|[->|[->|[->|[->|[->|[->|[->|[->| ->]]]]]]]]]]]]]]];
    reflexivity.
Qed.

(** The bytes decoded so far are never taken back. *)
Lemma hex_Decode_length n : forall src dst out err,
  (String.length src <= n)%nat ->
  hex.Decode src dst = (out, err) -> (length dst <= length out)%nat.
Proof.
  induction n as [|n IH]; intros src dst out err Hlen Hdec.
  - destruct src; [|simpl in Hlen; lia]. injection Hdec as <- _. lia.
  - destruct src as [|p [|q rest]]; cbn [hex.Decode] in Hdec.
    + injection Hdec as <- _. lia.
    + destruct (15 <? hex.reverseHexTable p); injection Hdec as <- _; lia.
    + destruct (15 <? hex.reverseHexTable p); [injection Hdec as <- _; lia|].
      destruct (15 <? hex.reverseHexTable q); [injection Hdec as <- _; lia|].
      apply IH in Hdec; [|simpl in Hlen |- *; lia].
      rewrite length_app in Hdec. simpl in Hdec. lia.
Qed.

(** The byte [hex.Decode] writes for a number below 256 is that number. *)
Lemma byte_value_byte_of_Z z : 0 <= z < 256 -> spec.byte_value (hex.byte_of_Z z) = z.
Proof.
  intros Hz. unfold spec.byte_value, hex.byte_of_Z.
  destruct (Byte.of_N (Z.to_N z)) as [k|] eqn:Hk.
  - apply Byte.to_of_N in Hk. cbn [default]. unfold id. rewrite Hk. lia.
  - apply Byte.of_N_None_iff in Hk. lia.
Qed.

Lemma byte_value_inj k k' : spec.byte_value k = spec.byte_value k' -> k = k'.
Proof.
  unfold spec.byte_value. intros Heq. apply N2Z.inj in Heq.
  assert (Hk : Some k = Some k')
    by (rewrite <- (Byte.of_to_N k), <- (Byte.of_to_N k'); now rewrite Heq).
  now injection Hk.
Qed.

(** [hex.DecodeString] gives exactly one byte, and no error, for exactly
    the strings of two hexadecimal characters, and the byte is the number
    the two characters write. *)
Lemma hex_DecodeString_subtype typ :
  match spec.subtype_value typ with
  | Some v => exists k, hex.DecodeString typ = ([k], None) /\ spec.byte_value k = v
  | None =>
      (hex.DecodeString typ).2 <> None \/ length (hex.DecodeString typ).1 <> 1%nat
  end.
Proof.
  unfold hex.DecodeString.
  destruct typ as [|p [|q [|x rest]]]; cbn [spec.subtype_value].
  - right. discriminate.
  - left. cbn [hex.Decode]. destruct (15 <? hex.reverseHexTable p); discriminate.
  - cbn [hex.Decode]. rewrite !reverseHexTable_hex_digit.
    destruct (spec.hex_digit p) as [a|] eqn:Hp; [|left; discriminate].
    destruct (spec.hex_digit q) as [b|] eqn:Hq.
    + pose proof (hex_digit_range p a Hp). pose proof (hex_digit_range q b Hq).
      cbn [default]. unfold id.
      destruct (Z.ltb_spec 15 a); [lia|]. destruct (Z.ltb_spec 15 b); [lia|].
      rewrite lor_nibbles by lia. eexists. split; [reflexivity|].
      apply byte_value_byte_of_Z. lia.
    + left. cbn [default]. unfold id. destruct (15 <? a); discriminate.
  - cbn [hex.Decode].
    destruct (15 <? hex.reverseHexTable p); [left; discriminate|].
    destruct (15 <? hex.reverseHexTable q); [left; discriminate|].
    destruct rest as [|y rest]; cbn [hex.Decode].
    + left. destruct (15 <? hex.reverseHexTable x); discriminate.
    + destruct (15 <? hex.reverseHexTable x); [left; discriminate|].
      destruct (15 <? hex.reverseHexTable y); [left; discriminate|].
      right. destruct (hex.Decode rest _) as [out err] eqn:Hdec.
      apply (hex_Decode_length (String.length rest)) in Hdec; [|lia].
      rewrite !length_app in Hdec. simpl in Hdec |- *. lia.
Qed.

Lemma ParseSpecialKeys_binary fuel special b t :
  as_document special = Some (<["$binary" := b]> {[ "$type" := t ]}) ->
  ParseSpecialKeys (S fuel) special
  = Some (binary_fields (<["$binary" := b]> {[ "$type" := t ]}) b).
Proof.
  intros Hdoc.
  rewrite (ParseSpecialKeys_double fuel special _ Hdoc
             (size_two "$binary" "$type" b t ltac:(discriminate))).
  reflexivity.
Qed.

(** C8: in a document of the two fields [$binary] and [$type], the
    [$binary] string is base64-decoded to the payload bytes and a string
    that is no base64 ends the decode with the decoder's error; the
    [$type] string must be exactly two hexadecimal characters, which give
    the subtype byte: the byte whose number the two characters write, the
    first the high digit (00 gives 0x00, 80 gives 0x80 and ff, in either
    case of the letters, 0xff); every other [$type] string ends the
    decode with an error. *)
Theorem binary_type_two_hex_characters (fuel : nat) (special b t : value) :
  as_document special = Some (<["$binary" := b]> {[ "$type" := t ]}) ->
  ((forall s, b <> VString s) ->
     ParseSpecialKeys (S fuel) special
     = Some (VNil, Some (errors_New "expected $binary field to have string value")))
  /\ (forall data typ, b = VString data -> t = VString typ ->
        match base64_DecodeString data with
        | (_, Some err) => ParseSpecialKeys (S fuel) special = Some (VNil, Some err)
        | (bytes, None) =>
            match spec.subtype_value typ with
            | Some v =>
                exists k,
                  ParseSpecialKeys (S fuel) special = Some (VBinary k bytes, None)
                  /\ spec.byte_value k = v
                  /\ forall k', spec.byte_value k' = v -> k' = k
            | None => exists err, ParseSpecialKeys (S fuel) special = Some (VNil, Some err)
            end
        end)
  /\ (forall data bytes, b = VString data -> base64_DecodeString data = (bytes, None) ->
        (forall s, t <> VString s) ->
        ParseSpecialKeys (S fuel) special
        = Some (VNil, Some (errors_New "expected $type field to have string value")))
  /\ (forall data bytes, b = VString data -> base64_DecodeString data = (bytes, None) ->
        (t = VString "00" ->
           ParseSpecialKeys (S fuel) special = Some (VBinary x00 bytes, None))
        /\ (t = VString "01" ->
              ParseSpecialKeys (S fuel) special = Some (VBinary x01 bytes, None))
        /\ (t = VString "10" ->
              ParseSpecialKeys (S fuel) special = Some (VBinary x10 bytes, None))
        /\ (t = VString "80" ->
              ParseSpecialKeys (S fuel) special = Some (VBinary x80 bytes, None))
        /\ (t = VString "ff" \/ t = VString "FF" \/ t = VString "fF" ->
              ParseSpecialKeys (S fuel) special = Some (VBinary xff bytes, None)))
  /\ (forall typ, String.length typ <> 2%nat -> spec.subtype_value typ = None)
  /\ (forall p q a c,
        spec.hex_digit p = Some a -> spec.hex_digit q = Some c ->
        spec.subtype_value (String p (String q EmptyString)) = Some (16 * a + c)
        /\ 0 <= 16 * a + c < 256)
  /\ spec.byte_value x00 = 0 /\ spec.byte_value x80 = 128 /\ spec.byte_value xff = 255.
Proof.
  intros Hdoc. rewrite (ParseSpecialKeys_binary fuel special b t Hdoc).
  assert (Hstring : forall data bytes typ,
            base64_DecodeString data = (bytes, None) ->
            binary_fields (<["$binary" := VString data]> {[ "$type" := VString typ ]})
              (VString data)
            = match hex.DecodeString typ with
              | (_, Some err) => (VNil, Some (HexError err))
              | (kind, None) =>
                  match kind with
                  | [k] => (VBinary k bytes, None)
                  | _ =>
                      (VNil, Some (errors_New
                         "expected single byte (as hexadecimal string) for $type field"))
                  end
              end).
  { intros data bytes typ Hdata. unfold binary_fields. rewrite Hdata.
    rewrite lookup_insert_ne by discriminate. now rewrite lookup_singleton_eq. }
  split; [|split; [|split; [|split; [|split; [|split]]]]].
  - intros Hns. destruct b; try reflexivity. now destruct (Hns s).
  - intros data typ -> ->.
    destruct (base64_DecodeString data) as [bytes [err|]] eqn:Hdata.
    { unfold binary_fields. now rewrite Hdata. }
    rewrite (Hstring data bytes typ Hdata).
    pose proof (hex_DecodeString_subtype typ) as Hhex.
    destruct (spec.subtype_value typ) as [v|].
    + destruct Hhex as (k & -> & Hk). exists k. split; [reflexivity|]. split; [exact Hk|].
      intros k' Hk'. apply byte_value_inj. congruence.
    + destruct (hex.DecodeString typ) as [kind [err|]]; [eauto|].
      destruct Hhex as [Herr | Hlen]; [now destruct Herr|].
      destruct kind as [|k [|k' kind]]; try (now destruct Hlen); eauto.
  - intros data bytes -> Hdata Hns. unfold binary_fields. rewrite Hdata.
    rewrite lookup_insert_ne by discriminate. rewrite lookup_singleton_eq.
    destruct t; try reflexivity. now destruct (Hns s).
  - intros data bytes -> Hdata.
    repeat split; intros Ht;
      repeat (destruct Ht as [Ht|Ht]); subst t; now rewrite (Hstring data bytes _ Hdata).
  - intros typ Hlen. destruct typ as [|p [|q [|x rest]]]; try reflexivity.
    now destruct Hlen.
  - intros p q a c Hp Hq. cbn [spec.subtype_value]. rewrite Hp, Hq. split; [reflexivity|].
    pose proof (hex_digit_range p a Hp). pose proof (hex_digit_range q c Hq). lia.
  - repeat split.
Qed.

End Binary.

Lemma binary_type_two_hex_characters_witness :
  @bsonutil.ParseSpecialKeys demo.libs 1 (VD [("$binary", VString "AA=="); ("$type", VString "ff")])
  = Some (VBinary xff [x00], None).
Proof.
  exact (proj2 (proj2 (proj2 (proj2 (proj1 (proj2 (proj2 (proj2
           (@binary_type_two_hex_characters demo.libs 0
              (VD [("$binary", VString "AA=="); ("$type", VString "ff")])
              (VString "AA==") (VString "ff") eq_refl))))
           "AA==" [x00] eq_refl eq_refl)))) (or_introl eq_refl)).
Defined.

(** ** [bson.D.Map]: the map of an ordered document *)

Section MapOfDocument.

Lemma Map_snoc (d : bson_D) k v : Map (d ++ [(k, v)]) = <[k := v]> (Map d).
Proof. unfold Map. now rewrite foldl_snoc. Qed.

Lemma Map_dom (d : bson_D) : dom (Map d) = list_to_set d.*1.
Proof.
  induction d as [|[k v] d IH] using rev_ind; [apply dom_empty_L|].
  rewrite Map_snoc, dom_insert_L, IH, fmap_app, list_to_set_app_L. cbn.
  rewrite union_empty_r_L. apply union_comm_L.
Qed.

Lemma Map_lookup_None (d : bson_D) k : Map d !! k = None <-> k ∉ d.*1.
Proof.
  rewrite <- not_elem_of_dom, Map_dom. now rewrite elem_of_list_to_set.
Qed.

Lemma Map_lookup_elem (d : bson_D) k v : Map d !! k = Some v -> (k, v) ∈ d.
Proof.
  induction d as [|[k' v'] d IH] using rev_ind.
  { unfold Map. cbn. intros Hlook. now rewrite lookup_empty in Hlook. }
  rewrite Map_snoc. intros [[-> ->] | [_ Hin]]%lookup_insert_Some.
  - apply elem_of_app. right. apply list_elem_of_singleton. reflexivity.
  - apply elem_of_app. left. now apply IH.
Qed.

(** The value of a key is that of its last element. *)
Lemma Map_lookup_last (d1 d2 : bson_D) k v :
  k ∉ d2.*1 -> Map (d1 ++ (k, v) :: d2) !! k = Some v.
Proof.
  induction d2 as [|[k' v'] d2 IH] using rev_ind; intros Hk.
  - rewrite Map_snoc. apply lookup_insert_eq.
  - rewrite fmap_app in Hk. apply not_elem_of_app in Hk as [Hk Hk'].
    rewrite app_comm_cons, app_assoc, Map_snoc.
    rewrite lookup_insert_ne; [now apply IH|].
    intros ->. apply Hk'. simpl. apply list_elem_of_singleton. reflexivity.
Qed.

(** The map has as many keys as the document has distinct keys. *)
Lemma size_Map (d : bson_D) : size (Map d) = length (remove_dups d.*1).
Proof.
  rewrite <- size_dom, Map_dom.
  rewrite <- (size_list_to_set (C := gset string) (remove_dups d.*1))
    by apply NoDup_remove_dups.
  f_equal. apply set_eq. intros k.
  now rewrite !elem_of_list_to_set, elem_of_remove_dups.
Qed.

Lemma Map_dom_Permutation (d d' : bson_D) : d ≡ₚ d' -> dom (Map d) = dom (Map d').
Proof.
  intros Hperm. rewrite !Map_dom. apply set_eq. intros k.
  rewrite !elem_of_list_to_set. now rewrite Hperm.
Qed.

End MapOfDocument.

(** ** Depth of the values inside a document *)

Section Depth.

Lemma depth_elem (d : bson_D) e : e ∈ d -> (depth e.2 < depth (VD d))%nat.
Proof.
  induction d as [|e' d IH]; intros Hin; [now apply elem_of_nil in Hin|].
  apply elem_of_cons in Hin as [-> | Hin]; cbn [depth foldr] in *.
  - lia.
  - specialize (IH Hin). lia.
Qed.

Lemma depth_VM_lookup (m : bson_M) k v : m !! k = Some v -> (depth v < depth (VM m))%nat.
Proof.
  cbn [depth].
  assert (Hfold : forall k v, m !! k = Some v ->
            (depth v <= map_fold (fun _ x acc => Nat.max (depth x) acc) 0%nat m)%nat).
  { apply (map_fold_weak_ind
             (fun r (m : bson_M) => forall k v, m !! k = Some v -> (depth v <= r)%nat)).
    - intros k' v'. now rewrite lookup_empty.
    - intros i x m' r Hfresh IH k' v' [[-> ->] | [_ Hin]]%lookup_insert_Some.
      + lia.
      + specialize (IH k' v' Hin). lia. }
  intros Hlook. specialize (Hfold k v Hlook). lia.
Qed.

Lemma depth_Map_lookup (d : bson_D) k v : Map d !! k = Some v -> (depth v < depth (VD d))%nat.
Proof.
  intros Hlook. apply Map_lookup_elem in Hlook. exact (depth_elem d (k, v) Hlook).
Qed.

End Depth.

(** ** The decoder returns, given fuel for the depth of its input *)

Section Totality.
Context `{!bsonutil.Libs}.
Import bsonutil.

Lemma ParseSpecialKeys_unfold fuel special :
  ParseSpecialKeys (S fuel) special
  = match as_document special with
    | None => Some (not_valid_input special)
    | Some doc =>
        match
          match size doc with
          | 1%nat =>
              match single_field doc with
              | Returns r => Returns (Some r)
              | NoMatch => NoMatch
              end
          | 2%nat => double_field (ParseSpecialKeys fuel) doc
          | _ => NoMatch
          end
        with
        | Returns r => r
        | NoMatch => recurse_deeper (ParseSpecialKeys fuel) special
        end
    end.
Proof. reflexivity. Qed.

Lemma depth_as_document special doc k v :
  as_document special = Some doc -> doc !! k = Some v -> (depth v < depth special)%nat.
Proof.
  destruct special; try discriminate; intros [= <-] Hlook.
  - now apply depth_Map_lookup in Hlook.
  - now apply depth_VM_lookup in Hlook.
Qed.

Lemma GetExtendedBsonD_loop_total (decode : value -> option result) (doc : bson_D) :
  (forall e, e ∈ doc -> is_Some (decode (Value e))) ->
  forall bsonDoc, is_Some (GetExtendedBsonD_loop decode doc bsonDoc).
Proof.
  induction doc as [|docElem doc IH]; intros Hdec bsonDoc; cbn [GetExtendedBsonD_loop].
  - eauto.
  - assert (Hrest : forall e, e ∈ doc -> is_Some (decode (Value e)))
      by (intros e He; apply Hdec; now apply elem_of_cons; right).
    destruct (Hdec docElem ltac:(apply elem_of_cons; now left)) as [[x [err|]] Hx];
      destruct (Value docElem); try rewrite Hx; eauto;
      destruct (ConvertLegacyExtJSONValueToBSON _) as [y [err'|]]; eauto.
Qed.

Lemma ParseSpecialKeys_total fuel : forall special,
  (depth special <= fuel)%nat -> is_Some (ParseSpecialKeys (S fuel) special).
Proof.
  induction fuel as [|fuel IH]; intros special Hdepth.
  - destruct special; try (simpl in Hdepth; lia); cbn; eauto.
  - rewrite ParseSpecialKeys_unfold.
    destruct (as_document special) as [doc|] eqn:Hdoc; [|eauto].
    assert (Hsub : forall k v, doc !! k = Some v -> is_Some (ParseSpecialKeys (S fuel) v)).
    { intros k v Hlook. apply IH.
      pose proof (depth_as_document special doc k v Hdoc Hlook). lia. }
    assert (Hdeeper : is_Some (recurse_deeper (ParseSpecialKeys (S fuel)) special)).
    { destruct special; cbn [recurse_deeper]; eauto.
      destruct (GetExtendedBsonD_loop_total (ParseSpecialKeys (S fuel)) d) with (bsonDoc := @nil bson_E)
        as [[d' err] Hloop].
      - intros e He. apply IH. pose proof (depth_elem d e He). unfold Value. lia.
      - rewrite Hloop. eauto. }
    destruct (size doc) as [|[|[|n]]]; try exact Hdeeper.
    + destruct (single_field doc); eauto.
    + unfold double_field.
      destruct (doc !! "$code") as [jsonValue|]; [|destruct (doc !! "$regex");
        [eauto | destruct (doc !! "$binary"); [eauto | exact Hdeeper]]].
      unfold code_scope_fields.
      destruct jsonValue; eauto.
      destruct (doc !! "$scope") as [scope|] eqn:Hscope; [|eauto].
      destruct (Hsub "$scope" scope Hscope) as [[x [err|]] Hx];
        destruct scope; try rewrite Hx; eauto.
Qed.

End Totality.

(** ** The special forms as ordered tables *)

Section Forms.
Context `{!bsonutil.Libs}.
Import bsonutil.

(** The first entry that matches comes after entries that do not. *)
Lemma first_match_priority {handler : Type} (table : list (string * handler)) (doc : bson_M) k h v :
  spec.first_match table doc = Some (k, h, v) ->
  exists before after,
    table = (before ++ (k, h) :: after)%list
    /\ doc !! k = Some v
    /\ Forall (fun e => doc !! e.1 = None) before.
Proof.
  induction table as [|[k' h'] table IH]; [discriminate|].
  cbn [spec.first_match]. destruct (doc !! k') as [v'|] eqn:Hk'.
  - intros [= -> -> ->]. exists [], table. repeat split; [assumption | constructor].
  - intros Hrest. destruct (IH Hrest) as (before & after & -> & Hk & Hbefore).
    exists ((k', h') :: before), after. repeat split; [assumption|].
    constructor; assumption.
Qed.

Lemma first_match_none {handler : Type} (table : list (string * handler)) (doc : bson_M) :
  spec.first_match table doc = None <-> Forall (fun e => doc !! e.1 = None) table.
Proof.
  induction table as [|[k' h'] table IH]; cbn [spec.first_match].
  - split; [constructor | reflexivity].
  - destruct (doc !! k') as [v'|] eqn:Hk'.
    + split; [discriminate|]. intros Hall. inversion Hall as [|? ? Hhd _]; subst.
      cbn in Hhd. congruence.
    + rewrite IH. split; [now constructor|]. intros Hall. now inversion Hall.
Qed.

(** The single-field blocks of [ParseSpecialKeys] are the table, tried in
    its order. *)
Lemma single_field_first_match (doc : bson_M) :
  single_field doc
  = match spec.first_match spec.single_field_table doc with
    | Some (_, h, v) => Returns (h v)
    | None => NoMatch
    end.
Proof.
  unfold single_field. cbn [spec.first_match spec.single_field_table].
  repeat match goal with
         | |- context [doc !! ?k] => destruct (doc !! k); [reflexivity|]
         end.
  reflexivity.
Qed.

Lemma double_field_first_match (decode : value -> option result) (doc : bson_M) :
  double_field decode doc
  = match spec.first_match (spec.double_field_table decode) doc with
    | Some (_, h, v) => Returns (h doc v)
    | None => NoMatch
    end.
Proof.
  unfold double_field. cbn [spec.first_match spec.double_field_table].
  repeat match goal with
         | |- context [doc !! ?k] => destruct (doc !! k); [reflexivity|]
         end.
  reflexivity.
Qed.

Lemma recurse_deeper_VD fuel (d : bson_D) :
  recurse_deeper (ParseSpecialKeys fuel) (VD d)
  = (fun r => (VD r.1, r.2)) <$> GetExtendedBsonD fuel d.
Proof.
  unfold recurse_deeper, GetExtendedBsonD.
  destruct (GetExtendedBsonD_loop _ d []) as [[d' err]|]; reflexivity.
Qed.

(** C3: a document with exactly one key is checked against the
    single-field forms in the order [$date], [$code], [$oid],
    [$numberLong], [$numberInt], [$timestamp], [$numberDecimal],
    [$undefined], [$maxKey], [$minKey], and the first form whose key the
    document has decodes it; a document whose one key is none of these is
    not special: it is recursed into as an ordinary document, element by
    element for an ordered document, and the decoder returns a result for
    it. *)
Theorem single_key_forms_in_priority_order (fuel : nat) (special : value) (doc : bson_M) :
  as_document special = Some doc ->
  size doc = 1%nat ->
  spec.single_field_table.*1
  = ["$date"; "$code"; "$oid"; "$numberLong"; "$numberInt"; "$timestamp";
     "$numberDecimal"; "$undefined"; "$maxKey"; "$minKey"]
  /\ (forall doc' : bson_M,
        single_field doc'
        = match spec.first_match spec.single_field_table doc' with
          | Some (_, h, v) => Returns (h v)
          | None => NoMatch
          end)
  /\ (forall k h v,
        spec.first_match spec.single_field_table doc = Some (k, h, v) ->
        ParseSpecialKeys (S fuel) special = Some (h v)
        /\ exists before after,
             spec.single_field_table = (before ++ (k, h) :: after)%list
             /\ doc !! k = Some v
             /\ Forall (fun e => doc !! e.1 = None) before)
  /\ (Forall (fun k => doc !! k = None) spec.single_field_table.*1 ->
        ParseSpecialKeys (S fuel) special
        = recurse_deeper (ParseSpecialKeys fuel) special
        /\ (forall d, special = VD d ->
              ParseSpecialKeys (S fuel) special
              = (fun r => (VD r.1, r.2)) <$> GetExtendedBsonD fuel d)
        /\ (forall m, special = VM m ->
              ParseSpecialKeys (S fuel) special
              = Some (ConvertLegacyExtJSONValueToBSON special))
        /\ ((depth special <= fuel)%nat ->
              exists r, ParseSpecialKeys (S fuel) special = Some r)).
Proof.
  intros Hdoc Hsize. split; [reflexivity|]. split; [exact single_field_first_match|].
  split.
  - intros k h v Hfirst. split.
    + apply (ParseSpecialKeys_single fuel special doc _ Hdoc Hsize).
      now rewrite single_field_first_match, Hfirst.
    + now apply first_match_priority.
  - intros Hnone.
    assert (Hfirst : spec.first_match spec.single_field_table doc = None).
    { apply first_match_none. rewrite Forall_fmap in Hnone. exact Hnone. }
    assert (Hdeeper : ParseSpecialKeys (S fuel) special
                      = recurse_deeper (ParseSpecialKeys fuel) special).
    { apply (ParseSpecialKeys_single_none fuel special doc Hdoc Hsize).
      now rewrite single_field_first_match, Hfirst. }
    split; [exact Hdeeper|]. split; [|split].
    + intros d ->. rewrite Hdeeper. apply recurse_deeper_VD.
    + intros m ->. rewrite Hdeeper. reflexivity.
    + intros Hdepth. destruct (ParseSpecialKeys_total fuel special Hdepth) as [r Hr]. eauto.
Qed.

End Forms.

Lemma single_key_forms_in_priority_order_witness :
  @bsonutil.ParseSpecialKeys demo.libs 2 (VD [("$ref", VD [("$numberLong", VString "7")])])
  = Some (VD [("$ref", VInt64 7)], None)
  /\ @bsonutil.ParseSpecialKeys demo.libs 2 (VD [("$code", VString "f()")])
     = Some (VJavaScript "f()", None).
Proof.
  split.
  - rewrite (proj1 (proj2 (proj2 (proj2 (proj2 (@single_key_forms_in_priority_order demo.libs 1
               (VD [("$ref", VD [("$numberLong", VString "7")])])
               (Map [("$ref", VD [("$numberLong", VString "7")])]) eq_refl eq_refl)))
               ltac:(repeat constructor))) _ eq_refl).
    reflexivity.
  - exact (proj1 (proj1 (proj2 (proj2 (@single_key_forms_in_priority_order demo.libs 1
             (VD [("$code", VString "f()")]) (Map [("$code", VString "f()")])
             eq_refl eq_refl))) "$code" bsonutil.code_field (VString "f()") eq_refl)).
Defined.

(** ** Classification of an ordered document by the map of its keys *)

Section DocumentKeys.
Context `{!bsonutil.Libs}.
Import bsonutil.

(** The key of the first match depends on which keys the document has
    only. *)
Lemma first_match_key_dom {handler form : Type} (f : string -> form)
    (table : list (string * handler)) (m1 m2 : bson_M) :
  dom m1 = dom m2 ->
  (fun x => f x.1.1) <$> spec.first_match table m1
  = (fun x => f x.1.1) <$> spec.first_match table m2.
Proof.
  intros Hdom. induction table as [|[k h] table IH]; [reflexivity|].
  cbn [spec.first_match].
  assert (Hk : is_Some (m1 !! k) <-> is_Some (m2 !! k))
    by (rewrite <- !elem_of_dom; now rewrite Hdom).
  destruct (m1 !! k) as [v1|], (m2 !! k) as [v2|]; [reflexivity| | |exact IH].
  - destruct Hk as [Hk _]. destruct (Hk ltac:(eauto)) as [? [=]].
  - destruct Hk as [_ Hk]. destruct (Hk ltac:(eauto)) as [? [=]].
Qed.

Lemma recognize_dom (m1 m2 : bson_M) :
  dom m1 = dom m2 -> spec.recognize m1 = spec.recognize m2.
Proof.
  intros Hdom. unfold spec.recognize.
  rewrite <- (size_dom m1), <- (size_dom m2), Hdom.
  destruct (size (dom m2)) as [|[|[|n]]]; try reflexivity.
  - apply (first_match_key_dom spec.SingleField _ _ _ Hdom).
  - apply (first_match_key_dom spec.DoubleField _ _ _ Hdom).
Qed.

(** A handler selected by its key is the one the ordered table gives. *)
Lemma first_match_filter {handler : Type} (table : list (string * handler))
    (doc : bson_M) k h v :
  spec.first_match table doc = Some (k, h, v) ->
  spec.first_match (filter (fun e => e.1 = k) table) doc = Some (k, h, v).
Proof.
  induction table as [|[k' h'] table IH]; [discriminate|].
  intros Hfirst. pose proof (first_match_priority _ _ _ _ _ Hfirst) as (_ & _ & _ & Hk & _).
  cbn [spec.first_match] in Hfirst. rewrite filter_cons. cbn [fst].
  destruct (doc !! k') as [v'|] eqn:Hk'.
  - injection Hfirst as -> -> ->. rewrite decide_True by reflexivity.
    cbn [spec.first_match]. now rewrite Hk'.
  - rewrite decide_False by congruence. now apply IH.
Qed.

(** The two-field table gives the same key whatever decodes a scope. *)
Lemma double_field_table_key decode (doc : bson_M) :
  (fun x => spec.DoubleField x.1.1) <$> spec.first_match (spec.double_field_table decode) doc
  = (fun x => spec.DoubleField x.1.1)
      <$> spec.first_match (spec.double_field_table (fun _ => None)) doc.
Proof.
  cbn [spec.first_match spec.double_field_table].
  repeat match goal with
         | |- context [doc !! ?k] => destruct (doc !! k); [reflexivity|]
         end.
  reflexivity.
Qed.

(** One call of the decoder: the form the map of the document is
    recognized as decides what decodes it. *)
Lemma ParseSpecialKeys_recognize fuel special (doc : bson_M) :
  as_document special = Some doc ->
  ParseSpecialKeys (S fuel) special
  = match spec.recognize doc with
    | Some f => spec.decode_form (ParseSpecialKeys fuel) doc f
    | None => recurse_deeper (ParseSpecialKeys fuel) special
    end.
Proof.
  intros Hdoc. rewrite ParseSpecialKeys_unfold, Hdoc. unfold spec.recognize.
  destruct (size doc) as [|[|[|n]]]; try reflexivity.
  - rewrite single_field_first_match.
    destruct (spec.first_match spec.single_field_table doc) as [[[k h] v]|] eqn:Hfirst;
      [|reflexivity].
    cbn [fmap option_fmap option_map spec.decode_form fst].
    now rewrite (first_match_filter _ _ _ _ _ Hfirst).
  - rewrite double_field_first_match.
    rewrite <- (double_field_table_key (ParseSpecialKeys fuel)).
    destruct (spec.first_match (spec.double_field_table _) doc) as [[[k h] v]|] eqn:Hfirst;
      [|reflexivity].
    cbn [fmap option_fmap option_map spec.decode_form fst].
    now rewrite (first_match_filter _ _ _ _ _ Hfirst).
Qed.

(** C10: an ordered document is classified on the map of its distinct
    keys: the map has as many keys as the document has distinct ones (a
    document of two elements that are both keyed [$oid] is the
    single-field [$oid] form), a key has the value of its last element,
    the form recognized on the map decides the decoding, and documents
    with the same elements in another order are recognized as the same
    form. *)
Theorem classification_by_distinct_keys (fuel : nat) (d : bson_D) :
  as_document (VD d) = Some (Map d)
  /\ size (Map d) = length (remove_dups d.*1)
  /\ (forall d1 k v d2, d = (d1 ++ (k, v) :: d2)%list -> k ∉ d2.*1 -> Map d !! k = Some v)
  /\ ParseSpecialKeys (S fuel) (VD d)
     = match spec.recognize (Map d) with
       | Some f => spec.decode_form (ParseSpecialKeys fuel) (Map d) f
       | None => recurse_deeper (ParseSpecialKeys fuel) (VD d)
       end
  /\ (forall d', d ≡ₚ d' -> spec.recognize (Map d') = spec.recognize (Map d))
  /\ (forall v1 v2,
        spec.recognize (Map [("$oid", v1); ("$oid", v2)]) = Some (spec.SingleField "$oid")
        /\ ParseSpecialKeys (S fuel) (VD [("$oid", v1); ("$oid", v2)]) = Some (oid_field v2)).
Proof.
  split; [reflexivity|]. split; [apply size_Map|]. split; [|split; [|split]].
  - intros d1 k v d2 -> Hk. now apply Map_lookup_last.
  - now apply ParseSpecialKeys_recognize.
  - intros d' Hperm. apply recognize_dom. symmetry. now apply Map_dom_Permutation.
  - intros v1 v2.
    assert (Hmap : Map [("$oid", v1); ("$oid", v2)] = {[ "$oid" := v2 ]}).
    { unfold Map. cbn [foldl Key Value fst snd]. now rewrite insert_insert_eq. }
    split.
    + rewrite Hmap. reflexivity.
    + apply (ParseSpecialKeys_single fuel _ {[ "$oid" := v2 ]}).
      * cbn [as_document]. now rewrite Hmap.
      * apply map_size_singleton.
      * reflexivity.
Qed.

End DocumentKeys.

(** ** The archive walker: magic number and terminator *)

Section Walker.
Import main.

Lemma byte_val_range b : 0 <= byte_val b < 256.
Proof.
  unfold byte_val. pose proof (Byte.to_N_bounded b) as Hb. lia.
Qed.

Lemma lor_shiftl_disjoint x y n :
  0 <= n -> 0 <= x < 2 ^ n -> 0 <= y -> Z.lor x (Z.shiftl y n) = x + y * 2 ^ n.
Proof.
  intros Hn Hx Hy.
  assert (Hland : Z.land x (Z.shiftl y n) = 0).
  { apply Z.bits_inj'. intros i Hi. rewrite Z.land_spec, Z.bits_0.
    destruct (Z.lt_ge_cases i n) as [Hlow|Hhigh].
    - rewrite (Z.shiftl_spec_low y n i Hlow). apply andb_false_r.
    - rewrite <- (Z.mod_small x (2 ^ n)) by lia.
      rewrite Z.mod_pow2_bits_high by lia. reflexivity. }
  rewrite <- Z.lxor_lor by exact Hland.
  rewrite <- Z.add_nocarry_lxor by exact Hland.
  rewrite Z.shiftl_mul_pow2 by lia. reflexivity.
Qed.

(** [binary.LittleEndian.Uint32]: the first byte is the least
    significant. *)
Lemma LittleEndian_Uint32_value b0 b1 b2 b3 rest :
  LittleEndian_Uint32 (b0 :: b1 :: b2 :: b3 :: rest)
  = byte_val b0 + 256 * byte_val b1 + 65536 * byte_val b2 + 16777216 * byte_val b3.
Proof.
  unfold LittleEndian_Uint32.
  pose proof (byte_val_range b0). pose proof (byte_val_range b1).
  pose proof (byte_val_range b2). pose proof (byte_val_range b3).
  rewrite (lor_shiftl_disjoint (byte_val b0) (byte_val b1) 8) by lia.
  rewrite (lor_shiftl_disjoint _ (byte_val b2) 16) by lia.
  rewrite (lor_shiftl_disjoint _ (byte_val b3) 24) by lia.
  lia.
Qed.

Lemma checkMagicBytes_four `{!Driver} b0 b1 b2 b3 rest :
  checkMagicBytes (b0 :: b1 :: b2 :: b3 :: rest)
  = if negb (LittleEndian_Uint32 [b0; b1; b2; b3] =? MagicNumber) then
      (Some (fmt_Errorf "unexpected magic number header (%v, %d); should be %d"
               [ArgBytes [b0; b1; b2; b3];
                ArgUint32 (LittleEndian_Uint32 [b0; b1; b2; b3]);
                ArgUint32 MagicNumber]),
       rest)
    else (None, rest).
Proof. reflexivity. Qed.

(** C4: the magic-number check succeeds exactly when the first four
    bytes of the input, read as a little-endian unsigned 32-bit integer,
    are the magic constant; for any other four bytes it fails with the
    mismatch error, and [getReport] returns that error at once: the reader
    has advanced by the four bytes only, and the result is the same
    whatever the document readers of the environment would do, so no header
    or metadata read takes place. *)
Theorem magic_number_gate {drv : Driver} (fuel : nat) (b0 b1 b2 b3 : byte) (rest : list byte)
    (errOut : list output) :
  let input := b0 :: b1 :: b2 :: b3 :: rest in
  let magicNum :=
    byte_val b0 + 256 * byte_val b1 + 65536 * byte_val b2 + 16777216 * byte_val b3 in
  let mismatch :=
    fmt_Errorf "unexpected magic number header (%v, %d); should be %d"
      [ArgBytes [b0; b1; b2; b3]; ArgUint32 magicNum; ArgUint32 MagicNumber] in
  (checkMagicBytes input = (None, rest) <-> magicNum = MagicNumber)
  /\ (magicNum <> MagicNumber ->
        checkMagicBytes input = (Some mismatch, rest)
        /\ getReport fuel input errOut
           = Some ((zeroReport,
                    Some (Wrapped mismatch "this does not appear to be a mongodump archive" [])),
                   (rest, errOut))
        /\ forall other : Driver,
             @MagicNumber other = @MagicNumber drv ->
             @getReport other fuel input errOut = @getReport drv fuel input errOut).
Proof.
  intros input magicNum mismatch. subst input mismatch.
  assert (Hcheck : forall D : Driver,
            @checkMagicBytes D (b0 :: b1 :: b2 :: b3 :: rest)
            = if negb (magicNum =? @MagicNumber D) then
                (Some (fmt_Errorf "unexpected magic number header (%v, %d); should be %d"
                         [ArgBytes [b0; b1; b2; b3]; ArgUint32 magicNum;
                          ArgUint32 (@MagicNumber D)]), rest)
              else (None, rest)).
  { intros D. rewrite (@checkMagicBytes_four D).
    now rewrite (LittleEndian_Uint32_value b0 b1 b2 b3 []). }
  split.
  - rewrite Hcheck. destruct (Z.eqb_spec magicNum MagicNumber) as [Heq|Hne]; cbn [negb].
    + split; [intros _; exact Heq | reflexivity].
    + split; [discriminate | intros Heq; now destruct Hne].
  - intros Hne.
    assert (Hreport : forall D : Driver, @MagicNumber D = @MagicNumber drv ->
              @getReport D fuel (b0 :: b1 :: b2 :: b3 :: rest) errOut
              = Some ((zeroReport,
                       Some (Wrapped
                               (fmt_Errorf "unexpected magic number header (%v, %d); should be %d"
                                  [ArgBytes [b0; b1; b2; b3]; ArgUint32 magicNum;
                                   ArgUint32 (@MagicNumber drv)])
                               "this does not appear to be a mongodump archive" [])),
                      (rest, errOut))).
    { intros D HD. unfold getReport. rewrite (Hcheck D), HD.
      destruct (Z.eqb_spec magicNum (@MagicNumber drv)) as [Heq|_]; [now destruct Hne|].
      reflexivity. }
    split; [|split].
    + rewrite Hcheck. destruct (Z.eqb_spec magicNum MagicNumber) as [Heq|_];
        [now destruct Hne | reflexivity].
    + now apply (Hreport drv).
    + intros other Hother. rewrite (Hreport other Hother). symmetry. now apply (Hreport drv).
Qed.

Lemma Peek_terminator rest :
  Peek (xff :: xff :: xff :: xff :: rest) 4 = (terminatorBytes, None).
Proof. reflexivity. Qed.

Lemma metadata_step_terminator `{!Driver} rest errOut mdDocs :
  metadata_step (xff :: xff :: xff :: xff :: rest) errOut mdDocs
  = Return ((Some mdDocs, None), (xff :: xff :: xff :: xff :: rest, errOut)).
Proof. reflexivity. Qed.

(** When the next four bytes are not the terminator, the document is
    read from the reader as it was before the peek. *)
Lemma metadata_step_reads `{!Driver} bufInput errOut mdDocs :
  (4 <= length bufInput)%nat ->
  take 4 bufInput <> terminatorBytes ->
  metadata_step bufInput errOut mdDocs
  = let '((mdDoc, err), bufInput') := readBSON bufInput [] in
    match err with
    | Some _ =>
        Return ((None, errors_Wrap err "failed to read collection metadata document"),
                (bufInput', errOut))
    | None =>
        match range_mdDoc (length mdDoc) 0 err mdDoc errOut with
        | Return (r, errOut') => Return (r, (bufInput', errOut'))
        | Next (mdDoc', errOut') => Next (bufInput', errOut', (mdDocs ++ [mdDoc'])%list)
        end
    end.
Proof.
  intros Hlen Hterm. unfold metadata_step, Peek.
  destruct (Nat.ltb_spec (length bufInput) 4) as [|_]; [lia|].
  unfold bytes_Equal. now rewrite bool_decide_eq_false_2.
Qed.

(** C5: when the four bytes peeked before a document read are
    [0xFF 0xFF 0xFF 0xFF], the walker stops with the documents read so
    far: the reader still stands before these bytes, nothing is written,
    and the outcome does not depend on the document readers, which are not
    called there; a metadata section that is the terminator alone gives a
    report with zero metadata documents.  Before any other four bytes the
    peek leaves the reader as it was for the document read. *)
Theorem terminator_stops_without_reading {drv : Driver} (fuel : nat) (rest : list byte)
    (errOut : list output) (mdDocs : list bson_D) :
  let bufInput := xff :: xff :: xff :: xff :: rest in
  Peek bufInput 4 = (terminatorBytes, None)
  /\ metadata_step bufInput errOut mdDocs = Return ((Some mdDocs, None), (bufInput, errOut))
  /\ metadata_loop (S fuel) bufInput errOut mdDocs
     = Some ((Some mdDocs, None), (bufInput, errOut))
  /\ getCollectionMetadata (S fuel) bufInput errOut
     = Some ((Some [], None), (bufInput, errOut))
  /\ (forall other : Driver,
        @metadata_loop other (S fuel) bufInput errOut mdDocs
        = @metadata_loop drv (S fuel) bufInput errOut mdDocs)
  /\ (forall input header,
        checkMagicBytes input = (None, drop 4 input) ->
        readBSON (drop 4 input) [] = ((header, None), bufInput) ->
        getReport (S fuel) input errOut
        = Some ((mkReport header (Some []), None), (bufInput, errOut)))
  /\ (forall other,
        (4 <= length other)%nat ->
        take 4 other <> terminatorBytes ->
        metadata_step other errOut mdDocs
        = let '((mdDoc, err), bufInput') := readBSON other [] in
          match err with
          | Some _ =>
              Return ((None, errors_Wrap err "failed to read collection metadata document"),
                      (bufInput', errOut))
          | None =>
              match range_mdDoc (length mdDoc) 0 err mdDoc errOut with
              | Return (r, errOut') => Return (r, (bufInput', errOut'))
              | Next (mdDoc', errOut') => Next (bufInput', errOut', (mdDocs ++ [mdDoc'])%list)
              end
          end).
Proof.
  intros bufInput. subst bufInput.
  split; [reflexivity|]. split; [reflexivity|]. split; [reflexivity|].
  split; [reflexivity|]. split; [reflexivity|]. split.
  - intros input header Hmagic Hheader. unfold getReport.
    rewrite Hmagic, Hheader. reflexivity.
  - intros other. apply metadata_step_reads.
Qed.

End Walker.

(** ** The archive walker: the [metadata] field of a metadata document *)

Section Metadata.
Import main.

(** The fields after and the diagnostics of a run over fields whose
    [metadata] values are strings. *)
Lemma range_mdDoc_strings {drv : Driver} (err : option error) (fields : bson_D) :
  Forall (fun e => spec.bad_metadata e = false) fields ->
  forall (done : bson_D) (errOut : list output),
    range_mdDoc (length fields) (length done) err (done ++ fields) errOut
    = Next ((done ++ ((fun e => (spec.reparse e).1) <$> fields))%list,
            (errOut ++ concat ((fun e => (spec.reparse e).2) <$> fields))%list).
Proof.
  induction 1 as [|e fields Hgood _ IH]; intros done errOut.
  - cbn. now rewrite !app_nil_r.
  - cbn [length range_mdDoc].
    rewrite list_lookup_middle by reflexivity.
    assert (Hnext : forall e' out,
              range_mdDoc (length fields) (S (length done)) err (done ++ e' :: fields) out
              = Next ((done ++ e' :: ((fun e => (spec.reparse e).1) <$> fields))%list,
                      (out ++ concat ((fun e => (spec.reparse e).2) <$> fields))%list)).
    { intros e' out. specialize (IH (done ++ [e'])%list out).
      replace (length (done ++ [e'])%list) with (S (length done)) in IH
        by (rewrite length_app; cbn; lia).
      rewrite <- !app_assoc in IH. exact IH. }
    unfold spec.bad_metadata in Hgood. unfold spec.reparse.
    cbn [fmap list_fmap concat].
    destruct (String.eqb (Key e) "metadata") eqn:Hkey; cbn [negb andb] in *.
    + destruct (Value e) as [| | mdStr | | | | | | | | | | | | | | | | | | | ] eqn:Hval;
        try discriminate Hgood.
      destruct (UnmarshalExtJSON mdStr) as [parsed [perr|]] eqn:Hparse.
      * rewrite Hnext. cbn [fst snd]. now rewrite <- app_assoc.
      * replace (<[length done := (Key e, VD parsed)]> (done ++ e :: fields)%list)
          with (done ++ (Key e, VD parsed) :: fields)%list.
        -- rewrite Hnext. cbn [fst snd app]. reflexivity.
        -- rewrite insert_app_r_alt by lia. now rewrite Nat.sub_diag.
    + rewrite Hnext. cbn [fst snd app]. reflexivity.
Qed.

(** The run stops at the first [metadata] field that is no string. *)
Lemma range_mdDoc_not_string {drv : Driver} (err : option error) (fields : bson_D)
    (e : bson_E) (rest : bson_D) :
  Forall (fun e => spec.bad_metadata e = false) fields ->
  spec.bad_metadata e = true ->
  forall (done : bson_D) (errOut : list output),
    range_mdDoc (length (fields ++ e :: rest)) (length done) err
      (done ++ fields ++ e :: rest) errOut
    = Return
        ((None,
          errors_Wrapf err "expected collection metadata to be %T, not %T (%v)"
            [ArgString EmptyString; ArgValue (Value e);
             ArgValue (VD (done ++ ((fun e => (spec.reparse e).1) <$> fields) ++ e :: rest))]),
         (errOut ++ concat ((fun e => (spec.reparse e).2) <$> fields))%list).
Proof.
  intros Hfields Hbad. induction Hfields as [|e0 fields Hgood _ IH]; intros done errOut.
  - cbn [app length range_mdDoc fmap list_fmap concat].
    rewrite list_lookup_middle by reflexivity. rewrite app_nil_r.
    unfold spec.bad_metadata in Hbad. apply andb_true_iff in Hbad as [Hkey Hval].
    rewrite Hkey. cbn [negb].
    destruct (Value e); try discriminate Hval; reflexivity.
  - cbn [app length range_mdDoc].
    rewrite list_lookup_middle by reflexivity.
    assert (Hnext : forall e' out,
              range_mdDoc (length (fields ++ e :: rest)) (S (length done)) err
                (done ++ e' :: fields ++ e :: rest) out
              = Return
                  ((None,
                    errors_Wrapf err "expected collection metadata to be %T, not %T (%v)"
                      [ArgString EmptyString; ArgValue (Value e);
                       ArgValue (VD (done ++ e' :: ((fun e => (spec.reparse e).1) <$> fields)
                                       ++ e :: rest))]),
                   (out ++ concat ((fun e => (spec.reparse e).2) <$> fields))%list)).
    { intros e' out. specialize (IH (done ++ [e'])%list out).
      replace (length (done ++ [e'])%list) with (S (length done)) in IH
        by (rewrite length_app; cbn; lia).
      rewrite <- !app_assoc in IH. exact IH. }
    unfold spec.bad_metadata in Hgood. unfold spec.reparse.
    cbn [fmap list_fmap concat].
    destruct (String.eqb (Key e0) "metadata") eqn:Hkey; cbn [negb andb] in *.
    + destruct (Value e0) as [| | mdStr | | | | | | | | | | | | | | | | | | | ] eqn:Hval;
        try discriminate Hgood.
      destruct (UnmarshalExtJSON mdStr) as [parsed [perr|]] eqn:Hparse.
      * rewrite Hnext. cbn [fst snd app]. now rewrite <- app_assoc.
      * replace (<[length done := (Key e0, VD parsed)]> (done ++ e0 :: fields ++ e :: rest)%list)
          with (done ++ (Key e0, VD parsed) :: fields ++ e :: rest)%list.
        -- rewrite Hnext. cbn [fst snd app]. reflexivity.
        -- rewrite insert_app_r_alt by lia. now rewrite Nat.sub_diag.
    + rewrite Hnext. cbn [fst snd app]. reflexivity.
Qed.

End Metadata.

Section MetadataWarning.
Import main.

Lemma reparse_parse_failure {drv : Driver} mdStr parsed perr :
  UnmarshalExtJSON mdStr = (parsed, Some perr) ->
  spec.reparse ("metadata", VString mdStr)
  = (("metadata", VString mdStr),
     [Fprintf "failed to parse collection metadata string: %v" perr]).
Proof.
  intros Hparse. unfold spec.reparse, Key, Value. cbn [fst snd].
  change ("metadata" =? "metadata")%string with true. cbv iota. now rewrite Hparse.
Qed.

(** C1, as the code has it: a [metadata] field that is a string whose
    content fails to parse as extended JSON is a warning: a diagnostic is
    written to the error output, the field keeps its value, the document
    is appended and [getCollectionMetadata] goes on to the next document
    (in a document whose [metadata] fields are all strings).  A [metadata]
    field whose value is no string ends [getCollectionMetadata] there: no
    diagnostic is written for it, the document is not appended, no further
    document is read and no list of documents is returned. *)
Theorem metadata_parse_failure_is_warning {drv : Driver} (fuel : nat)
    (bufInput bufInput' : list byte) (errOut : list output) (mdDocs : list bson_D)
    (mdDoc : bson_D) :
  (4 <= length bufInput)%nat ->
  take 4 bufInput <> terminatorBytes ->
  readBSON bufInput [] = ((mdDoc, None), bufInput') ->
  (Forall (fun e => spec.bad_metadata e = false) mdDoc ->
     let mdDoc' := (fun e => (spec.reparse e).1) <$> mdDoc in
     let diags := concat ((fun e => (spec.reparse e).2) <$> mdDoc) in
     metadata_step bufInput errOut mdDocs
     = Next (bufInput', (errOut ++ diags)%list, (mdDocs ++ [mdDoc'])%list)
     /\ metadata_loop (S fuel) bufInput errOut mdDocs
        = metadata_loop fuel bufInput' (errOut ++ diags)%list (mdDocs ++ [mdDoc'])%list
     /\ forall (i : nat) mdStr parsed perr,
          mdDoc !! i = Some ("metadata", VString mdStr) ->
          UnmarshalExtJSON mdStr = (parsed, Some perr) ->
          mdDoc' !! i = Some ("metadata", VString mdStr)
          /\ Fprintf "failed to parse collection metadata string: %v" perr ∈ diags)
  /\ (forall fields e rest,
        mdDoc = (fields ++ e :: rest)%list ->
        Forall (fun e => spec.bad_metadata e = false) fields ->
        spec.bad_metadata e = true ->
        let diags := concat ((fun e => (spec.reparse e).2) <$> fields) in
        exists err,
          metadata_step bufInput errOut mdDocs
          = Return ((None, err), (bufInput', (errOut ++ diags)%list))
          /\ metadata_loop (S fuel) bufInput errOut mdDocs
             = Some ((None, err), (bufInput', (errOut ++ diags)%list))).
Proof.
  intros Hlen Hterm Hread.
  pose proof (metadata_step_reads bufInput errOut mdDocs Hlen Hterm) as Hstep.
  rewrite Hread in Hstep. split.
  - intros Hstrings mdDoc' diags.
    pose proof (range_mdDoc_strings None mdDoc Hstrings [] errOut) as Hrange.
    cbn [length app] in Hrange. rewrite Hrange in Hstep.
    split; [exact Hstep|]. split.
    + cbn [metadata_loop]. now rewrite Hstep.
    + intros i mdStr parsed perr Hi Hparse. subst mdDoc' diags. split.
      * rewrite list_lookup_fmap, Hi. cbn [fmap option_fmap option_map].
        now rewrite (reparse_parse_failure mdStr parsed perr Hparse).
      * apply list_elem_of_In, in_concat.
        exists [Fprintf "failed to parse collection metadata string: %v" perr]. split.
        -- apply list_elem_of_In, list_elem_of_fmap.
           exists ("metadata", VString mdStr). split.
           ++ now rewrite (reparse_parse_failure mdStr parsed perr Hparse).
           ++ now apply list_elem_of_lookup_2 in Hi.
        -- now left.
  - intros fields e rest -> Hfields Hbad diags.
    pose proof (range_mdDoc_not_string None fields e rest Hfields Hbad [] errOut) as Hrange.
    cbn [length app] in Hrange. rewrite Hrange in Hstep.
    eexists. split; [exact Hstep|]. cbn [metadata_loop]. now rewrite Hstep.
Qed.

End MetadataWarning.

Lemma metadata_parse_failure_is_warning_witness :
  @main.metadata_step demo.driver
    (demo.document [demo.string_elem "db" "d"; demo.string_elem "metadata" "{not json"]
       ++ main.terminatorBytes)%list [] []
  = main.Next
      (main.terminatorBytes,
       [main.Fprintf "failed to parse collection metadata string: %v"
          (LibError "bson" "invalid JSON input")],
       [[("db", VString "d"); ("metadata", VString "{not json")]]).
Proof.
  refine (proj1 (proj1 (@metadata_parse_failure_is_warning demo.driver 0
            (demo.document [demo.string_elem "db" "d"; demo.string_elem "metadata" "{not json"]
               ++ main.terminatorBytes)%list
            main.terminatorBytes [] []
            [("db", VString "d"); ("metadata", VString "{not json")] _ _ _) _)).
  - vm_compute. lia.
  - vm_compute. discriminate.
  - vm_compute. reflexivity.
  - repeat constructor.
Defined.

(** C1 does not hold for a [metadata] field that is no string: for the
    stream of a document with the field [metadata] an integer, a second
    document and the terminator, the walker does not go on, writes no
    diagnostic and returns no list of documents; the second document is
    left unread. *)
Lemma metadata_not_string_stops_walker :
  let second := demo.document [demo.string_elem "db" "e"] in
  let input :=
    (demo.document [demo.string_elem "db" "d"; demo.int32_elem "metadata" 7]
       ++ second ++ main.terminatorBytes)%list in
  (@main.readBSON demo.driver input []).1
  = ([("db", VString "d"); ("metadata", VInt32 7)], None)
  /\ (forall next, @main.metadata_step demo.driver input [] [] <> main.Next next)
  /\ @main.getCollectionMetadata demo.driver 3 input []
     = Some ((None, None), ((second ++ main.terminatorBytes)%list, [])).
Proof.
  intros second input. split; [|split].
  - vm_compute. reflexivity.
  - intros next. vm_compute. discriminate.
  - vm_compute. reflexivity.
Qed.

(** ** The theorems without hypotheses, at concrete inputs *)

Lemma magic_number_gate_witness :
  @main.getReport demo.driver 0
    ([x00; x01; x02; x03] ++ demo.document [demo.string_elem "version" "0.1"])%list []
  = Some ((main.zeroReport,
           Some (Wrapped
                   (fmt_Errorf "unexpected magic number header (%v, %d); should be %d"
                      [ArgBytes [x00; x01; x02; x03]; ArgUint32 50462976;
                       ArgUint32 2174345837])
                   "this does not appear to be a mongodump archive" [])),
          (demo.document [demo.string_elem "version" "0.1"], [])).
Proof.
  refine (proj1 (proj2 (proj2 (@magic_number_gate demo.driver 0 x00 x01 x02 x03
            (demo.document [demo.string_elem "version" "0.1"]) []) _))).
  vm_compute. discriminate.
Defined.

Lemma terminator_stops_without_reading_witness :
  @main.getReport demo.driver 1
    (demo.magic ++ demo.document [demo.string_elem "version" "0.1"]
       ++ main.terminatorBytes)%list []
  = Some ((main.mkReport [("version", VString "0.1")] (Some []), None),
          (main.terminatorBytes, [])).
Proof.
  refine (proj1 (proj2 (proj2 (proj2 (proj2 (proj2
            (@terminator_stops_without_reading demo.driver 0 [] [] []))))))
            (demo.magic ++ demo.document [demo.string_elem "version" "0.1"]
               ++ main.terminatorBytes)%list
            [("version", VString "0.1")] _ _); vm_compute; reflexivity.
Defined.

Lemma classification_by_distinct_keys_witness :
  @bsonutil.ParseSpecialKeys demo.libs 1
    (VD [("$oid", VNil); ("$oid", VString "0123456789abcdef01234567")])
  = Some (VObjectID [x01; x23; x45; x67; x89; xab; xcd; xef; x01; x23; x45; x67], None).
Proof.
  exact (proj2 (proj2 (proj2 (proj2 (proj2 (proj2
           (@classification_by_distinct_keys demo.libs 0 [])))))
           VNil (VString "0123456789abcdef01234567"))).
Defined.

(** ** The walker on whole archives *)

(** A header, one metadata document whose [metadata] string parses, the
    terminator: the field is replaced by the parsed document. *)
Example report_of_archive :
  @main.getReport demo.driver 2
    (demo.archive (demo.string_elem "metadata" (demo.json_type "collection"))) []
  = Some ((main.mkReport [("version", VString "0.1")]
             (Some [[("db", VString "d"); ("collection", VString "c");
                     ("metadata", VD [("type", VString "collection")])]]),
           None),
          (main.terminatorBytes, [])).
Proof. vm_compute. reflexivity. Qed.

(** The same archive with a [metadata] string that does not parse: the
    string stays and one diagnostic is written. *)
Example report_of_archive_with_warning :
  @main.getReport demo.driver 2 (demo.archive (demo.string_elem "metadata" "{not json")) []
  = Some ((main.mkReport [("version", VString "0.1")]
             (Some [[("db", VString "d"); ("collection", VString "c");
                     ("metadata", VString "{not json")]]),
           None),
          (main.terminatorBytes,
           [main.Fprintf "failed to parse collection metadata string: %v"
              (LibError "bson" "invalid JSON input")])).
Proof. vm_compute. reflexivity. Qed.

(** ** The archive walker: whole streams of metadata documents *)

Section Streams.
Import main.

(** A document is well typed or has a first [metadata] field that is no
    string. *)
Lemma first_bad_metadata (mdDoc : bson_D) :
  stream.well_typed mdDoc
  \/ exists fields e rest,
       mdDoc = (fields ++ e :: rest)%list
       /\ stream.well_typed fields
       /\ spec.bad_metadata e = true.
Proof.
  induction mdDoc as [|e0 mdDoc IH]; [left; constructor|].
  destruct (spec.bad_metadata e0) eqn:Hbad.
  - right. exists [], e0, mdDoc. repeat split; [constructor | exact Hbad].
  - destruct IH as [Hall | (fields & e & rest & -> & Hfields & He)].
    + left. now constructor.
    + right. exists (e0 :: fields), e, rest. repeat split; [now constructor | exact He].
Qed.

(** One iteration on a well-typed document. *)
Lemma metadata_step_well_typed {drv : Driver} bufInput bufInput' errOut mdDocs mdDoc :
  (4 <= length bufInput)%nat ->
  take 4 bufInput <> terminatorBytes ->
  readBSON bufInput [] = ((mdDoc, None), bufInput') ->
  stream.well_typed mdDoc ->
  metadata_step bufInput errOut mdDocs
  = Next (bufInput', (errOut ++ stream.diagnostics mdDoc)%list,
          (mdDocs ++ [stream.walked mdDoc])%list).
Proof.
  intros Hlen Hterm Hread Htyped.
  rewrite (metadata_step_reads bufInput errOut mdDocs Hlen Hterm), Hread.
  pose proof (range_mdDoc_strings None mdDoc Htyped [] errOut) as Hrange.
  cbn [length app] in Hrange. now rewrite Hrange.
Qed.

(** One iteration on a document with a [metadata] field that is no
    string: the [err] that is wrapped is [nil]. *)
Lemma metadata_step_not_string {drv : Driver} bufInput bufInput' errOut mdDocs fields e rest :
  (4 <= length bufInput)%nat ->
  take 4 bufInput <> terminatorBytes ->
  readBSON bufInput [] = ((fields ++ e :: rest)%list, None, bufInput') ->
  stream.well_typed fields ->
  spec.bad_metadata e = true ->
  metadata_step bufInput errOut mdDocs
  = Return ((None, None), (bufInput', (errOut ++ stream.diagnostics fields)%list)).
Proof.
  intros Hlen Hterm Hread Htyped Hbad.
  rewrite (metadata_step_reads bufInput errOut mdDocs Hlen Hterm), Hread.
  pose proof (range_mdDoc_not_string None fields e rest Htyped Hbad [] errOut) as Hrange.
  cbn [length app] in Hrange. now rewrite Hrange.
Qed.

(** What an iteration that goes on, or that returns, says of the reader
    it started from. *)
Lemma metadata_step_inv {drv : Driver} bufInput errOut mdDocs :
  match metadata_step bufInput errOut mdDocs with
  | Next (bufInput', errOut', mdDocs') =>
      (4 <= length bufInput)%nat
      /\ take 4 bufInput <> terminatorBytes
      /\ exists mdDoc,
           readBSON bufInput [] = ((mdDoc, None), bufInput')
           /\ stream.well_typed mdDoc
           /\ errOut' = (errOut ++ stream.diagnostics mdDoc)%list
           /\ mdDocs' = (mdDocs ++ [stream.walked mdDoc])%list
  | Return ((Some ds, err), (bufInput', errOut')) =>
      ds = mdDocs /\ err = None /\ bufInput' = bufInput /\ errOut' = errOut
      /\ take 4 bufInput = terminatorBytes
  | Return ((None, _), (_, errOut')) => errOut `prefix_of` errOut'
  end.
Proof.
  destruct (Nat.ltb_spec (length bufInput) 4) as [Hshort|Hlen].
  { unfold metadata_step, Peek.
    destruct (Nat.ltb_spec (length bufInput) 4) as [_|]; [|lia]. reflexivity. }
  destruct (decide (take 4 bufInput = terminatorBytes)) as [Hterm|Hterm].
  { unfold metadata_step, Peek.
    destruct (Nat.ltb_spec (length bufInput) 4) as [|_]; [lia|].
    unfold bytes_Equal. rewrite bool_decide_eq_true_2 by exact Hterm. now repeat split. }
  destruct (readBSON bufInput []) as [[mdDoc [cause|]] bufInput'] eqn:Hread.
  { rewrite (metadata_step_reads bufInput errOut mdDocs Hlen Hterm), Hread. reflexivity. }
  destruct (first_bad_metadata mdDoc) as [Htyped | (fields & e & rest & -> & Htyped & Hbad)].
  - rewrite (metadata_step_well_typed _ _ _ _ _ Hlen Hterm Hread Htyped).
    split; [exact Hlen|]. split; [exact Hterm|]. now exists mdDoc.
  - rewrite (metadata_step_not_string _ _ _ _ _ _ _ Hlen Hterm Hread Htyped Hbad).
    now apply prefix_app_r.
Qed.

(** The loop over the documents a reader holds. *)
Lemma metadata_loop_delivers {drv : Driver} (docs : list bson_D) :
  forall bufInput bufInput' errOut mdDocs fuel,
    stream.delivers bufInput docs bufInput' ->
    Forall stream.well_typed docs ->
    metadata_loop (length docs + fuel) bufInput errOut mdDocs
    = metadata_loop fuel bufInput'
        (errOut ++ concat (stream.diagnostics <$> docs))%list
        (mdDocs ++ (stream.walked <$> docs))%list.
Proof.
  induction docs as [|mdDoc docs IH]; intros bufInput bufInput' errOut mdDocs fuel Hdel Htyped.
  - cbn in Hdel. subst bufInput'. cbn. now rewrite !app_nil_r.
  - destruct Hdel as (Hlen & Hterm & next & Hread & Hdel).
    inversion Htyped as [|? ? Hdoc Hdocs]; subst.
    cbn [length Nat.add metadata_loop].
    rewrite (metadata_step_well_typed _ _ _ _ _ Hlen Hterm Hread Hdoc).
    rewrite (IH _ _ _ _ _ Hdel Hdocs). cbn [fmap list_fmap concat].
    now rewrite <- !app_assoc.
Qed.

(** Every result of the loop with a list of documents comes from a
    reader that holds well-typed documents up to the terminator. *)
Lemma metadata_loop_Some_inv {drv : Driver} (fuel : nat) :
  forall bufInput errOut mdDocs ds err bufInput' errOut',
    metadata_loop fuel bufInput errOut mdDocs = Some ((Some ds, err), (bufInput', errOut')) ->
    err = None
    /\ take 4 bufInput' = terminatorBytes
    /\ exists docs,
         stream.delivers bufInput docs bufInput'
         /\ Forall stream.well_typed docs
         /\ ds = (mdDocs ++ (stream.walked <$> docs))%list
         /\ errOut' = (errOut ++ concat (stream.diagnostics <$> docs))%list
         /\ (length docs < fuel)%nat.
Proof.
  induction fuel as [|fuel IH]; intros bufInput errOut mdDocs ds err bufInput' errOut' Hloop;
    [discriminate|].
  cbn [metadata_loop] in Hloop.
  pose proof (metadata_step_inv bufInput errOut mdDocs) as Hstep.
  destruct (metadata_step bufInput errOut mdDocs) as [[[next errOut1] mdDocs1]|r].
  - destruct Hstep as (Hlen & Hterm & mdDoc & Hread & Htyped & -> & ->).
    destruct (IH _ _ _ _ _ _ _ Hloop) as (-> & Hend & docs & Hdel & Hdocs & -> & -> & Hfuel).
    split; [reflexivity|]. split; [exact Hend|].
    exists (mdDoc :: docs). split; [|split; [|split; [|split]]].
    + cbn [stream.delivers]. split; [exact Hlen|]. split; [exact Hterm|]. now exists next.
    + now constructor.
    + cbn [fmap list_fmap]. now rewrite <- app_assoc.
    + cbn [fmap list_fmap concat]. now rewrite <- !app_assoc.
    + cbn [length]. lia.
  - injection Hloop as ->. cbn in Hstep. destruct Hstep as (-> & -> & -> & -> & Hend).
    split; [reflexivity|]. split; [exact Hend|].
    exists []. cbn. rewrite !app_nil_r.
    split; [reflexivity|]. split; [apply Forall_nil_2|]. repeat split; lia.
Qed.

(** The diagnostics are only added to. *)
Lemma metadata_loop_errOut {drv : Driver} (fuel : nat) :
  forall bufInput errOut mdDocs r bufInput' errOut',
    metadata_loop fuel bufInput errOut mdDocs = Some (r, (bufInput', errOut')) ->
    errOut `prefix_of` errOut'.
Proof.
  induction fuel as [|fuel IH]; intros bufInput errOut mdDocs r bufInput' errOut' Hloop;
    [discriminate|].
  cbn [metadata_loop] in Hloop.
  pose proof (metadata_step_inv bufInput errOut mdDocs) as Hstep.
  destruct (metadata_step bufInput errOut mdDocs) as [[[next errOut1] mdDocs1]|r1].
  - destruct Hstep as (_ & _ & mdDoc & _ & _ & -> & _).
    etrans; [|exact (IH _ _ _ _ _ _ Hloop)]. now apply prefix_app_r.
  - injection Hloop as ->. destruct r as [[ds|] err]; cbn in Hstep.
    + now destruct Hstep as (_ & _ & _ & -> & _).
    + exact Hstep.
Qed.

End Streams.

Section StreamTheorems.
Import main.

Lemma metadata_step_at_terminator {drv : Driver} bufInput errOut mdDocs :
  take 4 bufInput = terminatorBytes ->
  metadata_step bufInput errOut mdDocs = Return ((Some mdDocs, None), (bufInput, errOut)).
Proof.
  intros Hterm.
  assert (Hlen : (4 <= length bufInput)%nat).
  { pose proof (f_equal length Hterm) as Hl. rewrite length_take in Hl.
    change (length terminatorBytes) with 4%nat in Hl. lia. }
  unfold metadata_step, Peek.
  destruct (Nat.ltb_spec (length bufInput) 4) as [|_]; [lia|].
  unfold bytes_Equal. now rewrite bool_decide_eq_true_2 by exact Hterm.
Qed.

Lemma metadata_step_short {drv : Driver} bufInput errOut mdDocs :
  (length bufInput < 4)%nat ->
  metadata_step bufInput errOut mdDocs
  = Return ((None, Some (Wrapped io_EOF "failed to check for end of collection metadata" [])),
            (bufInput, errOut)).
Proof.
  intros Hshort. unfold metadata_step, Peek.
  destruct (Nat.ltb_spec (length bufInput) 4) as [_|]; [|lia]. reflexivity.
Qed.

Lemma walked_keys {drv : Driver} (mdDoc : bson_D) : (stream.walked mdDoc).*1 = mdDoc.*1.
Proof.
  unfold stream.walked. rewrite <- list_fmap_compose. apply list_fmap_ext.
  intros i e _. unfold compose, spec.reparse.
  destruct (String.eqb (Key e) "metadata"); [|reflexivity].
  destruct (Value e); try reflexivity.
  destruct (UnmarshalExtJSON s) as [parsed [perr|]]; reflexivity.
Qed.

(** What the pass makes of one field of a well-typed document. *)
Lemma walked_lookup {drv : Driver} (mdDoc : bson_D) i k v :
  stream.well_typed mdDoc ->
  mdDoc !! i = Some (k, v) ->
  (k <> "metadata" -> stream.walked mdDoc !! i = Some (k, v))
  /\ (k = "metadata" ->
        exists mdStr,
          v = VString mdStr
          /\ stream.walked mdDoc !! i
             = Some (k, match UnmarshalExtJSON mdStr with
                        | (parsed, None) => VD parsed
                        | (_, Some _) => v
                        end)).
Proof.
  intros Htyped Hi.
  assert (Hw : stream.walked mdDoc !! i = Some (spec.reparse (k, v)).1).
  { unfold stream.walked. now rewrite list_lookup_fmap, Hi. }
  pose proof (proj1 (Forall_lookup _ _) Htyped i (k, v) Hi) as Hgood.
  unfold spec.bad_metadata in Hgood. unfold spec.reparse in Hw. cbn [Key Value fst snd] in *.
  split.
  - intros Hk. apply String.eqb_neq in Hk. now rewrite Hk in Hw.
  - intros ->. change ("metadata" =? "metadata")%string with true in *. cbn [andb] in Hgood.
    destruct v; try discriminate Hgood. exists s. split; [reflexivity|].
    rewrite Hw. now destruct (UnmarshalExtJSON s) as [parsed [perr|]].
Qed.

(** X1: when the reader holds metadata documents whose [metadata]
    fields are strings, followed by the terminator, [getCollectionMetadata]
    returns exactly these documents, in the order of the stream and each
    with the keys it was read with, the reader stands at the terminator,
    and the diagnostics are those of the documents in order; [getReport]
    returns them with the header and no error. *)
Theorem metadata_documents_in_stream_order {drv : Driver} (fuel : nat)
    (bufInput bufInput' : list byte) (docs : list bson_D) (errOut : list output) :
  stream.delivers bufInput docs bufInput' ->
  Forall stream.well_typed docs ->
  take 4 bufInput' = terminatorBytes ->
  (length docs < fuel)%nat ->
  let errOut' := (errOut ++ concat (stream.diagnostics <$> docs))%list in
  getCollectionMetadata fuel bufInput errOut
  = Some ((Some (stream.walked <$> docs), None), (bufInput', errOut'))
  /\ length (stream.walked <$> docs) = length docs
  /\ (forall i mdDoc,
        docs !! i = Some mdDoc ->
        exists mdDoc',
          (stream.walked <$> docs) !! i = Some mdDoc' /\ mdDoc'.*1 = mdDoc.*1)
  /\ (forall input rest header,
        checkMagicBytes input = (None, rest) ->
        readBSON rest [] = ((header, None), bufInput) ->
        getReport fuel input errOut
        = Some ((mkReport header (Some (stream.walked <$> docs)), None),
                (bufInput', errOut'))).
Proof.
  intros Hdel Htyped Hterm Hfuel errOut'.
  assert (Hmd : getCollectionMetadata fuel bufInput errOut
                = Some ((Some (stream.walked <$> docs), None), (bufInput', errOut'))).
  { unfold getCollectionMetadata.
    replace fuel with (length docs + S (fuel - length docs - 1))%nat by lia.
    rewrite (metadata_loop_delivers docs _ _ _ _ _ Hdel Htyped).
    cbn [metadata_loop app]. now rewrite (metadata_step_at_terminator _ _ _ Hterm). }
  split; [exact Hmd|]. split; [apply length_fmap|]. split.
  - intros i mdDoc Hi. exists (stream.walked mdDoc). split.
    + now rewrite list_lookup_fmap, Hi.
    + apply walked_keys.
  - intros input rest header Hmagic Hheader. unfold getReport.
    now rewrite Hmagic, Hheader, Hmd.
Qed.

(** X2: [getCollectionMetadata] returns a list of documents only from
    the terminator: then there is no error, the reader stands at the
    four terminator bytes, the reader held that many well-typed documents
    before them, and the list and the diagnostics are those of these
    documents. *)
Theorem metadata_list_only_at_terminator {drv : Driver} (fuel : nat)
    (bufInput bufInput' : list byte) (errOut errOut' : list output)
    (ds : list bson_D) (err : option error) :
  getCollectionMetadata fuel bufInput errOut = Some ((Some ds, err), (bufInput', errOut')) ->
  err = None
  /\ take 4 bufInput' = terminatorBytes
  /\ exists docs,
       stream.delivers bufInput docs bufInput'
       /\ Forall stream.well_typed docs
       /\ ds = stream.walked <$> docs
       /\ errOut' = (errOut ++ concat (stream.diagnostics <$> docs))%list
       /\ (length docs < fuel)%nat.
Proof.
  intros Hmd. exact (metadata_loop_Some_inv fuel _ _ _ _ _ _ _ Hmd).
Qed.

(** X3: a stream of metadata documents that does not reach the
    terminator is an error and no document is returned: with fewer than
    four bytes left after the documents (also none at all) the error
    wraps [io.EOF], and when the next document cannot be read it wraps
    the error of [readBSON]; [getReport] then returns the empty report. *)
Theorem metadata_stream_without_terminator {drv : Driver} (fuel : nat)
    (bufInput bufInput' : list byte) (docs : list bson_D) (errOut : list output) :
  stream.delivers bufInput docs bufInput' ->
  Forall stream.well_typed docs ->
  (length docs < fuel)%nat ->
  let errOut' := (errOut ++ concat (stream.diagnostics <$> docs))%list in
  ((length bufInput' < 4)%nat ->
     let eof := Wrapped io_EOF "failed to check for end of collection metadata" [] in
     getCollectionMetadata fuel bufInput errOut = Some ((None, Some eof), (bufInput', errOut'))
     /\ forall input rest header,
          checkMagicBytes input = (None, rest) ->
          readBSON rest [] = ((header, None), bufInput) ->
          getReport fuel input errOut
          = Some ((zeroReport, Some (Wrapped eof "failed to read collection metadata" [])),
                  (bufInput', errOut')))
  /\ (forall target cause rest,
        (4 <= length bufInput')%nat ->
        take 4 bufInput' <> terminatorBytes ->
        readBSON bufInput' [] = ((target, Some cause), rest) ->
        getCollectionMetadata fuel bufInput errOut
        = Some ((None,
                 Some (Wrapped cause "failed to read collection metadata document" [])),
                (rest, errOut'))).
Proof.
  intros Hdel Htyped Hfuel errOut'.
  assert (Hloop : getCollectionMetadata fuel bufInput errOut
                  = metadata_loop (S (fuel - length docs - 1)) bufInput' errOut'
                      (stream.walked <$> docs)).
  { unfold getCollectionMetadata.
    replace fuel with (length docs + S (fuel - length docs - 1))%nat at 1 by lia.
    now rewrite (metadata_loop_delivers docs _ _ _ _ _ Hdel Htyped). }
  split.
  - intros Hshort eof.
    assert (Hmd : getCollectionMetadata fuel bufInput errOut
                  = Some ((None, Some eof), (bufInput', errOut'))).
    { rewrite Hloop. cbn [metadata_loop]. now rewrite (metadata_step_short _ _ _ Hshort). }
    split; [exact Hmd|].
    intros input rest header Hmagic Hheader. unfold getReport.
    now rewrite Hmagic, Hheader, Hmd.
  - intros target cause rest Hlen Hterm Hread. rewrite Hloop. cbn [metadata_loop].
    now rewrite (metadata_step_reads _ _ _ Hlen Hterm), Hread.
Qed.

(** X4: a metadata document with a [metadata] field that is no string
    ends the walk without an error: [getCollectionMetadata] returns
    neither a list nor an error (the error it wraps is [nil]), so
    [getReport] returns a report with the header and no metadata
    documents at all, also none of those read before, and the rest of the
    stream is left unread. *)
Theorem non_string_metadata_ends_without_error {drv : Driver} (fuel : nat)
    (bufInput bufInput1 bufInput2 : list byte) (docs : list bson_D)
    (fields : bson_D) (e : bson_E) (rest : bson_D) (errOut : list output) :
  stream.delivers bufInput docs bufInput1 ->
  Forall stream.well_typed docs ->
  (4 <= length bufInput1)%nat ->
  take 4 bufInput1 <> terminatorBytes ->
  readBSON bufInput1 [] = (((fields ++ e :: rest)%list, None), bufInput2) ->
  stream.well_typed fields ->
  Key e = "metadata" ->
  (forall mdStr, Value e <> VString mdStr) ->
  (length docs < fuel)%nat ->
  let errOut' :=
    (errOut ++ concat (stream.diagnostics <$> docs) ++ stream.diagnostics fields)%list in
  getCollectionMetadata fuel bufInput errOut = Some ((None, None), (bufInput2, errOut'))
  /\ forall input rest' header,
       checkMagicBytes input = (None, rest') ->
       readBSON rest' [] = ((header, None), bufInput) ->
       getReport fuel input errOut = Some ((mkReport header None, None), (bufInput2, errOut')).
Proof.
  intros Hdel Htyped Hlen Hterm Hread Hfields Hkey Hval Hfuel errOut'.
  assert (Hbad : spec.bad_metadata e = true).
  { unfold spec.bad_metadata. rewrite Hkey. cbn.
    destruct (Value e) eqn:Hv; try reflexivity. now destruct (Hval s). }
  assert (Hmd : getCollectionMetadata fuel bufInput errOut
                = Some ((None, None), (bufInput2, errOut'))).
  { unfold getCollectionMetadata.
    replace fuel with (length docs + S (fuel - length docs - 1))%nat by lia.
    rewrite (metadata_loop_delivers docs _ _ _ _ _ Hdel Htyped).
    cbn [metadata_loop].
    rewrite (metadata_step_not_string _ _ _ _ _ _ _ Hlen Hterm Hread Hfields Hbad).
    subst errOut'. now rewrite <- app_assoc. }
  split; [exact Hmd|].
  intros input rest' header Hmagic Hheader. unfold getReport.
  now rewrite Hmagic, Hheader, Hmd.
Qed.

(** X5: an iteration of the walker that appends a document changes
    nothing but [metadata] fields: the appended document has the keys of
    the document read, in the same order; a field with another key keeps
    its value; a [metadata] field held a string and now holds the parsed
    document when the string parses, the same string when it does not. *)
Theorem walker_changes_metadata_fields_only {drv : Driver}
    (bufInput bufInput' : list byte) (errOut errOut' : list output)
    (mdDocs mdDocs' : list bson_D) :
  metadata_step bufInput errOut mdDocs = Next (bufInput', errOut', mdDocs') ->
  exists mdDoc mdDoc',
    readBSON bufInput [] = ((mdDoc, None), bufInput')
    /\ mdDocs' = (mdDocs ++ [mdDoc'])%list
    /\ mdDoc'.*1 = mdDoc.*1
    /\ forall i k v,
         mdDoc !! i = Some (k, v) ->
         (k <> "metadata" -> mdDoc' !! i = Some (k, v))
         /\ (k = "metadata" ->
               exists mdStr,
                 v = VString mdStr
                 /\ mdDoc' !! i
                    = Some (k, match UnmarshalExtJSON mdStr with
                               | (parsed, None) => VD parsed
                               | (_, Some _) => v
                               end)).
Proof.
  intros Hstep. pose proof (metadata_step_inv bufInput errOut mdDocs) as Hinv.
  rewrite Hstep in Hinv. destruct Hinv as (_ & _ & mdDoc & Hread & Htyped & _ & ->).
  exists mdDoc, (stream.walked mdDoc).
  split; [exact Hread|]. split; [reflexivity|]. split; [apply walked_keys|].
  intros i k v Hi. now apply walked_lookup.
Qed.

(** X6: [getReport] never returns a report together with an error: with
    an error the report is the empty one, and the error wraps its cause
    with the message of the phase that failed (magic bytes, header,
    collection metadata); without an error the magic bytes were accepted
    and the header of the report is the document read after them.  The
    diagnostics written before the call are kept, in either case. *)
Theorem getReport_error_gives_empty_report {drv : Driver} (fuel : nat) (input : list byte)
    (errOut : list output) (report : Report) (err : option error)
    (st : list byte * list output) :
  getReport fuel input errOut = Some ((report, err), st) ->
  errOut `prefix_of` st.2
  /\ match err with
     | Some e =>
         report = zeroReport
         /\ exists cause message,
              e = Wrapped cause message []
              /\ message ∈ ["this does not appear to be a mongodump archive";
                            "failed to read archive header";
                            "failed to read collection metadata"]
     | None =>
         exists rest rest',
           checkMagicBytes input = (None, rest)
           /\ readBSON rest [] = ((Header report, None), rest')
     end.
Proof.
  unfold getReport. destruct (checkMagicBytes input) as [[e1|] rest] eqn:Hmagic.
  { intros [= <- <- <-]. split; [reflexivity|]. split; [reflexivity|].
    exists e1, "this does not appear to be a mongodump archive".
    split; [reflexivity | set_solver]. }
  destruct (readBSON rest []) as [[header [e2|]] rest'] eqn:Hheader.
  { intros [= <- <- <-]. split; [reflexivity|]. split; [reflexivity|].
    exists e2, "failed to read archive header". split; [reflexivity | set_solver]. }
  destruct (getCollectionMetadata fuel rest' errOut) as [[[mdDocs [e3|]] [bufInput' errOut']]|]
    eqn:Hmd; [| |discriminate].
  - intros [= <- <- <-]. split.
    + exact (metadata_loop_errOut fuel _ _ _ _ _ _ Hmd).
    + split; [reflexivity|].
      exists e3, "failed to read collection metadata". split; [reflexivity | set_solver].
  - intros [= <- <- <-]. split.
    + exact (metadata_loop_errOut fuel _ _ _ _ _ _ Hmd).
    + now exists rest, rest'.
Qed.

(** X7: an input of fewer than four bytes fails the magic-number check:
    the cause is [io.EOF] for the empty input and [io.ErrUnexpectedEOF]
    for one to three bytes, the input is used up, and [getReport] returns
    the empty report with that error, whatever the document readers
    are. *)
Theorem short_input_fails_magic_check {drv : Driver} (fuel : nat) (input : list byte)
    (errOut : list output) :
  (length input < 4)%nat ->
  let cause := match input with [] => io_EOF | _ => io_ErrUnexpectedEOF end in
  let failed := Wrapped cause "failed to read archive magic bytes" [] in
  checkMagicBytes input = (Some failed, [])
  /\ getReport fuel input errOut
     = Some ((zeroReport,
              Some (Wrapped failed "this does not appear to be a mongodump archive" [])),
             ([], errOut))
  /\ forall other : Driver,
       @getReport other fuel input errOut = @getReport drv fuel input errOut.
Proof.
  intros Hshort cause failed.
  assert (Hcheck : forall D : Driver, @checkMagicBytes D input = (Some failed, [])).
  { intros D. unfold checkMagicBytes, io_ReadFull.
    destruct (Nat.ltb_spec (length input) 4) as [_|]; [|lia]. reflexivity. }
  assert (Hreport : forall D : Driver,
            @getReport D fuel input errOut
            = Some ((zeroReport,
                     Some (Wrapped failed "this does not appear to be a mongodump archive" [])),
                    ([], errOut))).
  { intros D. unfold getReport. now rewrite (Hcheck D). }
  split; [apply Hcheck|]. split; [apply Hreport|].
  intros other. now rewrite (Hreport other), (Hreport drv).
Qed.

End StreamTheorems.

(** ** The walker theorems at concrete streams *)

Lemma metadata_documents_in_stream_order_witness :
  @main.getCollectionMetadata demo.driver 3
    (demo.document [demo.string_elem "db" "d"; demo.string_elem "metadata" "{}"]
       ++ demo.document [demo.string_elem "db" "e"] ++ main.terminatorBytes)%list []
  = Some ((Some [[("db", VString "d"); ("metadata", VD [])]; [("db", VString "e")]], None),
          (main.terminatorBytes, [])).
Proof.
  refine (proj1 (@metadata_documents_in_stream_order demo.driver 3 _ main.terminatorBytes
            [[("db", VString "d"); ("metadata", VString "{}")]; [("db", VString "e")]]
            [] _ _ _ _)).
  - split; [vm_compute; lia|]. split; [vm_compute; discriminate|].
    exists (demo.document [demo.string_elem "db" "e"] ++ main.terminatorBytes)%list.
    split; [vm_compute; reflexivity|].
    split; [vm_compute; lia|]. split; [vm_compute; discriminate|].
    exists main.terminatorBytes. split; [vm_compute; reflexivity|]. reflexivity.
  - repeat constructor.
  - reflexivity.
  - cbn. lia.
Defined.

Lemma metadata_list_only_at_terminator_witness :
  exists docs,
    @stream.delivers demo.driver
      (demo.document [demo.string_elem "db" "d"] ++ main.terminatorBytes)%list
      docs main.terminatorBytes
    /\ Forall stream.well_typed docs
    /\ [[("db", VString "d")]] = @stream.walked demo.driver <$> docs
    /\ [] = ([] ++ concat (@stream.diagnostics demo.driver <$> docs))%list
    /\ (length docs < 2)%nat.
Proof.
  refine (proj2 (proj2 (@metadata_list_only_at_terminator demo.driver 2
            (demo.document [demo.string_elem "db" "d"] ++ main.terminatorBytes)%list
            main.terminatorBytes [] [] [[("db", VString "d")]] None _))).
  vm_compute. reflexivity.
Defined.

Lemma metadata_stream_without_terminator_witness :
  @main.getCollectionMetadata demo.driver 2
    (demo.document [demo.string_elem "db" "d"]) []
  = Some ((None,
           Some (Wrapped io_EOF "failed to check for end of collection metadata" [])),
          ([], [])).
Proof.
  refine (proj1 (proj1 (@metadata_stream_without_terminator demo.driver 2
            (demo.document [demo.string_elem "db" "d"]) [] [[("db", VString "d")]] []
            _ _ _) _)).
  - split; [vm_compute; lia|]. split; [vm_compute; discriminate|].
    exists []. split; [vm_compute; reflexivity|]. reflexivity.
  - repeat constructor.
  - cbn. lia.
  - cbn. lia.
Defined.

Lemma non_string_metadata_ends_without_error_witness :
  @main.getReport demo.driver 3
    (demo.magic ++ demo.document [demo.string_elem "version" "0.1"]
       ++ demo.document [demo.string_elem "db" "d"]
       ++ demo.document [demo.string_elem "db" "e"; demo.int32_elem "metadata" 7]
       ++ main.terminatorBytes)%list []
  = Some ((main.mkReport [("version", VString "0.1")] None, None),
          (main.terminatorBytes, [])).
Proof.
  refine (proj2 (@non_string_metadata_ends_without_error demo.driver 3
            (demo.document [demo.string_elem "db" "d"]
               ++ demo.document [demo.string_elem "db" "e"; demo.int32_elem "metadata" 7]
               ++ main.terminatorBytes)%list
            (demo.document [demo.string_elem "db" "e"; demo.int32_elem "metadata" 7]
               ++ main.terminatorBytes)%list
            main.terminatorBytes
            [[("db", VString "d")]] [("db", VString "e")] ("metadata", VInt32 7) [] []
            _ _ _ _ _ _ _ _ _)
            _
            (demo.document [demo.string_elem "version" "0.1"]
               ++ demo.document [demo.string_elem "db" "d"]
               ++ demo.document [demo.string_elem "db" "e"; demo.int32_elem "metadata" 7]
               ++ main.terminatorBytes)%list
            [("version", VString "0.1")] _ _).
  - split; [vm_compute; lia|]. split; [vm_compute; discriminate|].
    eexists. split; [vm_compute; reflexivity|]. reflexivity.
  - repeat constructor.
  - vm_compute. lia.
  - vm_compute. discriminate.
  - vm_compute. reflexivity.
  - repeat constructor.
  - reflexivity.
  - intros mdStr. discriminate.
  - cbn. lia.
  - vm_compute. reflexivity.
  - vm_compute. reflexivity.
Defined.

Lemma walker_changes_metadata_fields_only_witness :
  exists mdDoc mdDoc',
    @main.readBSON demo.driver
      (demo.document [demo.string_elem "db" "d"; demo.string_elem "metadata" "{}"]) []
    = ((mdDoc, None), [])
    /\ [[("db", VString "d"); ("metadata", VD [])]] = ([] ++ [mdDoc'])%list
    /\ mdDoc'.*1 = mdDoc.*1
    /\ forall i k v,
         mdDoc !! i = Some (k, v) ->
         (k <> "metadata" -> mdDoc' !! i = Some (k, v))
         /\ (k = "metadata" ->
               exists mdStr,
                 v = VString mdStr
                 /\ mdDoc' !! i
                    = Some (k, match @main.UnmarshalExtJSON demo.driver mdStr with
                               | (parsed, None) => VD parsed
                               | (_, Some _) => v
                               end)).
Proof.
  apply (@walker_changes_metadata_fields_only demo.driver
           (demo.document [demo.string_elem "db" "d"; demo.string_elem "metadata" "{}"])
           [] [] [] [] [[("db", VString "d"); ("metadata", VD [])]]).
  vm_compute. reflexivity.
Defined.

Lemma getReport_error_gives_empty_report_witness :
  [] `prefix_of` ([] : list main.output)
  /\ main.zeroReport = main.zeroReport
     /\ exists cause message,
          Wrapped (Wrapped io_EOF "failed to read BSON document" [])
            "failed to read archive header" []
          = Wrapped cause message []
          /\ message ∈ ["this does not appear to be a mongodump archive";
                        "failed to read archive header";
                        "failed to read collection metadata"].
Proof.
  apply (@getReport_error_gives_empty_report demo.driver 1 demo.magic []
           main.zeroReport
           (Some (Wrapped (Wrapped io_EOF "failed to read BSON document" [])
                    "failed to read archive header" []))
           ([], [])).
  vm_compute. reflexivity.
Defined.

Lemma short_input_fails_magic_check_witness :
  @main.getReport demo.driver 0 [x6d; xe2; x99] []
  = Some ((main.zeroReport,
           Some (Wrapped (Wrapped io_ErrUnexpectedEOF "failed to read archive magic bytes" [])
                   "this does not appear to be a mongodump archive" [])),
          ([], [])).
Proof.
  refine (proj1 (proj2 (@short_input_fails_magic_check demo.driver 0 [x6d; xe2; x99] [] _))).
  cbn. lia.
Defined.

(** ** [GetExtendedBsonD]: element by element *)

Section ExtendedDocuments.
Context `{!bsonutil.Libs}.
Import bsonutil.

(** One iteration of the loop of [GetExtendedBsonD] decodes the value of
    the element as [ParseLegacyExtJSONValue] does. *)
Lemma GetExtendedBsonD_loop_cons fuel (docElem : bson_E) (doc bsonDoc : bson_D) :
  GetExtendedBsonD_loop (ParseSpecialKeys fuel) (docElem :: doc) bsonDoc
  = match ParseLegacyExtJSONValue fuel (Value docElem) with
    | None => None
    | Some (_, Some err) => Some ([], Some err)
    | Some (bsonValue, None) =>
        GetExtendedBsonD_loop (ParseSpecialKeys fuel) doc
          (bsonDoc ++ [(Key docElem, bsonValue)])
    end.
Proof.
  cbn [GetExtendedBsonD_loop]. unfold ParseLegacyExtJSONValue.
  destruct (Value docElem); reflexivity.
Qed.

Lemma GetExtendedBsonD_loop_ok fuel (doc : bson_D) :
  forall bsonDoc out,
    GetExtendedBsonD_loop (ParseSpecialKeys fuel) doc bsonDoc = Some (out, None)
    <-> exists vals,
          out = (bsonDoc ++ vals)%list
          /\ Forall2 (fun e e' =>
                        Key e' = Key e
                        /\ ParseLegacyExtJSONValue fuel (Value e) = Some (Value e', None))
               doc vals.
Proof.
  induction doc as [|docElem doc IH]; intros bsonDoc out.
  - cbn [GetExtendedBsonD_loop]. split.
    + intros [= <-]. exists []. split; [now rewrite app_nil_r | constructor].
    + intros (vals & -> & Hvals). inversion Hvals; subst. now rewrite app_nil_r.
  - rewrite GetExtendedBsonD_loop_cons.
    destruct (ParseLegacyExtJSONValue fuel (Value docElem)) as [[bsonValue [err|]]|] eqn:Hdec.
    + split; [discriminate|]. intros (vals & _ & Hvals).
      inversion Hvals as [|? e' ? ? [_ He'] _]; subst. congruence.
    + rewrite IH. split.
      * intros (vals & -> & Hvals). exists ((Key docElem, bsonValue) :: vals). split.
        -- now rewrite <- app_assoc.
        -- constructor; [|exact Hvals]. split; [reflexivity | exact Hdec].
      * intros (vals & -> & Hvals).
        inversion Hvals as [|? [k' v'] ? vals' [Hk He'] Hrest]; subst.
        cbn [Key Value fst snd] in *. exists vals'. split; [|exact Hrest].
        rewrite <- app_assoc. cbn [app]. rewrite Hdec in He'. injection He' as <-.
        now rewrite Hk.
    + split; [discriminate|]. intros (vals & _ & Hvals).
      inversion Hvals as [|? e' ? ? [_ He'] _]; subst. congruence.
Qed.

Lemma GetExtendedBsonD_loop_err fuel (doc : bson_D) :
  forall bsonDoc out err,
    GetExtendedBsonD_loop (ParseSpecialKeys fuel) doc bsonDoc = Some (out, Some err)
    <-> out = []
        /\ exists done e rest x,
             doc = (done ++ e :: rest)%list
             /\ ParseLegacyExtJSONValue fuel (Value e) = Some (x, Some err)
             /\ Forall (fun e0 =>
                          exists y, ParseLegacyExtJSONValue fuel (Value e0) = Some (y, None))
                  done.
Proof.
  induction doc as [|docElem doc IH]; intros bsonDoc out err.
  - cbn [GetExtendedBsonD_loop]. split; [discriminate|].
    intros (_ & done & e & rest & x & Hdoc & _). now destruct done.
  - rewrite GetExtendedBsonD_loop_cons.
    destruct (ParseLegacyExtJSONValue fuel (Value docElem)) as [[bsonValue [err0|]]|] eqn:Hdec.
    + split.
      * intros [= <- <-]. split; [reflexivity|].
        exists [], docElem, doc, bsonValue. repeat split; [exact Hdec | constructor].
      * intros (-> & done & e & rest & x & Hdoc & He & Hdone).
        destruct done as [|e0 done]; cbn [app] in Hdoc; injection Hdoc as <- ->.
        -- congruence.
        -- inversion Hdone as [|? ? [y Hy] _]; subst. congruence.
    + rewrite IH. split.
      * intros (-> & done & e & rest & x & -> & He & Hdone). split; [reflexivity|].
        exists (docElem :: done), e, rest, x. repeat split; [exact He|].
        constructor; [now exists bsonValue | exact Hdone].
      * intros (-> & done & e & rest & x & Hdoc & He & Hdone). split; [reflexivity|].
        destruct done as [|e0 done]; cbn [app] in Hdoc; injection Hdoc as <- ->.
        -- congruence.
        -- inversion Hdone; subst. now exists done, e, rest, x.
    + split; [discriminate|].
      intros (-> & done & e & rest & x & Hdoc & He & Hdone).
      destruct done as [|e0 done]; cbn [app] in Hdoc; injection Hdoc as <- ->.
      * congruence.
      * inversion Hdone as [|? ? [y Hy] _]; subst. congruence.
Qed.

(** X8: [GetExtendedBsonD] succeeds with a document exactly when that
    document has, element by element, the key of the input and the value
    that [ParseLegacyExtJSONValue] decodes the input's value to without
    an error; so it keeps the number, the keys and the order of the
    elements. *)
Theorem GetExtendedBsonD_decodes_each_value (fuel : nat) (doc out : bson_D) :
  (GetExtendedBsonD fuel doc = Some (out, None)
   <-> Forall2 (fun e e' =>
                  Key e' = Key e
                  /\ ParseLegacyExtJSONValue fuel (Value e) = Some (Value e', None))
         doc out)
  /\ (GetExtendedBsonD fuel doc = Some (out, None) ->
        length out = length doc /\ out.*1 = doc.*1).
Proof.
  assert (Hiff : GetExtendedBsonD fuel doc = Some (out, None)
                 <-> Forall2 (fun e e' =>
                                Key e' = Key e
                                /\ ParseLegacyExtJSONValue fuel (Value e)
                                   = Some (Value e', None))
                       doc out).
  { unfold GetExtendedBsonD. rewrite GetExtendedBsonD_loop_ok. cbn [app]. split.
    - now intros (vals & -> & Hvals).
    - intros Hvals. now exists out. }
  split; [exact Hiff|]. intros Hok. apply Hiff in Hok. split.
  - symmetry. exact (Forall2_length _ _ _ Hok).
  - clear Hiff. induction Hok as [|e e' doc out [Hk _] _ IH]; [reflexivity|].
    cbn [fmap list_fmap]. unfold Key in Hk. now rewrite Hk, IH.
Qed.

(** X9: [GetExtendedBsonD] returns an error exactly when some element
    fails to decode after elements that all decode; the error is that of
    this first failing element, the document returned with it is [nil],
    and no element after it is looked at. *)
Theorem GetExtendedBsonD_first_error (fuel : nat) (doc out : bson_D) (err : error) :
  GetExtendedBsonD fuel doc = Some (out, Some err)
  <-> out = []
      /\ exists done e rest x,
           doc = (done ++ e :: rest)%list
           /\ ParseLegacyExtJSONValue fuel (Value e) = Some (x, Some err)
           /\ Forall (fun e0 =>
                        exists y, ParseLegacyExtJSONValue fuel (Value e0) = Some (y, None))
                done.
Proof. unfold GetExtendedBsonD. apply GetExtendedBsonD_loop_err. Qed.

End ExtendedDocuments.

(** ** Lookup and removal by key in an ordered document *)

Section FindByKey.
Import bsonutil.

Lemma FindValueByKey_first (k : string) (pre : bson_D) v (post : bson_D) :
  k ∉ pre.*1 -> FindValueByKey k (pre ++ (k, v) :: post) = (v, None).
Proof.
  induction pre as [|[k0 v0] pre IH]; intros Hk; cbn [app FindValueByKey Key Value fst snd].
  - now rewrite String.eqb_refl.
  - cbn [fmap list_fmap fst] in Hk. apply not_elem_of_cons in Hk as [Hne Hk].
    assert (Hneq : (k0 =? k)%string = false) by (apply String.eqb_neq; congruence).
    rewrite Hneq. now apply IH.
Qed.

Lemma FindValueByKey_absent (k : string) (d : bson_D) :
  k ∉ d.*1 -> FindValueByKey k d = (VNil, Some ErrNoSuchField).
Proof.
  induction d as [|[k0 v0] d IH]; intros Hk; cbn [FindValueByKey Key Value fst snd];
    [reflexivity|].
  cbn [fmap list_fmap fst] in Hk. apply not_elem_of_cons in Hk as [Hne Hk].
  assert (Hneq : (k0 =? k)%string = false) by (apply String.eqb_neq; congruence).
  rewrite Hneq. now apply IH.
Qed.

(** A key of the document has a first element. *)
Lemma first_occurrence (k : string) (d : bson_D) :
  k ∈ d.*1 -> exists pre v post, d = (pre ++ (k, v) :: post)%list /\ k ∉ pre.*1.
Proof.
  induction d as [|[k0 v0] d IH]; intros Hk; [now apply elem_of_nil in Hk|].
  destruct (decide (k0 = k)) as [->|Hne].
  - exists [], v0, d. split; [reflexivity|]. apply not_elem_of_nil.
  - cbn [fmap list_fmap fst] in Hk. apply elem_of_cons in Hk as [Heq|Hk]; [congruence|].
    destruct (IH Hk) as (pre & v & post & -> & Hpre).
    exists ((k0, v0) :: pre), v, post. split; [reflexivity|].
    cbn [fmap list_fmap fst]. apply not_elem_of_cons. split; [congruence | exact Hpre].
Qed.

Lemma FindValueByKey_other (k k' : string) (pre : bson_D) v (post : bson_D) :
  k' <> k ->
  FindValueByKey k' (pre ++ (k, v) :: post) = FindValueByKey k' (pre ++ post).
Proof.
  intros Hne. induction pre as [|[k0 v0] pre IH]; cbn [app FindValueByKey Key Value fst snd].
  - assert (Hneq : (k =? k')%string = false) by (apply String.eqb_neq; congruence).
    now rewrite Hneq.
  - destruct (k0 =? k')%string; [reflexivity | exact IH].
Qed.

(** X10: [FindValueByKey] returns the value of the first element with
    the key, whatever follows it, and [ErrNoSuchField] with a [nil] value
    exactly when no element has the key. *)
Theorem FindValueByKey_first_occurrence (k : string) (d : bson_D) :
  (forall pre v post,
     d = (pre ++ (k, v) :: post)%list -> k ∉ pre.*1 -> FindValueByKey k d = (v, None))
  /\ (k ∉ d.*1 <-> FindValueByKey k d = (VNil, Some ErrNoSuchField))
  /\ (k ∈ d.*1 <-> (FindValueByKey k d).2 = None).
Proof.
  split; [|split].
  - intros pre v post -> Hpre. now apply FindValueByKey_first.
  - split; [apply FindValueByKey_absent|].
    intros Hfind Hk. destruct (first_occurrence k d Hk) as (pre & v & post & -> & Hpre).
    rewrite (FindValueByKey_first k pre v post Hpre) in Hfind. discriminate.
  - split.
    + intros Hk. destruct (first_occurrence k d Hk) as (pre & v & post & -> & Hpre).
      now rewrite (FindValueByKey_first k pre v post Hpre).
    + intros Hfind. destruct (decide (k ∈ d.*1)) as [Hk|Hk]; [exact Hk|].
      rewrite (FindValueByKey_absent k d Hk) in Hfind. discriminate.
Qed.

(** X11: the first element wins in [FindValueByKey] and the last in the
    map of the document that [ParseSpecialKeys] looks keys up in: the two
    agree on a document whose keys are distinct, and in general
    [FindValueByKey] is the lookup in the map of the reversed document. *)
Theorem FindValueByKey_and_Map (k : string) (d : bson_D) :
  let found (m : bson_M) :=
    match m !! k with
    | Some v => (v, None)
    | None => (VNil, Some ErrNoSuchField)
    end in
  FindValueByKey k d = found (Map (reverse d))
  /\ (NoDup d.*1 -> FindValueByKey k d = found (Map d))
  /\ (forall v1 v2,
        v1 <> v2 ->
        FindValueByKey k [(k, v1); (k, v2)] = (v1, None)
        /\ Map [(k, v1); (k, v2)] !! k = Some v2).
Proof.
  intros found. subst found. cbv beta.
  destruct (decide (k ∈ d.*1)) as [Hk|Hk].
  - destruct (first_occurrence k d Hk) as (pre & v & post & -> & Hpre).
    rewrite (FindValueByKey_first k pre v post Hpre). split; [|split].
    + rewrite reverse_app, reverse_cons, <- app_assoc. cbn [app].
      rewrite Map_lookup_last; [reflexivity|].
      rewrite fmap_reverse. now rewrite elem_of_reverse.
    + intros Hnodup. rewrite Map_lookup_last; [reflexivity|].
      rewrite fmap_app in Hnodup. apply NoDup_app in Hnodup as (_ & _ & Hpost).
      cbn [fmap list_fmap fst] in Hpost. now apply NoDup_cons in Hpost as [Hpost _].
    + intros v1 v2 _. split.
      * cbn [FindValueByKey Key Value fst]. now rewrite String.eqb_refl.
      * exact (Map_lookup_last [(k, v1)] [] k v2 (not_elem_of_nil _)).
  - rewrite (FindValueByKey_absent k d Hk). split; [|split].
    + assert (Hrev : Map (reverse d) !! k = None).
      { apply Map_lookup_None. rewrite fmap_reverse. now rewrite elem_of_reverse. }
      now rewrite Hrev.
    + intros _. apply Map_lookup_None in Hk. now rewrite Hk.
    + intros v1 v2 _. split.
      * cbn [FindValueByKey Key Value fst]. now rewrite String.eqb_refl.
      * exact (Map_lookup_last [(k, v1)] [] k v2 (not_elem_of_nil _)).
Qed.

(** X12: [FindStringValueByKey] returns a string exactly when the first
    element with the key holds that string, and [FindSubdocumentByKey] a
    document exactly when this element holds that ordered document: a
    value of another type there is an error, also when a later element
    with the key has the type, and a missing key is [ErrNoSuchField]. *)
Theorem typed_lookup_reads_first_occurrence (k : string) (d : bson_D) :
  (forall s,
     FindStringValueByKey k d = (s, None)
     <-> exists pre post, d = (pre ++ (k, VString s) :: post)%list /\ k ∉ pre.*1)
  /\ (forall sub,
        FindSubdocumentByKey k d = (sub, None)
        <-> exists pre post, d = (pre ++ (k, VD sub) :: post)%list /\ k ∉ pre.*1)
  /\ (k ∉ d.*1 ->
        FindStringValueByKey k d = (EmptyString, Some ErrNoSuchField)
        /\ FindSubdocumentByKey k d = ([], Some ErrNoSuchField))
  /\ (forall pre v post,
        d = (pre ++ (k, v) :: post)%list -> k ∉ pre.*1 ->
        ((forall s, v <> VString s) ->
           FindStringValueByKey k d
           = (EmptyString,
              Some (fmt_Errorf "field present, but is not a string: %v" [ArgValue v])))
        /\ ((forall sub, v <> VD sub) ->
              FindSubdocumentByKey k d
              = ([], Some (fmt_Errorf "field '%s' is not a document" [ArgString k])))).
Proof.
  split; [|split; [|split]].
  - intros s. unfold FindStringValueByKey. split.
    + destruct (decide (k ∈ d.*1)) as [Hk|Hk].
      * destruct (first_occurrence k d Hk) as (pre & v & post & -> & Hpre).
        rewrite (FindValueByKey_first k pre v post Hpre).
        destruct v; try discriminate. intros [= ->]. now exists pre, post.
      * rewrite (FindValueByKey_absent k d Hk). discriminate.
    + intros (pre & post & -> & Hpre). now rewrite (FindValueByKey_first k pre _ post Hpre).
  - intros sub. unfold FindSubdocumentByKey. split.
    + destruct (decide (k ∈ d.*1)) as [Hk|Hk].
      * destruct (first_occurrence k d Hk) as (pre & v & post & -> & Hpre).
        rewrite (FindValueByKey_first k pre v post Hpre).
        destruct v; try discriminate. intros [= ->]. now exists pre, post.
      * rewrite (FindValueByKey_absent k d Hk). discriminate.
    + intros (pre & post & -> & Hpre). now rewrite (FindValueByKey_first k pre _ post Hpre).
  - intros Hk. unfold FindStringValueByKey, FindSubdocumentByKey.
    now rewrite (FindValueByKey_absent k d Hk).
  - intros pre v post -> Hpre. unfold FindStringValueByKey, FindSubdocumentByKey.
    rewrite (FindValueByKey_first k pre v post Hpre). split.
    + intros Hv. destruct v; try reflexivity. now destruct (Hv s).
    + intros Hv. destruct v; try reflexivity. now destruct (Hv d).
Qed.

Lemma RemoveKey_range_absent (k : string) (doc elems : bson_D) (i : nat) :
  k ∉ elems.*1 -> RemoveKey_range k doc i elems = ((VNil, false), doc).
Proof.
  revert i. induction elems as [|[k0 v0] elems IH]; intros i Hk;
    cbn [RemoveKey_range Key Value fst snd]; [reflexivity|].
  cbn [fmap list_fmap fst] in Hk. apply not_elem_of_cons in Hk as [Hne Hk].
  assert (Hneq : (k0 =? k)%string = false) by (apply String.eqb_neq; congruence).
  rewrite Hneq. now apply IH.
Qed.

Lemma RemoveKey_range_first (k : string) (pre : bson_D) v (post : bson_D) :
  k ∉ pre.*1 ->
  forall done : bson_D,
    RemoveKey_range k (done ++ pre ++ (k, v) :: post) (length done) (pre ++ (k, v) :: post)
    = ((v, true), (done ++ pre ++ post)%list).
Proof.
  induction pre as [|[k0 v0] pre IH]; intros Hk done;
    cbn [app RemoveKey_range Key Value fst snd].
  - rewrite String.eqb_refl. f_equal.
    rewrite take_app_length. f_equal.
    rewrite (cons_middle (k, v) done post), app_assoc.
    replace (S (length done)) with (length (done ++ [(k, v)])%list)
      by (rewrite length_app; cbn; lia).
    apply drop_app_length.
  - cbn [fmap list_fmap fst] in Hk. apply not_elem_of_cons in Hk as [Hne Hk].
    assert (Hneq : (k0 =? k)%string = false) by (apply String.eqb_neq; congruence).
    rewrite Hneq. specialize (IH Hk (done ++ [(k0, v0)])%list).
    replace (length (done ++ [(k0, v0)])%list) with (S (length done)) in IH
      by (rewrite length_app; cbn; lia).
    rewrite <- !app_assoc in IH. exact IH.
Qed.

Lemma RemoveKey_absent (k : string) (d : bson_D) :
  k ∉ d.*1 -> RemoveKey k (Some d) = ((VNil, false), Some d).
Proof. intros Hk. unfold RemoveKey. now rewrite (RemoveKey_range_absent k d d 0 Hk). Qed.

Lemma RemoveKey_first (k : string) (pre : bson_D) v (post : bson_D) :
  k ∉ pre.*1 ->
  RemoveKey k (Some (pre ++ (k, v) :: post)%list) = ((v, true), Some (pre ++ post)%list).
Proof.
  intros Hk. unfold RemoveKey.
  pose proof (RemoveKey_range_first k pre v post Hk []) as Hrange.
  cbn [app length] in Hrange. now rewrite Hrange.
Qed.

(** X13: [RemoveKey] removes the first element with the key and nothing
    else, returning its value and [true]; a document without the key is
    left as it is, and so is the [nil] pointer, with a [nil] value and
    [false]. *)
Theorem RemoveKey_removes_first_occurrence (k : string) (d : bson_D) :
  RemoveKey k None = ((VNil, false), None)
  /\ (k ∉ d.*1 -> RemoveKey k (Some d) = ((VNil, false), Some d))
  /\ (forall pre v post,
        d = (pre ++ (k, v) :: post)%list -> k ∉ pre.*1 ->
        RemoveKey k (Some d) = ((v, true), Some (pre ++ post)%list))
  /\ (k ∈ d.*1 <-> (RemoveKey k (Some d)).1.2 = true).
Proof.
  split; [reflexivity|]. split; [apply RemoveKey_absent|]. split.
  - intros pre v post -> Hpre. now apply RemoveKey_first.
  - split.
    + intros Hk. destruct (first_occurrence k d Hk) as (pre & v & post & -> & Hpre).
      now rewrite (RemoveKey_first k pre v post Hpre).
    + intros Hrem. destruct (decide (k ∈ d.*1)) as [Hk|Hk]; [exact Hk|].
      rewrite (RemoveKey_absent k d Hk) in Hrem. discriminate.
Qed.

(** X14: [RemoveKey] and [FindValueByKey] on the same document: the value
    removed is the value found, [true] is returned exactly when the
    lookup has no error, the lookup of every other key is the same in the
    document after the call, which is one element shorter when the key
    was found, and the key itself is gone afterwards when the keys of the
    document were distinct (otherwise its next element is found). *)
Theorem RemoveKey_then_FindValueByKey (k : string) (d d' : bson_D) (removed : value)
    (ok : bool) :
  RemoveKey k (Some d) = ((removed, ok), Some d') ->
  removed = (FindValueByKey k d).1
  /\ (ok = true <-> (FindValueByKey k d).2 = None)
  /\ (forall k', k' <> k -> FindValueByKey k' d' = FindValueByKey k' d)
  /\ length d' = (length d - (if ok then 1 else 0))%nat
  /\ (NoDup d.*1 -> FindValueByKey k d' = (VNil, Some ErrNoSuchField))
  /\ (forall pre v post,
        d = (pre ++ (k, v) :: post)%list -> k ∉ pre.*1 ->
        FindValueByKey k d' = FindValueByKey k post).
Proof.
  destruct (decide (k ∈ d.*1)) as [Hk|Hk].
  - destruct (first_occurrence k d Hk) as (pre & v & post & -> & Hpre).
    rewrite (RemoveKey_first k pre v post Hpre). intros [= <- <- <-].
    rewrite (FindValueByKey_first k pre v post Hpre).
    assert (Hskip : forall post', FindValueByKey k (pre ++ post') = FindValueByKey k post').
    { intros post'. clear Hk. induction pre as [|[k0 v0] pre IH]; [reflexivity|].
      cbn [fmap list_fmap fst] in Hpre. apply not_elem_of_cons in Hpre as [Hne Hpre].
      cbn [app FindValueByKey Key Value fst snd].
      assert (Hneq : (k0 =? k)%string = false) by (apply String.eqb_neq; congruence).
      rewrite Hneq. now apply IH. }
    split; [reflexivity|]. split; [now split|]. split; [|split; [|split]].
    + intros k' Hne. symmetry. now apply FindValueByKey_other.
    + rewrite !length_app. cbn [length]. lia.
    + intros Hnodup. rewrite Hskip. apply FindValueByKey_absent.
      rewrite fmap_app in Hnodup. apply NoDup_app in Hnodup as (_ & _ & Hpost).
      cbn [fmap list_fmap fst] in Hpost. now apply NoDup_cons in Hpost as [Hpost _].
    + intros pre' v' post' Heq Hpre'. rewrite Hskip.
      assert (Hsame : pre' = pre /\ post' = post).
      { clear Hk Hskip. revert pre' Heq Hpre'.
        induction pre as [|[k0 v0] pre IH]; intros pre' Heq Hpre'.
        - destruct pre' as [|[k1 v1] pre']; cbn [app] in Heq.
          + injection Heq as _ <-. now split.
          + injection Heq as <- _ _. exfalso. apply Hpre'. cbn. apply elem_of_cons. now left.
        - cbn [fmap list_fmap fst] in Hpre. apply not_elem_of_cons in Hpre as [Hne Hpre].
          destruct pre' as [|[k1 v1] pre']; cbn [app] in Heq.
          + injection Heq as -> _ _. congruence.
          + injection Heq as -> -> Heq.
            cbn [fmap list_fmap fst] in Hpre'. apply not_elem_of_cons in Hpre' as [_ Hpre'].
            destruct (IH Hpre pre' Heq Hpre') as [-> ->]. now split. }
      now destruct Hsame as [_ ->].
  - rewrite (RemoveKey_absent k d Hk). intros [= <- <- <-].
    rewrite (FindValueByKey_absent k d Hk).
    split; [reflexivity|]. split; [split; discriminate|]. split; [reflexivity|].
    split; [cbn; lia|]. split; [reflexivity|].
    intros pre v post -> _. exfalso. apply Hk. rewrite fmap_app. apply elem_of_app. right.
    cbn. apply elem_of_cons. now left.
Qed.

(** ** [MtoD]: a map as an ordered document *)

Lemma MtoD_entries (entries : list (string * value)) : MtoD entries = entries.
Proof.
  unfold MtoD. induction entries as [|[k v] entries IH] using rev_ind; [reflexivity|].
  now rewrite foldl_snoc, IH.
Qed.

(** X15: for every order in which the range over the map produces its
    entries, the document [MtoD] builds has one element for each key of
    the map, no key twice, its map is the map it was built from, and
    [FindValueByKey] finds in it what the map holds. *)
Theorem MtoD_round_trip (m : bson_M) (entries : list (string * value)) :
  entries ≡ₚ map_to_list m ->
  length (MtoD entries) = size m
  /\ NoDup (MtoD entries).*1
  /\ Map (MtoD entries) = m
  /\ forall k,
       FindValueByKey k (MtoD entries)
       = match m !! k with
         | Some v => (v, None)
         | None => (VNil, Some ErrNoSuchField)
         end.
Proof.
  intros Hperm. rewrite MtoD_entries.
  assert (Hnodup : NoDup entries.*1).
  { rewrite Hperm. apply NoDup_fst_map_to_list. }
  assert (Hin : forall k v, (k, v) ∈ entries <-> m !! k = Some v).
  { intros k v. rewrite Hperm. apply elem_of_map_to_list. }
  assert (Hmap : Map entries = m).
  { apply map_eq. intros k. destruct (m !! k) as [v|] eqn:Hk.
    - apply Hin in Hk. apply list_elem_of_split in Hk as (d1 & d2 & ->).
      apply Map_lookup_last. rewrite fmap_app in Hnodup.
      apply NoDup_app in Hnodup as (_ & _ & Hpost).
      cbn [fmap list_fmap fst] in Hpost. now apply NoDup_cons in Hpost as [Hpost _].
    - apply Map_lookup_None. intros Hkey. apply list_elem_of_fmap in Hkey as ([k' v] & -> & He).
      apply Hin in He. cbn [fst] in Hk. congruence. }
  split; [|split; [exact Hnodup | split; [exact Hmap|]]].
  - rewrite Hperm. apply length_map_to_list.
  - intros k. rewrite <- Hmap at 1.
    destruct (decide (k ∈ entries.*1)) as [Hk|Hk].
    + destruct (first_occurrence k entries Hk) as (pre & v & post & -> & Hpre).
      rewrite (FindValueByKey_first k pre v post Hpre).
      rewrite Map_lookup_last; [reflexivity|].
      rewrite fmap_app in Hnodup. apply NoDup_app in Hnodup as (_ & _ & Hpost).
      cbn [fmap list_fmap fst] in Hpost. now apply NoDup_cons in Hpost as [Hpost _].
    + rewrite (FindValueByKey_absent k entries Hk).
      apply Map_lookup_None in Hk. now rewrite Hk.
Qed.

End FindByKey.

(** ** [strconv.ParseInt]: the result fits the width *)

Section ParseIntBounds.
Import strconv.

Lemma digits_bounds fn s0 base base0 cutoff maxVal s :
  0 <= maxVal ->
  forall n u,
    0 <= n <= maxVal ->
    match digits fn s0 base base0 cutoff maxVal s n u with
    | inl (v, _) => 0 <= v <= maxVal
    | inr (v, _) => 0 <= v <= maxVal
    end.
Proof.
  intros Hmax. induction s as [|ch s IH]; intros n u Hn; cbn [digits]; [exact Hn|].
  destruct ((code ch =? code "_") && base0); [now apply IH|].
  destruct (digit_of (code ch)) as [d|]; [|lia].
  destruct (base <=? d); [lia|].
  destruct (cutoff <=? n); [lia|].
  destruct (Z.ltb_spec (wrap_uint64 (wrap_uint64 (n * base) + d)) (wrap_uint64 (n * base)));
    cbn [orb]; [lia|].
  destruct (Z.ltb_spec maxVal (wrap_uint64 (wrap_uint64 (n * base) + d))); [lia|].
  apply IH. split; [|lia]. unfold wrap_uint64. apply Z.mod_pos_bound. lia.
Qed.

Lemma ParseUint_bounds s base w :
  (w = 32 \/ w = 64) -> 0 <= (ParseUint s base w).1 <= 2 ^ w - 1.
Proof.
  intros Hw.
  assert (Hpos : 0 <= 2 ^ w - 1) by (destruct Hw as [-> | ->]; lia).
  unfold ParseUint. destruct s as [|c rest]; [cbn; lia|].
  destruct (if (2 <=? base) && (base <=? 36) then Some (base, String c rest)
            else if base =? 0 then Some (detect_base (String c rest)) else None)
    as [[base' s']|]; [|cbn; lia].
  assert (Hbits : (w <? 0) || (64 <? w) = false) by (destruct Hw as [-> | ->]; reflexivity).
  rewrite Hbits.
  assert (Hw0 : (if w =? 0 then IntSize else w) = w) by (destruct Hw as [-> | ->]; reflexivity).
  rewrite Hw0.
  pose proof (digits_bounds fnParseUint (String c rest) base' (base =? 0)
                (maxUint64 / base' + 1) (2 ^ w - 1) s' Hpos 0 false ltac:(lia)) as Hd.
  destruct (digits _ _ _ _ _ _ s' 0 false) as [[v e]|[v u]]; cbn [fst]; [exact Hd|].
  destruct (u && negb (underscoreOK (String c rest))); cbn [fst]; [lia | exact Hd].
Qed.

Lemma after_ParseUint_bounds s0 (neg : bool) un w :
  (w = 32 \/ w = 64) -> 0 <= un <= 2 ^ w - 1 ->
  let r := after_ParseUint s0 neg un w in
  - 2 ^ (w - 1) <= r.1 < 2 ^ (w - 1)
  /\ (r.2 <> None -> r.1 = 2 ^ (w - 1) - 1 \/ r.1 = - 2 ^ (w - 1)).
Proof.
  intros Hw Hun r. subst r.
  pose proof (after_ParseUint_spec s0 neg un w Hw ltac:(lia)) as Hspec. cbv zeta in Hspec.
  destruct (Z.leb_spec un (2 ^ w - 1)) as [_|]; [|lia]. rewrite Hspec.
  destruct (spec.in_range w (if neg then - un else un)) eqn:Hin; cbn [fst snd].
  - unfold spec.in_range in Hin. apply andb_true_iff in Hin as [Hlo Hhi].
    apply Z.leb_le in Hlo. apply Z.ltb_lt in Hhi. split; [lia | congruence].
  - split; [apply saturate_in_range; exact Hw|]. intros _. unfold spec.saturate.
    destruct (_ <? 0); [right | left]; reflexivity.
Qed.

(** The value [ParseInt] returns fits [bitSize] bits, with or without an
    error; with an error it is zero or a bound of the width. *)
Lemma ParseInt_bounds s base w :
  (w = 32 \/ w = 64) ->
  let r := ParseInt s base w in
  - 2 ^ (w - 1) <= r.1 < 2 ^ (w - 1)
  /\ (r.2 <> None -> r.1 = 0 \/ r.1 = 2 ^ (w - 1) - 1 \/ r.1 = - 2 ^ (w - 1)).
Proof.
  intros Hw r. subst r.
  assert (Hzero : - 2 ^ (w - 1) <= 0 < 2 ^ (w - 1)) by (destruct Hw as [-> | ->]; lia).
  unfold ParseInt. destruct s as [|c rest]; [cbn; split; [lia | now left]|].
  assert (Hgen : forall (neg : bool) u,
            let r := (let '(un, err) := ParseUint u base w in
                      match err with
                      | Some (mkNumError _ _ e) =>
                          if negb (is_ErrRange e)
                          then (0, Some (mkNumError fnParseInt (String c rest) e))
                          else after_ParseUint (String c rest) neg un w
                      | None => after_ParseUint (String c rest) neg un w
                      end) in
            - 2 ^ (w - 1) <= r.1 < 2 ^ (w - 1)
            /\ (r.2 <> None -> r.1 = 0 \/ r.1 = 2 ^ (w - 1) - 1 \/ r.1 = - 2 ^ (w - 1))).
  { intros neg u. pose proof (ParseUint_bounds u base w Hw) as Hu.
    destruct (ParseUint u base w) as [un err]. cbn [fst] in Hu.
    pose proof (after_ParseUint_bounds (String c rest) neg un w Hw Hu) as [Hb He].
    assert (Hafter : - 2 ^ (w - 1) <= (after_ParseUint (String c rest) neg un w).1
                       < 2 ^ (w - 1)
                     /\ ((after_ParseUint (String c rest) neg un w).2 <> None ->
                         (after_ParseUint (String c rest) neg un w).1 = 0
                         \/ (after_ParseUint (String c rest) neg un w).1 = 2 ^ (w - 1) - 1
                         \/ (after_ParseUint (String c rest) neg un w).1 = - 2 ^ (w - 1))).
    { split; [exact Hb|]. intros Hne. right. now apply He. }
    destruct err as [[f num e]|]; [|exact Hafter].
    destruct (is_ErrRange e); cbn [negb]; [exact Hafter|].
    cbn [fst snd]. split; [lia | now left]. }
  destruct (code c =? code "+"); [apply Hgen|].
  destruct (code c =? code "-"); apply Hgen.
Qed.

End ParseIntBounds.

(** ** [ParseSpecialKeys]: the special forms at their edges *)

Section SpecialForms.
Context `{!bsonutil.Libs}.
Import bsonutil.

Lemma ParseSpecialKeys_singleton fuel special k payload r :
  as_document special = Some {[ k := payload ]} ->
  single_field {[ k := payload ]} = Returns r ->
  ParseSpecialKeys (S fuel) special = Some r.
Proof.
  intros Hdoc Hr.
  exact (ParseSpecialKeys_single fuel special _ r Hdoc (map_size_singleton _ _) Hr).
Qed.

(** X16: the value decoded for [$numberInt] and [$numberLong] from a
    string is the one [strconv.ParseInt] returns, for every string: it
    fits 32 (respectively 64) bits, so the conversion to [int32] loses
    nothing, and when an error comes with it, it is zero or a bound of
    the width. *)
Theorem number_fields_stay_in_range (fuel : nat) (special : value) (s : string) :
  (as_document special = Some {[ "$numberInt" := VString s ]} ->
     exists n,
       ParseSpecialKeys (S fuel) special
       = Some (VInt32 n, NumError <$> (strconv.ParseInt s 0 32).2)
       /\ n = (strconv.ParseInt s 0 32).1
       /\ - 2 ^ 31 <= n < 2 ^ 31
       /\ ((strconv.ParseInt s 0 32).2 <> None ->
             n = 0 \/ n = 2 ^ 31 - 1 \/ n = - 2 ^ 31))
  /\ (as_document special = Some {[ "$numberLong" := VString s ]} ->
        exists n,
          ParseSpecialKeys (S fuel) special
          = Some (VInt64 n, NumError <$> (strconv.ParseInt s 0 64).2)
          /\ n = (strconv.ParseInt s 0 64).1
          /\ - 2 ^ 63 <= n < 2 ^ 63
          /\ ((strconv.ParseInt s 0 64).2 <> None ->
                n = 0 \/ n = 2 ^ 63 - 1 \/ n = - 2 ^ 63)).
Proof.
  split; intros Hdoc.
  - pose proof (ParseInt_bounds s 0 32 (or_introl eq_refl)) as [Hb He]. cbv zeta in *.
    change (2 ^ (32 - 1)) with (2 ^ 31) in *.
    exists (strconv.ParseInt s 0 32).1. split; [|split; [reflexivity | split; assumption]].
    rewrite (ParseSpecialKeys_singleton fuel special _ _ _ Hdoc (single_numberInt _)).
    unfold numberInt_field. destruct (strconv.ParseInt s 0 32) as [n err]. cbn [fst snd] in *.
    now rewrite wrap_int32_small by exact Hb.
  - pose proof (ParseInt_bounds s 0 64 (or_intror eq_refl)) as [Hb He]. cbv zeta in *.
    change (2 ^ (64 - 1)) with (2 ^ 63) in *.
    exists (strconv.ParseInt s 0 64).1. split; [|split; [reflexivity | split; assumption]].
    rewrite (ParseSpecialKeys_singleton fuel special _ _ _ Hdoc (single_numberLong _)).
    unfold numberLong_field, parseNumberLongField, lift_err.
    now destruct (strconv.ParseInt s 0 64) as [n err].
Qed.

(** X17: in a document of two fields, [$code] needs [$scope], [$regex]
    needs [$options] and [$binary] needs [$type]: without its partner
    the document is an error, and a two-field document with one of the
    three keys is never decoded as an ordinary document: what it decodes
    to without an error is code with scope, a regular expression or
    binary data. *)
Theorem two_field_forms_need_their_partner (fuel : nat) (special : value) (doc : bson_M) :
  as_document special = Some doc ->
  size doc = 2%nat ->
  (forall c,
     doc !! "$code" = Some (VString c) -> doc !! "$scope" = None ->
     ParseSpecialKeys (S fuel) special
     = Some (VNil, Some (errors_New "expected $scope field with $code field")))
  /\ (forall p,
        doc !! "$code" = None -> doc !! "$regex" = Some (VString p) ->
        doc !! "$options" = None ->
        ParseSpecialKeys (S fuel) special
        = Some (VNil, Some (errors_New "expected $options field with $regex field")))
  /\ (forall b bytes,
        doc !! "$code" = None -> doc !! "$regex" = None ->
        doc !! "$binary" = Some (VString b) ->
        base64_DecodeString b = (bytes, None) ->
        doc !! "$type" = None ->
        ParseSpecialKeys (S fuel) special
        = Some (VNil, Some (errors_New "expected $type field with $binary field")))
  /\ (is_Some (doc !! "$code") \/ is_Some (doc !! "$regex") \/ is_Some (doc !! "$binary") ->
      forall v,
        ParseSpecialKeys (S fuel) special = Some (v, None) ->
        match v with
        | VCodeWithScope _ _ | VRegex _ _ | VBinary _ _ => True
        | _ => False
        end).
Proof.
  intros Hdoc Hsize. rewrite (ParseSpecialKeys_double fuel special doc Hdoc Hsize).
  unfold double_field. split; [|split; [|split]].
  - intros c Hcode Hscope. rewrite Hcode. unfold code_scope_fields. now rewrite Hscope.
  - intros p Hcode Hregex Hoptions. rewrite Hcode, Hregex. unfold regex_fields.
    now rewrite Hoptions.
  - intros b bytes Hcode Hregex Hbinary Hdecode Htype. rewrite Hcode, Hregex, Hbinary.
    unfold binary_fields. now rewrite Hdecode, Htype.
  - intros Hkey v.
    destruct (doc !! "$code") as [c|].
    { unfold code_scope_fields. destruct c; try discriminate.
      destruct (doc !! "$scope") as [scope|]; [|discriminate].
      destruct scope; try discriminate;
        (destruct (ParseSpecialKeys fuel _) as [[x [e|]]|]; [discriminate| |discriminate]);
        now intros [= <-]. }
    destruct (doc !! "$regex") as [r|].
    { unfold regex_fields. destruct r; try discriminate.
      destruct (doc !! "$options") as [o|]; [|discriminate].
      destruct o; try discriminate.
      destruct (validate_options 0 _); [discriminate|]. now intros [= <-]. }
    destruct (doc !! "$binary") as [b|].
    { unfold binary_fields. destruct b; try discriminate.
      destruct (base64_DecodeString _) as [bytes [e|]]; [discriminate|].
      destruct (doc !! "$type") as [t|]; [|discriminate].
      destruct t; try discriminate.
      destruct (hex.DecodeString _) as [kind [e|]]; [discriminate|].
      destruct kind as [|k0 [|k1 kind]]; try discriminate. now intros [= <-]. }
    destruct Hkey as [[? [=]] | [[? [=]] | [? [=]]]].
Qed.

(** X18: the special keys count only in documents of one or two fields.
    A document with no field, with more than two distinct keys, or with
    two keys none of which is [$code], [$regex] or [$binary], is an
    ordinary document whatever its keys are: an ordered document is
    decoded element by element by [GetExtendedBsonD] and what it decodes
    to without an error is an ordered document with the same keys in the
    same order; a map is converted as a whole. *)
Theorem special_keys_need_one_or_two_fields (fuel : nat) (special : value) (doc : bson_M) :
  as_document special = Some doc ->
  size doc <> 1%nat ->
  (size doc = 2%nat ->
     doc !! "$code" = None /\ doc !! "$regex" = None /\ doc !! "$binary" = None) ->
  (forall d, special = VD d ->
     ParseSpecialKeys (S fuel) special
     = (fun r => (VD r.1, r.2)) <$> GetExtendedBsonD fuel d)
  /\ (forall d v, special = VD d ->
        ParseSpecialKeys (S fuel) special = Some (v, None) ->
        exists out, v = VD out /\ out.*1 = d.*1)
  /\ (forall m, special = VM m ->
        ParseSpecialKeys (S fuel) special = Some (ConvertLegacyExtJSONValueToBSON special)).
Proof.
  intros Hdoc Hone Htwo.
  assert (Hdeeper : ParseSpecialKeys (S fuel) special
                    = recurse_deeper (ParseSpecialKeys fuel) special).
  { destruct (decide (size doc = 2%nat)) as [Hsize|Hsize].
    - rewrite (ParseSpecialKeys_double fuel special doc Hdoc Hsize).
      destruct (Htwo Hsize) as (Hc & Hr & Hb). unfold double_field. now rewrite Hc, Hr, Hb.
    - now apply (ParseSpecialKeys_other fuel special doc). }
  split; [|split].
  - intros d ->. rewrite Hdeeper. apply recurse_deeper_VD.
  - intros d v -> Hv. rewrite Hdeeper, recurse_deeper_VD in Hv.
    destruct (GetExtendedBsonD fuel d) as [[out err]|] eqn:Hout; [|discriminate].
    cbn in Hv. injection Hv as <- ->. exists out. split; [reflexivity|].
    unfold GetExtendedBsonD in Hout. apply GetExtendedBsonD_loop_ok in Hout.
    destruct Hout as (vals & -> & Hvals). cbn [app]. clear Hdeeper Hdoc.
    induction Hvals as [|e e' d vals [Hk _] _ IH]; [reflexivity|].
    cbn [fmap list_fmap]. unfold Key in Hk. now rewrite Hk, IH.
  - intros m ->. rewrite Hdeeper. reflexivity.
Qed.

(** X19: a [$code] with a [$scope]: the scope must be a document, it is
    decoded by [ParseSpecialKeys] itself, an error of that decoding is
    the error of the whole, and otherwise the result is the code with the
    decoded scope; given fuel for the depth of the document there is a
    result. *)
Theorem code_with_scope_decodes_the_scope (fuel : nat) (special : value) (doc : bson_M)
    (c : string) (scope : value) :
  as_document special = Some doc ->
  size doc = 2%nat ->
  doc !! "$code" = Some (VString c) ->
  doc !! "$scope" = Some scope ->
  (as_document scope = None ->
     ParseSpecialKeys (S fuel) special
     = Some (VNil, Some (errors_New "expected $scope field to contain map")))
  /\ (as_document scope <> None ->
        ParseSpecialKeys (S fuel) special
        = match ParseSpecialKeys fuel scope with
          | None => None
          | Some (_, Some err) => Some (VNil, Some err)
          | Some (x, None) => Some (VCodeWithScope c x, None)
          end)
  /\ ((depth special <= fuel)%nat -> is_Some (ParseSpecialKeys (S fuel) special)).
Proof.
  intros Hdoc Hsize Hcode Hscope.
  rewrite (ParseSpecialKeys_double fuel special doc Hdoc Hsize).
  unfold double_field. rewrite Hcode. unfold code_scope_fields. rewrite Hscope.
  split; [|split].
  - intros Hnone. destruct scope; try reflexivity; discriminate.
  - intros Hsome. destruct scope; try reflexivity; now destruct Hsome.
  - intros Hdepth.
    pose proof (ParseSpecialKeys_total fuel special Hdepth) as Htotal.
    rewrite (ParseSpecialKeys_double fuel special doc Hdoc Hsize) in Htotal.
    unfold double_field in Htotal. rewrite Hcode in Htotal.
    unfold code_scope_fields in Htotal. rewrite Hscope in Htotal. exact Htotal.
Qed.

(** X20: a [$timestamp] needs an inner document with a [t] and an [i]
    field that both convert to [uint32]; [t] is checked first, the error
    of a failed conversion is replaced by the message of the field, and
    the other fields of the inner document are not looked at. *)
Theorem timestamp_needs_t_and_i (fuel : nat) (special payload : value) :
  as_document special = Some {[ "$timestamp" := payload ]} ->
  (as_document payload = None ->
     ParseSpecialKeys (S fuel) special
     = Some (VNil, Some (errors_New "expected $timestamp key to have internal document")))
  /\ forall tsDoc,
       as_document payload = Some tsDoc ->
       (tsDoc !! "t" = None ->
          ParseSpecialKeys (S fuel) special
          = Some (VNil, Some (errors_New "expected $timestamp to have 't' field")))
       /\ (forall seconds x e,
             tsDoc !! "t" = Some seconds -> ToUInt32 seconds = (x, Some e) ->
             ParseSpecialKeys (S fuel) special
             = Some (VNil,
                     Some (errors_New "expected $timestamp 't' field to be a numeric type")))
       /\ (forall seconds T,
             tsDoc !! "t" = Some seconds -> ToUInt32 seconds = (T, None) ->
             (tsDoc !! "i" = None ->
                ParseSpecialKeys (S fuel) special
                = Some (VNil, Some (errors_New "expected $timestamp to have 'i' field")))
             /\ (forall inc x e,
                   tsDoc !! "i" = Some inc -> ToUInt32 inc = (x, Some e) ->
                   ParseSpecialKeys (S fuel) special
                   = Some (VNil,
                           Some (errors_New
                                   "expected $timestamp 'i' field to be  a numeric type")))
             /\ (forall inc I,
                   tsDoc !! "i" = Some inc -> ToUInt32 inc = (I, None) ->
                   ParseSpecialKeys (S fuel) special = Some (VTimestamp T I, None))).
Proof.
  intros Hdoc.
  rewrite (ParseSpecialKeys_singleton fuel special _ _ (timestamp_field payload) Hdoc eq_refl).
  unfold timestamp_field. split.
  - intros Hnone. destruct payload; try reflexivity; discriminate.
  - intros tsDoc Hts.
    replace (match payload with
             | VM internalDoc => Some internalDoc
             | VD internalDoc => Some (Map internalDoc)
             | _ => None
             end) with (Some tsDoc)
      by (destruct payload; try discriminate; cbn in Hts; congruence).
    split; [|split].
    + intros Ht. now rewrite Ht.
    + intros seconds x e Ht Hconv. now rewrite Ht, Hconv.
    + intros seconds T Ht Hconv. rewrite Ht, Hconv. split; [|split].
      * intros Hi. now rewrite Hi.
      * intros inc x e Hi Hinc. now rewrite Hi, Hinc.
      * intros inc I Hi Hinc. now rewrite Hi, Hinc.
Qed.

(** X21: a [$date] whose payload is a document takes its [$numberLong]
    field and nothing else of it: without the field, or with one that is
    no string or does not parse, the date is an error; a payload of
    another type than the ones handled is an error too, an [ISODate]
    payload is returned as it is, and for a [json.Number] the time is
    returned together with the error of the conversion. *)
Theorem date_payload_edges (fuel : nat) (special payload : value) :
  as_document special = Some {[ "$date" := payload ]} ->
  (forall inner,
     as_document payload = Some inner ->
     (inner !! "$numberLong" = None ->
        ParseSpecialKeys (S fuel) special
        = Some (VNil, Some (errors_New "expected $numberLong field in $date")))
     /\ (forall v,
           inner !! "$numberLong" = Some v -> (forall s, v <> VString s) ->
           ParseSpecialKeys (S fuel) special
           = Some (VNil,
                   Some (errors_New "expected $numberLong field to have string value")))
     /\ (forall s,
           inner !! "$numberLong" = Some (VString s) ->
           ParseSpecialKeys (S fuel) special
           = Some (match strconv.ParseInt s 0 64 with
                   | (n, None) => (VTime (date_of_millis n), None)
                   | (_, Some e) => (VNil, Some (NumError e))
                   end)))
  /\ (forall s, payload = VISODate s ->
        ParseSpecialKeys (S fuel) special = Some (VISODate s, None))
  /\ (forall s, payload = VNumber s ->
        ParseSpecialKeys (S fuel) special
        = Some (VTime (date_of_millis (Number_Int64 s).1), (Number_Int64 s).2))
  /\ (match payload with
      | VString _ | VD _ | VM _ | VNumber _ | VFloat64 _ | VInt32 _ | VInt64 _
      | VISODate _ => False
      | _ => True
      end ->
      ParseSpecialKeys (S fuel) special
      = Some (VNil, Some (errors_New "invalid type for $date field"))).
Proof.
  intros Hdoc.
  rewrite (ParseSpecialKeys_singleton fuel special _ _ (date_field payload) Hdoc eq_refl).
  split; [|split; [|split]].
  - intros inner Hinner.
    assert (Hdate : date_field payload = date_numberLong inner)
      by (destruct payload; try discriminate; cbn in Hinner; injection Hinner as <-;
          reflexivity).
    rewrite Hdate. unfold date_numberLong. split; [|split].
    + intros Hnone. now rewrite Hnone.
    + intros v Hv Hns. rewrite Hv. destruct v; try reflexivity. now destruct (Hns s).
    + intros s Hv. rewrite Hv. unfold parseNumberLongField, lift_err.
      now destruct (strconv.ParseInt s 0 64) as [n [e|]].
  - intros s ->. reflexivity.
  - intros s ->. cbn [date_field]. now destruct (Number_Int64 s).
  - intros Hother. destruct payload; try reflexivity; now destruct Hother.
Qed.

End SpecialForms.

(** ** [ConvertLegacyExtJSONDocumentToBSON]: a map converted in place *)

Section ConvertDocument.
Context `{!bsonutil.Libs}.
Import bsonutil.

Lemma ConvertLegacyExtJSONDocumentToBSON_loop_cons fuel key jsonValue entries (doc : bson_M) :
  ConvertLegacyExtJSONDocumentToBSON_loop fuel ((key, jsonValue) :: entries) doc
  = match ParseLegacyExtJSONValue fuel jsonValue with
    | None => None
    | Some (_, Some err) => Some (doc, Some err)
    | Some (bsonValue, None) =>
        ConvertLegacyExtJSONDocumentToBSON_loop fuel entries (<[key := bsonValue]> doc)
    end.
Proof.
  cbn [ConvertLegacyExtJSONDocumentToBSON_loop]. unfold ParseLegacyExtJSONValue.
  destruct jsonValue; reflexivity.
Qed.

(** The loop over entries with distinct keys that the map has. *)
Lemma ConvertLegacyExtJSONDocumentToBSON_loop_inv fuel (entries : list (string * value)) :
  forall (doc doc' : bson_M) err,
    NoDup entries.*1 ->
    (forall k v, (k, v) ∈ entries -> is_Some (doc !! k)) ->
    ConvertLegacyExtJSONDocumentToBSON_loop fuel entries doc = Some (doc', err) ->
    dom doc' = dom doc
    /\ (forall k, k ∉ entries.*1 -> doc' !! k = doc !! k)
    /\ (forall k v, (k, v) ∈ entries ->
          doc' !! k = doc !! k
          \/ exists v', doc' !! k = Some v'
                        /\ ParseLegacyExtJSONValue fuel v = Some (v', None))
    /\ (err = None ->
        forall k v, (k, v) ∈ entries ->
          exists v', doc' !! k = Some v'
                     /\ ParseLegacyExtJSONValue fuel v = Some (v', None))
    /\ (forall e, err = Some e ->
          exists k v x, (k, v) ∈ entries
                        /\ ParseLegacyExtJSONValue fuel v = Some (x, Some e)).
Proof.
  induction entries as [|[key jsonValue] entries IH]; intros doc doc' err Hnodup Hdom Hloop.
  - cbn in Hloop. injection Hloop as <- <-.
    split; [reflexivity|]. split; [reflexivity|]. split; [|split].
    + intros k v Hin. now apply elem_of_nil in Hin.
    + intros _ k v Hin. now apply elem_of_nil in Hin.
    + discriminate.
  - rewrite ConvertLegacyExtJSONDocumentToBSON_loop_cons in Hloop.
    cbn [fmap list_fmap fst] in Hnodup. apply NoDup_cons in Hnodup as [Hfresh Hnodup].
    destruct (ParseLegacyExtJSONValue fuel jsonValue) as [[bsonValue [e|]]|] eqn:Hdec;
      [| |discriminate].
    + injection Hloop as <- <-.
      split; [reflexivity|]. split; [reflexivity|]. split; [|split].
      * intros k v _. now left.
      * discriminate.
      * intros e' [= <-]. exists key, jsonValue, bsonValue. split; [|exact Hdec].
        apply elem_of_cons. now left.
    + assert (Hkey : is_Some (doc !! key)) by (apply (Hdom key jsonValue), elem_of_cons; now left).
      destruct (IH (<[key := bsonValue]> doc) doc' err Hnodup) as (Hd & Hout & Hin & Hok & Herr).
      { intros k v Hkv. destruct (decide (k = key)) as [->|Hne].
        - rewrite lookup_insert_eq. eauto.
        - rewrite lookup_insert_ne by congruence. apply (Hdom k v), elem_of_cons. now right. }
      { exact Hloop. }
      assert (Hhere : doc' !! key = Some bsonValue).
      { rewrite (Hout key Hfresh). apply lookup_insert_eq. }
      assert (Hne : forall k v, (k, v) ∈ entries -> k <> key).
      { intros k v Hkv ->. apply Hfresh. apply list_elem_of_fmap. now exists (key, v). }
      split; [|split; [|split; [|split]]].
      * rewrite Hd. apply dom_insert_lookup_L. exact Hkey.
      * intros k Hk. cbn [fmap list_fmap fst] in Hk. apply not_elem_of_cons in Hk as [Hk1 Hk2].
        rewrite (Hout k Hk2). now apply lookup_insert_ne.
      * intros k v Hkv. apply elem_of_cons in Hkv as [[= -> ->]|Hkv].
        -- right. now exists bsonValue.
        -- destruct (Hin k v Hkv) as [Hsame|Hconv]; [left | now right].
           rewrite Hsame. apply lookup_insert_ne. intros Heq. symmetry in Heq.
           exact (Hne k v Hkv Heq).
      * intros Hnone k v Hkv. apply elem_of_cons in Hkv as [[= -> ->]|Hkv].
        -- now exists bsonValue.
        -- now apply Hok.
      * intros e He. destruct (Herr e He) as (k & v & x & Hkv & Hx).
        exists k, v, x. split; [|exact Hx]. apply elem_of_cons. now right.
Qed.

(** The loop returns when every entry decodes with the fuel given. *)
Lemma ConvertLegacyExtJSONDocumentToBSON_loop_total fuel (entries : list (string * value)) :
  (forall k v, (k, v) ∈ entries -> is_Some (ParseLegacyExtJSONValue fuel v)) ->
  forall doc : bson_M, is_Some (ConvertLegacyExtJSONDocumentToBSON_loop fuel entries doc).
Proof.
  induction entries as [|[key jsonValue] entries IH]; intros Hdec doc.
  - cbn. eauto.
  - rewrite ConvertLegacyExtJSONDocumentToBSON_loop_cons.
    destruct (Hdec key jsonValue ltac:(apply elem_of_cons; now left))
      as [[bsonValue [e|]] ->]; [eauto|].
    apply IH. intros k v Hkv. apply (Hdec k v), elem_of_cons. now right.
Qed.

(** A value of a map decodes, given fuel for the depth of the map. *)
Lemma ParseLegacyExtJSONValue_total fuel (doc : bson_M) k v :
  (depth (VM doc) <= fuel)%nat ->
  doc !! k = Some v ->
  is_Some (ParseLegacyExtJSONValue fuel v).
Proof.
  intros Hfuel Hk. pose proof (depth_VM_lookup doc k v Hk) as Hdepth.
  destruct fuel as [|fuel]; [lia|].
  unfold ParseLegacyExtJSONValue.
  destruct v; eauto; apply ParseSpecialKeys_total; lia.
Qed.

(** X22: [ConvertLegacyExtJSONDocumentToBSON] converts the map in place,
    for every order in which the range produces its entries: given fuel
    for the depth of the map it returns, and the map has the same keys
    afterwards; without an error every key holds the value its old value
    decodes to by [ParseLegacyExtJSONValue]; with an error, which is that
    of one of the entries, the map is left partly converted: each key
    holds its old value or the decoded one. *)
Theorem ConvertLegacyExtJSONDocumentToBSON_in_place (fuel : nat) (doc : bson_M)
    (entries : list (string * value)) :
  entries ≡ₚ map_to_list doc ->
  (depth (VM doc) <= fuel)%nat ->
  exists (doc' : bson_M) (err : option error),
    ConvertLegacyExtJSONDocumentToBSON fuel entries doc = Some (doc', err)
    /\ dom doc' = dom doc
    /\ (err = None ->
        forall k v, doc !! k = Some v ->
          exists v', doc' !! k = Some v'
                     /\ ParseLegacyExtJSONValue fuel v = Some (v', None))
    /\ (forall e, err = Some e ->
          (exists k v x, doc !! k = Some v
                         /\ ParseLegacyExtJSONValue fuel v = Some (x, Some e))
          /\ forall k v, doc !! k = Some v ->
               doc' !! k = Some v
               \/ exists v', doc' !! k = Some v'
                             /\ ParseLegacyExtJSONValue fuel v = Some (v', None)).
Proof.
  intros Hperm Hfuel.
  assert (Hin : forall k v, (k, v) ∈ entries <-> doc !! k = Some v).
  { intros k v. rewrite Hperm. apply elem_of_map_to_list. }
  assert (Hnodup : NoDup entries.*1).
  { rewrite Hperm. apply NoDup_fst_map_to_list. }
  destruct (ConvertLegacyExtJSONDocumentToBSON_loop_total fuel entries) with (doc := doc)
    as [[doc' err] Hconv].
  { intros k v Hkv. apply Hin in Hkv.
    exact (ParseLegacyExtJSONValue_total fuel doc k v Hfuel Hkv). }
  exists doc', err. split; [exact Hconv|].
  destruct (ConvertLegacyExtJSONDocumentToBSON_loop_inv fuel entries doc doc' err Hnodup)
    as (Hd & _ & Hpart & Hok & Herr).
  { intros k v Hkv. apply Hin in Hkv. eauto. }
  { exact Hconv. }
  split; [exact Hd|]. split.
  - intros Hnone k v Hk. apply (Hok Hnone k v). now apply Hin.
  - intros e He. split.
    + destruct (Herr e He) as (k & v & x & Hkv & Hx). exists k, v, x. split; [|exact Hx].
      now apply Hin.
    + intros k v Hk. destruct (Hpart k v (proj2 (Hin k v) Hk)) as [Hsame|Hdone].
      * left. now rewrite Hsame.
      * now right.
Qed.

End ConvertDocument.

(** ** The theorems on documents at concrete inputs *)

Lemma GetExtendedBsonD_decodes_each_value_witness :
  @bsonutil.GetExtendedBsonD demo.libs 1
    [("a", VD [("$numberLong", VString "7")]); ("b", VString "x")]
  = Some ([("a", VInt64 7); ("b", VString "x")], None).
Proof.
  apply (proj2 (proj1 (@GetExtendedBsonD_decodes_each_value demo.libs 1
           [("a", VD [("$numberLong", VString "7")]); ("b", VString "x")]
           [("a", VInt64 7); ("b", VString "x")]))).
  repeat constructor.
Defined.

Lemma GetExtendedBsonD_first_error_witness :
  @bsonutil.GetExtendedBsonD demo.libs 1
    [("a", VString "x"); ("b", VD [("$numberLong", VBool true)]); ("c", VUndefined)]
  = Some ([], Some (errors_New "expected $numberLong field to have string value")).
Proof.
  apply (proj2 (@GetExtendedBsonD_first_error demo.libs 1
           [("a", VString "x"); ("b", VD [("$numberLong", VBool true)]); ("c", VUndefined)]
           [] (errors_New "expected $numberLong field to have string value"))).
  split; [reflexivity|].
  exists [("a", VString "x")], ("b", VD [("$numberLong", VBool true)]), [("c", VUndefined)],
    (VInt64 0).
  split; [reflexivity|]. split; [reflexivity|].
  constructor; [|constructor]. now exists (VString "x").
Defined.

Lemma RemoveKey_then_FindValueByKey_witness :
  VInt32 1
  = (bsonutil.FindValueByKey "a"
       [("x", VInt32 0); ("a", VInt32 1); ("b", VInt32 2); ("a", VInt32 3)]).1
  /\ bsonutil.FindValueByKey "a" [("x", VInt32 0); ("b", VInt32 2); ("a", VInt32 3)]
     = (VInt32 3, None).
Proof.
  split.
  - exact (proj1 (RemoveKey_then_FindValueByKey "a"
             [("x", VInt32 0); ("a", VInt32 1); ("b", VInt32 2); ("a", VInt32 3)]
             [("x", VInt32 0); ("b", VInt32 2); ("a", VInt32 3)] (VInt32 1) true eq_refl)).
  - refine (proj2 (proj2 (proj2 (proj2 (proj2 (RemoveKey_then_FindValueByKey "a"
             [("x", VInt32 0); ("a", VInt32 1); ("b", VInt32 2); ("a", VInt32 3)]
             [("x", VInt32 0); ("b", VInt32 2); ("a", VInt32 3)] (VInt32 1) true eq_refl)))))
             [("x", VInt32 0)] (VInt32 1) [("b", VInt32 2); ("a", VInt32 3)] eq_refl _).
    cbn. intros Hin. apply elem_of_cons in Hin as [Heq|Hin]; [discriminate|].
    now apply elem_of_nil in Hin.
Defined.

Lemma MtoD_round_trip_witness :
  Map (bsonutil.MtoD [("b", VInt32 2); ("a", VInt32 1)])
  = <["a" := VInt32 1]> ({["b" := VInt32 2]} : bson_M).
Proof.
  refine (proj1 (proj2 (proj2 (MtoD_round_trip _ _ _)))).
  rewrite map_to_list_insert by (apply lookup_singleton_ne; discriminate).
  rewrite map_to_list_singleton. apply Permutation_swap.
Defined.

Lemma two_field_forms_need_their_partner_witness :
  @bsonutil.ParseSpecialKeys demo.libs 1 (VD [("$regex", VString "^a"); ("flags", VString "i")])
  = Some (VNil, Some (errors_New "expected $options field with $regex field")).
Proof.
  exact (proj1 (proj2 (@two_field_forms_need_their_partner demo.libs 0
           (VD [("$regex", VString "^a"); ("flags", VString "i")])
           (Map [("$regex", VString "^a"); ("flags", VString "i")]) eq_refl eq_refl))
           "^a" eq_refl eq_refl eq_refl).
Defined.

Lemma special_keys_need_one_or_two_fields_witness :
  @bsonutil.ParseSpecialKeys demo.libs 1 (VD [("$date", VInt32 5); ("a", VInt32 1)])
  = Some (VD [("$date", VInt32 5); ("a", VInt32 1)], None).
Proof.
  refine (proj1 (@special_keys_need_one_or_two_fields demo.libs 0
            (VD [("$date", VInt32 5); ("a", VInt32 1)])
            (Map [("$date", VInt32 5); ("a", VInt32 1)]) eq_refl _ _)
            [("$date", VInt32 5); ("a", VInt32 1)] eq_refl).
  - vm_compute. discriminate.
  - intros _. repeat split.
Defined.

Lemma code_with_scope_decodes_the_scope_witness :
  @bsonutil.ParseSpecialKeys demo.libs 3
    (VD [("$code", VString "f()");
         ("$scope", VD [("x", VD [("$numberLong", VString "7")])])])
  = Some (VCodeWithScope "f()" (VD [("x", VInt64 7)]), None).
Proof.
  refine (proj1 (proj2 (@code_with_scope_decodes_the_scope demo.libs 2
            (VD [("$code", VString "f()");
                 ("$scope", VD [("x", VD [("$numberLong", VString "7")])])])
            (Map [("$code", VString "f()");
                  ("$scope", VD [("x", VD [("$numberLong", VString "7")])])])
            "f()" (VD [("x", VD [("$numberLong", VString "7")])])
            eq_refl eq_refl eq_refl eq_refl)) _).
  discriminate.
Defined.

Lemma timestamp_needs_t_and_i_witness :
  @bsonutil.ParseSpecialKeys demo.libs 1
    (VD [("$timestamp", VD [("t", VInt32 5); ("i", VInt32 1); ("junk", VNil)])])
  = Some (VTimestamp 5 1, None).
Proof.
  exact (proj2 (proj2 (proj2 (proj2 (proj2 (@timestamp_needs_t_and_i demo.libs 0
           (VD [("$timestamp", VD [("t", VInt32 5); ("i", VInt32 1); ("junk", VNil)])])
           (VD [("t", VInt32 5); ("i", VInt32 1); ("junk", VNil)]) eq_refl)
           (Map [("t", VInt32 5); ("i", VInt32 1); ("junk", VNil)]) eq_refl))
           (VInt32 5) 5 eq_refl eq_refl))
           (VInt32 1) 1 eq_refl eq_refl).
Defined.

Lemma date_payload_edges_witness :
  @bsonutil.ParseSpecialKeys demo.libs 1
    (VD [("$date", VD [("$numberLong", VString "12"); ("junk", VNil)])])
  = Some (VTime (Unix 0 12000000), None)
  /\ @bsonutil.ParseSpecialKeys demo.libs 1 (VD [("$date", VD [("millis", VInt32 12)])])
     = Some (VNil, Some (errors_New "expected $numberLong field in $date")).
Proof.
  split.
  - exact (proj2 (proj2 (proj1 (@date_payload_edges demo.libs 0
             (VD [("$date", VD [("$numberLong", VString "12"); ("junk", VNil)])])
             (VD [("$numberLong", VString "12"); ("junk", VNil)]) eq_refl)
             (Map [("$numberLong", VString "12"); ("junk", VNil)]) eq_refl))
             "12" eq_refl).
  - exact (proj1 (proj1 (@date_payload_edges demo.libs 0
             (VD [("$date", VD [("millis", VInt32 12)])])
             (VD [("millis", VInt32 12)]) eq_refl)
             (Map [("millis", VInt32 12)]) eq_refl) eq_refl).
Defined.

Lemma ConvertLegacyExtJSONDocumentToBSON_in_place_witness :
  exists (doc' : bson_M) (err : option error),
    @bsonutil.ConvertLegacyExtJSONDocumentToBSON demo.libs 2
      [("a", VD [("$numberLong", VString "7")])]
      {["a" := VD [("$numberLong", VString "7")]]}
    = Some (doc', err)
    /\ dom doc' = dom ({["a" := VD [("$numberLong", VString "7")]]} : bson_M).
Proof.
  destruct (@ConvertLegacyExtJSONDocumentToBSON_in_place demo.libs 2
              ({["a" := VD [("$numberLong", VString "7")]]} : bson_M)
              [("a", VD [("$numberLong", VString "7")])])
    as (doc' & err & Hconv & Hdom & _).
  - now rewrite map_to_list_singleton.
  - vm_compute. lia.
  - exists doc', err. split; assumption.
Defined.

(** ** Ordered documents and maps decode alike *)

Section DocumentTypes.
Context `{!bsonutil.Libs}.
Import bsonutil.

(** X25: whether a document is a special form, and what the form
    decodes to, depends on the map of the document only: an ordered
    document and a map with the same keys and values give the same
    result when they have one field with a single-field key, or two
    fields with [$code], [$regex] or [$binary]; any other pair of them
    either gives the same result or is a pair of ordinary documents, each
    decoded after its own type. *)
Theorem special_forms_ignore_the_document_type (fuel : nat) (special special' : value)
    (doc : bson_M) :
  as_document special = Some doc ->
  as_document special' = Some doc ->
  (size doc = 1%nat ->
   Exists (fun k => is_Some (doc !! k))
     ["$date"; "$code"; "$oid"; "$numberLong"; "$numberInt"; "$timestamp";
      "$numberDecimal"; "$undefined"; "$maxKey"; "$minKey"] ->
   ParseSpecialKeys (S fuel) special = ParseSpecialKeys (S fuel) special')
  /\ (size doc = 2%nat ->
      Exists (fun k => is_Some (doc !! k)) ["$code"; "$regex"; "$binary"] ->
      ParseSpecialKeys (S fuel) special = ParseSpecialKeys (S fuel) special')
  /\ (ParseSpecialKeys (S fuel) special = ParseSpecialKeys (S fuel) special'
      \/ (ParseSpecialKeys (S fuel) special
          = recurse_deeper (ParseSpecialKeys fuel) special
          /\ ParseSpecialKeys (S fuel) special'
             = recurse_deeper (ParseSpecialKeys fuel) special')).
Proof.
  intros Hdoc Hdoc'. rewrite !ParseSpecialKeys_unfold, Hdoc, Hdoc'. split; [|split].
  - intros Hsize Hkey. rewrite Hsize. unfold single_field.
    repeat match goal with
           | |- context [doc !! ?k] => destruct (doc !! k) eqn:?; [reflexivity|]
           end.
    exfalso.
    repeat (apply Exists_cons in Hkey as [[? Hsome]|Hkey]; [congruence|]).
    now apply Exists_nil in Hkey.
  - intros Hsize Hkey. rewrite Hsize. unfold double_field.
    repeat match goal with
           | |- context [doc !! ?k] => destruct (doc !! k) eqn:?; [reflexivity|]
           end.
    exfalso.
    repeat (apply Exists_cons in Hkey as [[? Hsome]|Hkey]; [congruence|]).
    now apply Exists_nil in Hkey.
  - destruct (match size doc with
              | 1%nat =>
                  match single_field doc with
                  | Returns r => Returns (Some r)
                  | NoMatch => NoMatch
                  end
              | 2%nat => double_field (ParseSpecialKeys fuel) doc
              | _ => NoMatch
              end) as [r|]; [left | right; split]; reflexivity.
Qed.

End DocumentTypes.

Lemma special_forms_ignore_the_document_type_witness :
  @bsonutil.ParseSpecialKeys demo.libs 1
    (VD [("$binary", VString "AA=="); ("$type", VString "80")])
  = @bsonutil.ParseSpecialKeys demo.libs 1
      (VM (Map [("$type", VString "80"); ("$binary", VString "AA==")])).
Proof.
  refine (proj1 (proj2 (@special_forms_ignore_the_document_type demo.libs 0
            (VD [("$binary", VString "AA=="); ("$type", VString "80")])
            (VM (Map [("$type", VString "80"); ("$binary", VString "AA==")]))
            (Map [("$type", VString "80"); ("$binary", VString "AA==")]) _ _)) _ _).
  - vm_compute. reflexivity.
  - reflexivity.
  - vm_compute. reflexivity.
  - apply Exists_cons_tl, Exists_cons_tl, Exists_cons_hd. eexists. vm_compute. reflexivity.
Defined.
